(** * Vocilia ai-evaluator: the speech processors

    A shallow embedding of
      packages/ai-evaluator/src/tts_processor.py      (class TTSProcessor)
      packages/ai-evaluator/src/whisperx_processor.py (class WhisperXProcessor)
    and the properties of the two classes that the specification states.

    Conventions of the embedding.
    - A Python [str] is a list of Unicode code points.  The character
      predicates and case mappings of CPython ([str.isspace], [str.isupper],
      [str.upper], ...) are the fields of the class [Unicode]; the few facts
      about them that the proofs use are the fields of [UnicodeLaws] (each one
      holds for every code point of CPython's tables).  [Latin] is an instance
      that agrees with CPython on the code points below U+0180.
    - A Python [float] is a rational number: the arithmetic of the two
      modules (products with constants, one division, comparisons) is taken
      exactly, without binary64 rounding.
    - Methods run in the monad [M]: a state (the file system, the clock, the
      log, the calls made to the speech model) and a Python exception or a
      value.  What the operating system, the external programs and the
      pretrained model answer is the record [Env]. *)

From Stdlib Require Import ZArith QArith Qminmax Qabs List String Ascii Bool Lia.
From Stdlib.Strings Require Import Byte.
From Stdlib Require Import Permutation Sorted.
From stdpp Require Import gmap.
Import ListNotations.


(** ** Python strings *)

Definition codepoint := N.
Definition pystr := list codepoint.

(** An ASCII literal of the source as a [pystr]. *)
Definition py (s : string) : pystr := map N_of_ascii (list_ascii_of_string s).

Class Unicode := {
  isspace : codepoint -> bool;   (* str.isspace() of one character *)
  isupper : codepoint -> bool;   (* str.isupper() of one character *)
  islower : codepoint -> bool;   (* str.islower() of one character *)
  upper : codepoint -> pystr;    (* str.upper() of a one-character string *)
  lower : pystr -> pystr;        (* str.lower() *)
}.

Definition SPACE : codepoint := 32%N.
Definition DOT : codepoint := 46%N.
Definition BANG : codepoint := 33%N.
Definition QUESTION : codepoint := 63%N.

Class UnicodeLaws (U : Unicode) : Prop := {
  isspace_SPACE : isspace SPACE = true;
  isspace_DOT : isspace DOT = false;
  isspace_BANG : isspace BANG = false;
  isspace_QUESTION : isspace QUESTION = false;
  upper_nonempty : forall c, upper c <> [];
  upper_nospace : forall c, isspace c = false ->
    Forall (fun d => isspace d = false) (upper c);
  upper_settled : forall c d u, isupper c = false -> upper c = d :: u ->
    isupper d = true \/ upper d = [d];
}.

Section PyStr.
Context {U : Unicode}.

(** [a == b] on strings. *)
Fixpoint pystr_eqb (a b : pystr) : bool :=
  match a, b with
  | [], [] => true
  | x :: a', y :: b' => N.eqb x y && pystr_eqb a' b'
  | _, _ => false
  end.

(** [s.startswith(p)] *)
Fixpoint startswith (s p : pystr) : bool :=
  match p, s with
  | [], _ => true
  | _ :: _, [] => false
  | x :: p', y :: s' => N.eqb x y && startswith s' p'
  end.

(** [p in s]: [p] occurs in [s] as a substring. *)
Fixpoint contains (s p : pystr) : bool :=
  startswith s p ||
  match s with
  | [] => false
  | _ :: s' => contains s' p
  end.

(** [s.endswith(p)] *)
Definition endswith (s p : pystr) : bool := startswith (rev s) (rev p).

(** [str.split()] without arguments: the maximal runs of characters that are
    not whitespace. *)
Fixpoint split (s : pystr) : list pystr :=
  match s with
  | [] => []
  | c :: s' =>
      if isspace c then split s'
      else match s' with
           | [] => [[c]]
           | d :: _ =>
               if isspace d then [c] :: split s'
               else match split s' with
                    | w :: ws => (c :: w) :: ws
                    | [] => [[c]]
                    end
           end
  end.

(** [sep.join(ws)]. *)
Fixpoint join (sep : pystr) (ws : list pystr) : pystr :=
  match ws with
  | [] => []
  | w :: ws' =>
      match ws' with
      | [] => w
      | _ :: _ => w ++ sep ++ join sep ws'
      end
  end.

(** [str.lstrip()] and [str.rstrip()] without arguments. *)
Fixpoint lstrip (s : pystr) : pystr :=
  match s with
  | [] => []
  | c :: s' => if isspace c then lstrip s' else s
  end.

Definition rstrip (s : pystr) : pystr := rev (lstrip (rev s)).

(** [str.strip()] without arguments. *)
Definition strip (s : pystr) : pystr := rstrip (lstrip s).

(** [str.replace(old, new)] for a non-empty [old]: the occurrences are
    replaced from left to right and do not overlap; [skip] counts the
    characters of a replaced occurrence that are still to be passed. *)
Fixpoint replace_from (old new s : pystr) (skip : nat) : pystr :=
  match s with
  | [] => []
  | c :: s' =>
      match skip with
      | S k => replace_from old new s' k
      | O =>
          if startswith s old
          then new ++ replace_from old new s' (length old - 1)
          else c :: replace_from old new s' 0
      end
  end.

Definition replace (s old new : pystr) : pystr := replace_from old new s 0.

(** Predicates on strings that the statements below use. *)

(** Some character of [s] is not whitespace. *)
Definition has_text (s : pystr) : bool := existsb (fun c => negb (isspace c)) s.

(** No two neighbours in [s] are both whitespace. *)
Fixpoint no_repeated_whitespace (s : pystr) : bool :=
  match s with
  | [] => true
  | c :: s' =>
      match s' with
      | [] => true
      | d :: _ => negb (isspace c && isspace d) && no_repeated_whitespace s'
      end
  end.

(** A word: a non-empty string without whitespace. *)
Definition nospace (w : pystr) : Prop := Forall (fun c => isspace c = false) w.
Definition word (w : pystr) : Prop := w <> [] /\ nospace w.

(** The characters that end a sentence. *)
Definition sentence_end (c : codepoint) : Prop := c = DOT \/ c = BANG \/ c = QUESTION.

End PyStr.

(** ** Python numbers *)

Definition Qltb (a b : Q) : bool := negb (Qle_bool b a).

(** [max(a, b)] and [min(a, b)] of Python: the first argument unless the
    second is strictly larger (smaller). *)
Definition py_max (a b : Q) : Q := if Qltb a b then b else a.
Definition py_min (a b : Q) : Q := if Qltb b a then b else a.

(** [int(x)] of a float: truncation towards zero. *)
Definition py_int (x : Q) : Z := Z.quot (Qnum x) (Zpos (Qden x)).

(** [len(x)] *)
Definition len {A} (l : list A) : Z := Z.of_nat (length l).

(** [a[:n]] *)
Definition slice_to {A} (a : list A) (n : Z) : list A :=
  if (0 <=? n)%Z then firstn (Z.to_nat n) a
  else firstn (Z.to_nat (len a + n)) a.

(** ** Exceptions, the world and the monad of methods *)

Inductive exn_class :=
  | ValueError | RuntimeError | ZeroDivisionError | AttributeError
  | OSError | FileNotFoundError | PermissionError
  | TimeoutExpired | OtherException.

#[global] Instance exn_class_eq_dec : EqDecision exn_class.
Proof. solve_decision. Defined.

(** [issubclass(c, base)] on the classes above. *)
Definition issubclass (c base : exn_class) : bool :=
  match c, base with
  | FileNotFoundError, OSError => true
  | PermissionError, OSError => true
  | _, _ => bool_decide (c = base)
  end.

(** An exception: its class and [str(e)]. *)
Record exn := Exn { exn_cls : exn_class; exn_str : pystr }.

Inductive result (A : Type) :=
  | Return (a : A)
  | Raise (e : exn).
Arguments Return {A} a.
Arguments Raise {A} e.

Inductive level := INFO | WARNING | ERROR.

(** The options of one call of [WhisperModel.transcribe]. *)
Record TranscribeOptions := {
  opt_language : option pystr;
  opt_beam_size : Z;
  opt_best_of : Z;
  opt_temperature : Q;
  opt_condition_on_previous_text : bool;
  opt_vad_filter : bool;
  opt_vad_parameters : list (string * Z);
}.

Record Segment := { seg_text : pystr; avg_logprob : option Q }.

(** [info]: an attribute that the object lacks is [None] ([hasattr] false). *)
Record TranscriptionInfo := {
  info_language : option pystr;
  info_language_probability : option Q;
}.

(** The state a method runs in.  [w_log] keeps the level and the literal text
    of each message (interpolated values are left out); [w_calls] lists the
    calls of the model's [transcribe]; [w_created] lists the files made by
    [tempfile.NamedTemporaryFile]; [w_ticks] counts the readings of the
    clock. *)
Record World := {
  w_files : gmap pystr (list byte);
  w_ticks : nat;
  w_log : list (level * pystr);
  w_calls : list (list Q * TranscribeOptions);
  w_created : list pystr;
}.

Record CompletedProcess := {
  returncode : Z;
  stdout : pystr;
  stderr : pystr;
}.

(** What lies outside the two modules. *)
Record Env := {
  (* subprocess.run(cmd, input=..., capture_output=True, timeout=...): the
     program may change any file before it ends or is killed *)
  run : list pystr -> option pystr -> gmap pystr (list byte) ->
        result CompletedProcess * gmap pystr (list byte);
  (* the name chosen by tempfile.NamedTemporaryFile(suffix=...), or the
     error of a creation that fails *)
  mkstemp : pystr -> gmap pystr (list byte) -> result pystr;
  (* the error, if any, of writing the buffer to the temporary file *)
  write_error : pystr -> list byte -> gmap pystr (list byte) -> option exn;
  (* the value of the n-th reading of time.time() *)
  time_at : nat -> Q;
  (* librosa.load(path, sr=..., mono=True): the samples, resampled to sr *)
  librosa_load : pystr -> Z -> gmap pystr (list byte) -> result (list Q);
  (* scipy.signal.sosfilt(butter(3, 80, 'high', fs=...), x) *)
  sosfilt : Z -> list Q -> result (list Q);
  (* np.exp *)
  np_exp : Q -> Q;
  (* torch.cuda.is_available() *)
  cuda_is_available : bool;
  (* WhisperModel(model_size, device=..., compute_type=...) *)
  WhisperModel : pystr -> pystr -> pystr -> option exn;
  (* model.transcribe(audio, **options): info, and the segments that the
     returned generator yields (or the exception it stops with) *)
  transcribe : list Q -> TranscribeOptions ->
               result (result (list Segment) * TranscriptionInfo);
}.

Definition M (A : Type) : Type := World -> result A * World.

Definition ret {A} (a : A) : M A := fun w => (Return a, w).
Definition raise {A} (e : exn) : M A := fun w => (Raise e, w).

Definition bind {A B} (m : M A) (k : A -> M B) : M B :=
  fun w =>
    match m w with
    | (Return a, w') => k a w'
    | (Raise e, w') => (Raise e, w')
    end.

Declare Scope py_scope.
Delimit Scope py_scope with py.
Notation "x <- m ;; k" := (bind m (fun x => k))
  (at level 100, m at next level, right associativity) : py_scope.
Notation "m ;;; k" := (bind m (fun _ => k))
  (at level 100, right associativity) : py_scope.
Open Scope py_scope.

(** [try: m except Exception as e: h e] (and a bare [except:]). *)
Definition try_except {A} (m : M A) (h : exn -> M A) : M A :=
  fun w =>
    match m w with
    | (Return a, w') => (Return a, w')
    | (Raise e, w') => h e w'
    end.

(** [try: m except (c1, c2, ...): h] *)
Definition try_except_in {A} (m : M A) (classes : list exn_class) (h : exn -> M A) : M A :=
  try_except m (fun e =>
    if existsb (issubclass (exn_cls e)) classes then h e else raise e).

(** [try: m finally: fin]: [fin] runs after [m] however [m] ends; an
    exception of [fin] replaces the outcome of [m]. *)
Definition try_finally {A} (m : M A) (fin : M unit) : M A :=
  fun w =>
    match m w with
    | (r, w') =>
        match fin w' with
        | (Return _, w'') => (r, w'')
        | (Raise e, w'') => (Raise e, w'')
        end
    end.

Definition set_files (f : gmap pystr (list byte)) (w : World) : World :=
  {| w_files := f; w_ticks := w_ticks w; w_log := w_log w;
     w_calls := w_calls w; w_created := w_created w |}.

Definition logger (l : level) (msg : string) : M unit :=
  fun w => (Return tt,
            {| w_files := w_files w; w_ticks := w_ticks w;
               w_log := w_log w ++ [(l, py msg)];
               w_calls := w_calls w; w_created := w_created w |}).

Section Effects.
Context (env : Env).

(** [time.time()] *)
Definition time_time : M Q :=
  fun w => (Return (time_at env (w_ticks w)),
            {| w_files := w_files w; w_ticks := S (w_ticks w); w_log := w_log w;
               w_calls := w_calls w; w_created := w_created w |}).

(** [subprocess.run(cmd, input=stdin, ...)] *)
Definition subprocess_run (cmd : list pystr) (stdin : option pystr) : M CompletedProcess :=
  fun w => let '(r, f) := run env cmd stdin (w_files w) in (r, set_files f w).

(** [with tempfile.NamedTemporaryFile(suffix=suffix, delete=False) as f: ...]
    up to the creation of the (empty) file; the value is [f.name]. *)
Definition NamedTemporaryFile (suffix : pystr) : M pystr :=
  fun w =>
    match mkstemp env suffix (w_files w) with
    | Return p =>
        (Return p,
         {| w_files := <[p := []]> (w_files w); w_ticks := w_ticks w;
            w_log := w_log w; w_calls := w_calls w;
            w_created := w_created w ++ [p] |})
    | Raise e => (Raise e, w)
    end.

(** [temp_file.write(data)] and the closing of the file when the [with]
    block is left: after an error the file stays as it was created. *)
Definition write_close (p : pystr) (data : list byte) : M unit :=
  fun w =>
    match write_error env p data (w_files w) with
    | None => (Return tt, set_files (<[p := data]> (w_files w)) w)
    | Some e => (Raise e, w)
    end.

(** [with open(p, 'rb') as f: f.read()] *)
Definition read_file (p : pystr) : M (list byte) :=
  fun w =>
    match w_files w !! p with
    | Some data => (Return data, w)
    | None => (Raise (Exn FileNotFoundError (py "No such file or directory")), w)
    end.

(** [os.path.exists(p)] *)
Definition os_path_exists (p : pystr) : M bool :=
  fun w => (Return (bool_decide (is_Some (w_files w !! p))), w).

(** [os.unlink(p)] *)
Definition os_unlink (p : pystr) : M unit :=
  fun w =>
    match w_files w !! p with
    | Some _ => (Return tt, set_files (delete p (w_files w)) w)
    | None => (Raise (Exn FileNotFoundError (py "No such file or directory")), w)
    end.

(** The [finally] block of every method that makes a temporary file:
    [if os.path.exists(temp_path): os.unlink(temp_path)]. *)
Definition unlink_if_exists (temp_path : pystr) : M unit :=
  b <- os_path_exists temp_path ;;
  if b then os_unlink temp_path else ret tt.

(** [self.model.transcribe(audio, **options)] *)
Definition model_transcribe (audio : list Q) (options : TranscribeOptions)
  : M (result (list Segment) * TranscriptionInfo) :=
  fun w =>
    (transcribe env audio options,
     {| w_files := w_files w; w_ticks := w_ticks w; w_log := w_log w;
        w_calls := w_calls w ++ [(audio, options)]; w_created := w_created w |}).

End Effects.

(** ** tts_processor.py *)

Module TTS.

(** The attributes of a [TTSProcessor]; the three [*_available] attributes
    exist only once the provider's check has passed. *)
Record TTSProcessor := {
  provider : pystr;
  voice : pystr;
  device : pystr;
  sample_rate : Z;
  channels : Z;
  bit_depth : Z;
  piper_available : option bool;
  espeak_available : option bool;
  system_available : option bool;
}.

Definition set_provider (p : pystr) (self : TTSProcessor) : TTSProcessor :=
  {| provider := p; voice := voice self; device := device self;
     sample_rate := sample_rate self; channels := channels self;
     bit_depth := bit_depth self; piper_available := piper_available self;
     espeak_available := espeak_available self;
     system_available := system_available self |}.

Definition set_piper_available (self : TTSProcessor) : TTSProcessor :=
  {| provider := provider self; voice := voice self; device := device self;
     sample_rate := sample_rate self; channels := channels self;
     bit_depth := bit_depth self; piper_available := Some true;
     espeak_available := espeak_available self;
     system_available := system_available self |}.

Definition set_espeak_available (self : TTSProcessor) : TTSProcessor :=
  {| provider := provider self; voice := voice self; device := device self;
     sample_rate := sample_rate self; channels := channels self;
     bit_depth := bit_depth self; piper_available := piper_available self;
     espeak_available := Some true;
     system_available := system_available self |}.

Definition set_system_available (self : TTSProcessor) : TTSProcessor :=
  {| provider := provider self; voice := voice self; device := device self;
     sample_rate := sample_rate self; channels := channels self;
     bit_depth := bit_depth self; piper_available := piper_available self;
     espeak_available := espeak_available self;
     system_available := Some true |}.

(** The dictionary that [synthesize] returns: the keys of the success path
    that the error path leaves out are optional, and so is ["error"]. *)
Record SynthesisResult := {
  res_audio_data : list byte;
  res_text : pystr;
  res_duration : Q;
  res_estimated_audio_duration : option Q;
  res_sample_rate : option Z;
  res_channels : option Z;
  res_format : option pystr;
  res_provider : pystr;
  res_voice : option pystr;
  res_text_length : option Z;
  res_word_count : option Z;
  res_error : option pystr;
}.

Section Methods.
Context {U : Unicode} (env : Env).

Definition unavailable : list exn_class := [TimeoutExpired; FileNotFoundError; RuntimeError].

(** [_initialize_system] *)
Definition _initialize_system (self : TTSProcessor) : M TTSProcessor :=
  try_except_in
    (result <- subprocess_run env [py "say"; py "--version"] None ;;
     if (returncode result =? 0)%Z then
       logger INFO "System TTS (macOS say) initialized successfully" ;;;
       ret (set_system_available self)
     else raise (Exn RuntimeError (py "System TTS not available")))
    unavailable
    (fun _ =>
       logger ERROR "No TTS providers available!" ;;;
       raise (Exn RuntimeError (py "No TTS providers available"))).

(** [_initialize_espeak] *)
Definition _initialize_espeak (self : TTSProcessor) : M TTSProcessor :=
  try_except_in
    (result <- subprocess_run env [py "espeak"; py "--version"] None ;;
     if (returncode result =? 0)%Z then
       logger INFO "eSpeak TTS initialized successfully" ;;;
       ret (set_espeak_available self)
     else raise (Exn RuntimeError (py "eSpeak TTS not working properly")))
    unavailable
    (fun _ =>
       logger WARNING "eSpeak TTS not available, falling back to system" ;;;
       _initialize_system (set_provider (py "system") self)).

(** [_initialize_piper] *)
Definition _initialize_piper (self : TTSProcessor) : M TTSProcessor :=
  try_except_in
    (result <- subprocess_run env [py "piper"; py "--help"] None ;;
     if (returncode result =? 0)%Z then
       logger INFO "Piper TTS initialized successfully" ;;;
       ret (set_piper_available self)
     else raise (Exn RuntimeError (py "Piper TTS not working properly")))
    unavailable
    (fun _ =>
       logger WARNING "Piper TTS not available, falling back to espeak" ;;;
       _initialize_espeak (set_provider (py "espeak") self)).

(** [_initialize_provider] *)
Definition _initialize_provider (self : TTSProcessor) : M TTSProcessor :=
  if pystr_eqb (provider self) (py "piper") then _initialize_piper self
  else if pystr_eqb (provider self) (py "espeak") then _initialize_espeak self
  else if pystr_eqb (provider self) (py "system") then _initialize_system self
  else raise (Exn ValueError (py "Unsupported TTS provider: " ++ provider self)).

(** [TTSProcessor.__init__] *)
Definition __init__ (provider voice device : pystr) : M TTSProcessor :=
  let self :=
    {| provider := provider; voice := voice; device := device;
       sample_rate := 22050; channels := 1; bit_depth := 16;
       piper_available := None; espeak_available := None;
       system_available := None |} in
  logger INFO "Initializing TTS with provider=, voice=" ;;;
  _initialize_provider self.

(** The abbreviations of [_prepare_text_for_swedish], in the order of the
    dictionary; U+00E5 is the a with ring of "och sa vidare". *)
Definition replacements : list (pystr * pystr) :=
  [ (py "kr", py "kronor");
    (py "st", py "stycken");
    (py "osv", py "och s" ++ [229%N] ++ py " vidare");
    (py "t.ex", py "till exempel");
    (py "ca", py "cirka") ].

(** [_prepare_text_for_swedish] *)
Definition _prepare_text_for_swedish (text : pystr) : pystr :=
  let text :=
    if negb (endswith text (py ".") || endswith text (py "!") || endswith text (py "?"))
    then text ++ py "." else text in
  fold_left
    (fun text '(abbr, full) =>
       let text := replace text (py " " ++ abbr ++ py " ") (py " " ++ full ++ py " ") in
       replace text (py " " ++ abbr ++ py ".") (py " " ++ full ++ py "."))
    replacements text.

(** [_synthesize_with_piper] *)
Definition _synthesize_with_piper (text output_format : pystr) : M (list byte) :=
  temp_path <- NamedTemporaryFile env (py "." ++ output_format) ;;
  try_finally
    (let cmd := [py "piper"; py "--model"; py "sv_SE-nst-medium";
                 py "--output_file"; temp_path] in
     process <- subprocess_run env cmd (Some text) ;;
     if negb (returncode process =? 0)%Z then
       raise (Exn RuntimeError (py "Piper TTS failed: " ++ stderr process))
     else
       audio_data <- read_file temp_path ;;
       ret audio_data)
    (unlink_if_exists temp_path).

(** [_synthesize_with_espeak] *)
Definition _synthesize_with_espeak (text output_format : pystr) : M (list byte) :=
  temp_path <- NamedTemporaryFile env (py "." ++ output_format) ;;
  try_finally
    (let cmd := [py "espeak"; py "-v"; py "sv"; py "-s"; py "160"; py "-p"; py "50";
                 py "-a"; py "100"; py "-w"; temp_path; text] in
     process <- subprocess_run env cmd None ;;
     if negb (returncode process =? 0)%Z then
       raise (Exn RuntimeError (py "eSpeak TTS failed: " ++ stderr process))
     else
       audio_data <- read_file temp_path ;;
       ret audio_data)
    (unlink_if_exists temp_path).

(** [_synthesize_with_system] *)
Definition _synthesize_with_system (text output_format : pystr) : M (list byte) :=
  temp_path <- NamedTemporaryFile env (py ".aiff") ;;
  try_finally
    (let cmd := [py "say"; py "-v"; py "Alva"; py "-o"; temp_path;
                 py "--data-format=LEI16@22050"; text] in
     process <- subprocess_run env cmd None ;;
     if negb (returncode process =? 0)%Z then
       raise (Exn RuntimeError (py "System TTS failed: " ++ stderr process))
     else
       audio_data <-
         (if pystr_eqb output_format (py "wav") then
            let wav_path := replace temp_path (py ".aiff") (py ".wav") in
            try_except
              (_ <- subprocess_run env
                      [py "ffmpeg"; py "-i"; temp_path; py "-y"; wav_path] None ;;
               audio_data <- read_file wav_path ;;
               os_unlink wav_path ;;;
               ret audio_data)
              (fun _ => read_file temp_path)
          else read_file temp_path) ;;
       ret audio_data)
    (unlink_if_exists temp_path).

(** [synthesize] *)
Definition synthesize (self : TTSProcessor) (text output_format : pystr)
  : M SynthesisResult :=
  start_time <- time_time env ;;
  try_except
    ((if match text with [] => true | _ => false end
         || match strip text with [] => true | _ => false end
      then raise (Exn ValueError (py "Text is empty")) else ret tt) ;;;
     let cleaned_text := _prepare_text_for_swedish (strip text) in
     audio_data <-
       (if pystr_eqb (provider self) (py "piper") then
          _synthesize_with_piper cleaned_text output_format
        else if pystr_eqb (provider self) (py "espeak") then
          _synthesize_with_espeak cleaned_text output_format
        else if pystr_eqb (provider self) (py "system") then
          _synthesize_with_system cleaned_text output_format
        else raise (Exn ValueError (py "Unknown provider: " ++ provider self))) ;;
     now <- time_time env ;;
     let processing_duration := (now - start_time)%Q in
     let word_count := len (split cleaned_text) in
     let estimated_duration := (inject_Z word_count / (45 # 10))%Q in
     let result :=
       {| res_audio_data := audio_data;
          res_text := cleaned_text;
          res_duration := processing_duration;
          res_estimated_audio_duration := Some estimated_duration;
          res_sample_rate := Some (sample_rate self);
          res_channels := Some (channels self);
          res_format := Some output_format;
          res_provider := provider self;
          res_voice := Some (voice self);
          res_text_length := Some (len cleaned_text);
          res_word_count := Some word_count;
          res_error := None |} in
     logger INFO "TTS synthesis completed" ;;;
     ret result)
    (fun e =>
       logger ERROR "TTS synthesis failed" ;;;
       now <- time_time env ;;
       ret {| res_audio_data := [];
              res_text := text;
              res_duration := (now - start_time)%Q;
              res_estimated_audio_duration := None;
              res_sample_rate := None;
              res_channels := None;
              res_format := None;
              res_provider := provider self;
              res_voice := None;
              res_text_length := None;
              res_word_count := None;
              res_error := Some (exn_str e) |}).

(** The dictionary that [get_status] returns. *)
Record Status := {
  status_available : bool;
  status_provider : pystr;
  status_voice : pystr;
  status_sample_rate : Z;
  status_channels : Z;
  status_supported_formats : list pystr;
  status_version : pystr;
}.

(** [get_status] *)
Definition get_status (self : TTSProcessor) : Status :=
  {| status_available := true;
     status_provider := provider self;
     status_voice := voice self;
     status_sample_rate := sample_rate self;
     status_channels := channels self;
     status_supported_formats := [py "wav"; py "mp3"];
     status_version := py "1.0.0" |}.


End Methods.
End TTS.

(** ** whisperx_processor.py *)

Module WhisperX.

(** A value held by an attribute. *)
Inductive pyval :=
  | VStr (s : pystr)
  | VInt (n : Z)
  | VFloat (q : Q)
  | VDict (d : list (pystr * pystr))
  | VObject.

(** The attributes that [__init__] assigns. *)
Record WhisperXProcessor := {
  model_size : pystr;
  default_language : pystr;
  supported_languages : list (pystr * pystr);
  device : pystr;
  target_sample_rate : Z;
  min_duration : Q;
  max_duration : Q;
}.

(** The instance dictionary: the attributes above by name, and [model].
    The class has no attribute of its own besides its methods and no
    [__getattr__]. *)
Definition instance_dict (self : WhisperXProcessor) : list (string * pyval) :=
  [ ("model_size"%string, VStr (model_size self));
    ("default_language"%string, VStr (default_language self));
    ("supported_languages"%string, VDict (supported_languages self));
    ("device"%string, VStr (device self));
    ("model"%string, VObject);
    ("target_sample_rate"%string, VInt (target_sample_rate self));
    ("min_duration"%string, VFloat (min_duration self));
    ("max_duration"%string, VFloat (max_duration self)) ].

(** [self.name] for a name that is looked up in the instance dictionary. *)
Definition getattr (self : WhisperXProcessor) (name : string) : M pyval :=
  match List.find (fun kv => String.eqb (fst kv) name) (instance_dict self) with
  | Some kv => ret (snd kv)
  | None =>
      raise (Exn AttributeError
               (py "'WhisperXProcessor' object has no attribute '" ++ py name ++ py "'"))
  end.

Record LangScore := { language : pystr; confidence : Q }.

(** The dictionary that [detect_language] returns. *)
Record DetectionResult := {
  det_detected_language : pystr;
  det_language_confidence : Q;
  det_all_languages : list LangScore;
  det_supported_languages : list pystr;
  det_detection_duration : Q;
  det_audio_duration : option Q;
  det_error : option pystr;
}.

(** The dictionary that [transcribe_buffer] returns. *)
Record TranscriptionResult := {
  tr_text : pystr;
  tr_language : pyval;
  tr_confidence : Q;
  tr_quality_score : Q;
  tr_duration : Q;
  tr_audio_duration : option Q;
  tr_detected_language_probability : option Q;
  tr_model_used : pystr;
  tr_segments_count : option Z;
  tr_error : option pystr;
}.

Definition vad_parameters : list (string * Z) :=
  [ ("min_silence_duration_ms"%string, 500%Z);
    ("min_speech_duration_ms"%string, 250%Z) ].

(** [a / b] of Python: on two integers, and with a float operand. *)
Definition int_div (a b : Z) : M Q :=
  if (b =? 0)%Z then raise (Exn ZeroDivisionError (py "division by zero"))
  else ret (inject_Z a / inject_Z b)%Q.

Definition float_div (a b : Q) : M Q :=
  if Qeq_bool b 0 then raise (Exn ZeroDivisionError (py "float division by zero"))
  else ret (a / b)%Q.

Definition of_result {A} (r : result A) : M A := fun w => (r, w).

Definition np_sum (a : list Q) : Q := fold_left Qplus a 0%Q.

(** [np.mean(a)]; on an empty array NumPy gives nan with a warning, and the
    value is then subtracted from no sample. *)
Definition np_mean (a : list Q) : Q := (np_sum a / inject_Z (len a))%Q.

(** [np.max(a)]: raises on an empty array. *)
Definition np_max (a : list Q) : M Q :=
  match a with
  | [] =>
      raise (Exn ValueError
        (py "zero-size array to reduction operation maximum which has no identity"))
  | x :: a' => ret (fold_left (fun m y => if Qltb m y then y else m) a' x)
  end.

(** [sort(key=lambda x: x['confidence'], reverse=True)]: the stable sort of
    Python, by insertion; an entry goes before the entries that followed it
    and have the same confidence. *)
Fixpoint insert_desc (x : LangScore) (l : list LangScore) : list LangScore :=
  match l with
  | [] => [x]
  | y :: l' =>
      if Qltb (confidence x) (confidence y) then y :: insert_desc x l'
      else x :: l
  end.

Definition sort_by_confidence_desc (l : list LangScore) : list LangScore :=
  fold_right insert_desc [] l.

(** U+00E4, U+00E5 and U+00F6 are the three letters outside ASCII. *)
Definition swedish_indicators : list pystr :=
  [ [228%N; 114%N]; py "och"; py "att"; py "jag"; py "det"; py "som"; py "en";
    [112%N; 229%N]; py "med"; [102%N; 246%N; 114%N] ].

Section Methods.
Context {U : Unicode} (env : Env).

(** [__init__] *)
Definition __init__ (model_size language device : pystr) : M WhisperXProcessor :=
  let device :=
    if pystr_eqb device (py "auto")
    then (if cuda_is_available env then py "cuda" else py "cpu")
    else device in
  logger INFO "Initializing WhisperX with model=, language=, device=" ;;;
  (fun w =>
     match WhisperModel env model_size device
             (if pystr_eqb device (py "cuda") then py "float16" else py "int8") with
     | None => (Return tt, w)
     | Some e => (Raise e, w)
     end) ;;;
  logger INFO "WhisperX processor initialized successfully" ;;;
  ret {| model_size := model_size;
         default_language := language;
         supported_languages :=
           [ (py "sv", py "Swedish"); (py "en", py "English");
             (py "da", py "Danish"); (py "no", py "Norwegian");
             (py "fi", py "Finnish"); (py "de", py "German");
             (py "fr", py "French"); (py "es", py "Spanish");
             (py "it", py "Italian"); (py "nl", py "Dutch") ];
         device := device;
         target_sample_rate := 16000;
         min_duration := 1 # 2;
         max_duration := 120 |}.

(** [_normalize_audio] *)
Definition _normalize_audio (self : WhisperXProcessor) (audio_array : list Q)
  : M (list Q) :=
  (* Remove DC bias *)
  let mean := np_mean audio_array in
  let audio_array := map (fun x => x - mean)%Q audio_array in
  (* Normalize to [-1, 1] range *)
  max_val <- np_max (map Qabs audio_array) ;;
  let audio_array :=
    if Qltb 0 max_val then map (fun x => x / max_val)%Q audio_array
    else audio_array in
  (* 80 Hz high-pass filter, skipped when it fails *)
  audio_array <-
    try_except (of_result (sosfilt env (target_sample_rate self) audio_array))
               (fun _ => ret audio_array) ;;
  ret audio_array.

(** [_preprocess_audio]: [librosa.load] is asked for [target_sample_rate],
    and answers with the samples and that rate. *)
Definition _preprocess_audio (self : WhisperXProcessor) (audio_path : pystr)
    (max_duration : option Q) : M (list Q) :=
  try_except
    (audio_array <-
       (fun w => (librosa_load env audio_path (target_sample_rate self) (w_files w), w)) ;;
     let sample_rate := target_sample_rate self in
     (* Validate duration *)
     duration <- int_div (len audio_array) sample_rate ;;
     let max_dur :=
       match max_duration with
       | Some d => if Qeq_bool d 0 then WhisperX.max_duration self else d
       | None => WhisperX.max_duration self
       end in
     audio_array <-
       (if Qltb duration (min_duration self) then
          logger WARNING "Audio duration is below minimum" ;;;
          ret audio_array
        else if Qltb max_dur duration then
          logger WARNING "Audio duration exceeds maximum, truncating" ;;;
          let max_samples := py_int (max_dur * inject_Z sample_rate) in
          ret (slice_to audio_array max_samples)
        else ret audio_array) ;;
     (* Apply noise reduction and normalization *)
     audio_array <- _normalize_audio self audio_array ;;
     ret audio_array)
    (fun e =>
       logger ERROR "Audio preprocessing failed" ;;;
       raise e).

(** [_clean_transcription] *)
Definition _clean_transcription (text : pystr) : pystr :=
  match text with
  | [] => []
  | _ :: _ =>
      (* Remove extra whitespace *)
      let text := join [SPACE] (split text) in
      (* Capitalize first letter *)
      let text := strip text in
      let text :=
        match text with
        | c :: rest => if negb (isupper c) then upper c ++ rest else text
        | [] => text
        end in
      (* Ensure proper sentence ending *)
      let text :=
        match last text with
        | Some c => if negb (contains (py ".!?") [c]) then text ++ py "." else text
        | None => text
        end in
      text
  end.

(** The shape of a cleaned text: words joined by single spaces, a first
    character that is a capital or that [upper] leaves as it is, and the
    end of a sentence as last character. *)
Definition cleaned (t : pystr) : Prop :=
  exists W c r e,
    Forall word W /\ t = join [SPACE] W /\ t = c :: r /\ isspace c = false /\
    (isupper c = true \/ upper c = [c]) /\
    last t = Some e /\ sentence_end e.

(** [_assess_transcription_quality] *)
Definition _assess_transcription_quality (text : pystr) (confidence : Q)
    (audio_size : Z) : Q :=
  match text with
  | [] => 0
  | _ :: _ =>
      let quality_score := confidence in
      (* Adjust for text length appropriateness *)
      let word_count := len (split text) in
      (* Penalize very short transcriptions from large audio files *)
      let expected_words := Z.max 1 (audio_size / 10000) in
      let quality_score :=
        if Qltb (inject_Z word_count) (inject_Z expected_words * (3 # 10))
        then (quality_score * (7 # 10))%Q else quality_score in
      (* Bonus for reasonable length *)
      let quality_score :=
        if (5 <=? word_count)%Z && (word_count <=? 100)%Z
        then (quality_score * (11 # 10))%Q else quality_score in
      (* Check for Swedish characteristics *)
      let swedish_count :=
        len (List.filter (fun word => contains (lower text) word) swedish_indicators) in
      let quality_score :=
        if (0 <? swedish_count)%Z
        then (quality_score * (1 + inject_Z swedish_count * (2 # 100)))%Q
        else quality_score in
      py_min 1 quality_score
  end.

(** The confidence that the specification gives to a language of the list:
    the probability [p] for the detected language, and max(0.1, (1 - p) /
    (n - 1)) for every other one. *)
Definition score_spec (detected : pystr) (p : Q) (n : Z) (lang : pystr) : Q :=
  if pystr_eqb lang detected then p
  else py_max (1 # 10) ((1 - p) / inject_Z (n - 1))%Q.

(** Non-increasing confidence. *)
Definition confidence_ge (a b : LangScore) : Prop := (confidence b <= confidence a)%Q.

(** The quality score in the words of the specification: the confidence
    times a penalty of 0.7 when the word count is below 30% of the expected
    word count, times a bonus of 1.1 for 5 to 100 words, times 1 + 0.02 for
    each Swedish indicator that occurs in the lowered text, capped at 1; and
    0 for an empty text. *)
Definition words_of (text : pystr) : Z := len (split text).

Definition expected_words_of (audio_size : Z) : Z := Z.max 1 (audio_size / 10000).

Definition matched_indicators (text : pystr) : Z :=
  len (List.filter (fun word => contains (lower text) word) swedish_indicators).

Definition quality_spec (text : pystr) (confidence : Q) (audio_size : Z) : Q :=
  match text with
  | [] => 0%Q
  | _ :: _ =>
      let penalty : Q :=
        if (10 * words_of text <? 3 * expected_words_of audio_size)%Z
        then 7 # 10 else 1%Q in
      let bonus : Q :=
        if (5 <=? words_of text)%Z && (words_of text <=? 100)%Z
        then 11 # 10 else 1%Q in
      let swedish : Q := (1 + (2 # 100) * inject_Z (matched_indicators text))%Q in
      Qmin 1 (confidence * penalty * bonus * swedish)%Q
  end.

(** The loop of [detect_language] that fills [all_languages]. *)
Fixpoint score_languages (detection_languages : list pystr) (n : Z)
    (detected_language : pystr) (language_probability : Q)
    (all_languages : list LangScore) : M (list LangScore) :=
  match detection_languages with
  | [] => ret all_languages
  | lang :: rest =>
      if pystr_eqb lang detected_language then
        score_languages rest n detected_language language_probability
          (all_languages ++ [{| language := lang; confidence := language_probability |}])
      else
        (* Assign lower confidence to other languages *)
        q <- float_div (1 - language_probability) (inject_Z (n - 1)) ;;
        let confidence := py_max (1 # 10) q in
        score_languages rest n detected_language language_probability
          (all_languages ++ [{| language := lang; confidence := confidence |}])
  end.

(** The value of [detection_languages] in [detect_language]: the requested
    languages that are keys of [self.supported_languages], or all the keys
    when no (or an empty) list is given. *)
Definition detection_languages_of (self : WhisperXProcessor)
    (supported_languages : option (list pystr)) : list pystr :=
  let keys := map fst (WhisperX.supported_languages self) in
  match supported_languages with
  | Some ((_ :: _) as langs) =>
      List.filter (fun lang => existsb (pystr_eqb lang) keys) langs
  | _ => keys
  end.

(** The keyword arguments of the two calls of [self.model.transcribe]. *)
Definition detection_options : TranscribeOptions :=
  {| opt_language := None;
     opt_beam_size := 1;
     opt_best_of := 1;
     opt_temperature := 0;
     opt_condition_on_previous_text := false;
     opt_vad_filter := true;
     opt_vad_parameters := vad_parameters |}.

Definition transcription_options (language_to_use : pystr) : TranscribeOptions :=
  {| opt_language := Some language_to_use;
     opt_beam_size := 5;
     opt_best_of := 5;
     opt_temperature := 0;
     opt_condition_on_previous_text := false;
     opt_vad_filter := true;
     opt_vad_parameters := vad_parameters |}.

Definition too_small (audio_buffer : list byte) : bool :=
  match audio_buffer with [] => true | _ => false end || (len audio_buffer <? 1024)%Z.

(** [detect_language] *)
Definition detect_language (self : WhisperXProcessor) (audio_buffer : list byte)
    (audio_format : pystr) (supported_languages : option (list pystr))
  : M DetectionResult :=
  start_time <- time_time env ;;
  let keys := map fst (WhisperX.supported_languages self) in
  (* Filter supported languages; the name is bound once the buffer has
     passed the validation *)
  let detection_languages := detection_languages_of self supported_languages in
  try_except
    ((if too_small audio_buffer
      then raise (Exn ValueError (py "Audio buffer is empty or too small"))
      else ret tt) ;;;
     (* Create temporary file for processing *)
     temp_path <- NamedTemporaryFile env (py "." ++ audio_format) ;;
     write_close env temp_path audio_buffer ;;;
     try_finally
       ((* Preprocess audio (shorter sample for language detection) *)
        audio_array <- _preprocess_audio self temp_path (Some 10%Q) ;;
        x <- model_transcribe env audio_array detection_options ;;
        let info := snd x in
        (* Extract detected language information *)
        let detected_language :=
          match info_language info with
          | Some l => l
          | None => default_language self
          end in
        let language_probability :=
          match info_language_probability info with
          | Some p => p
          | None => 1 # 2
          end in
        (* Validate detected language is in our supported set *)
        let unsupported :=
          negb (existsb (pystr_eqb detected_language) detection_languages) in
        (if unsupported
         then logger WARNING "Detected language not in supported languages, using default"
         else ret tt) ;;;
        let detected_language :=
          if unsupported then default_language self else detected_language in
        let language_probability :=
          if unsupported then 1 # 2 else language_probability in
        (* Create alternative language scores (simplified) *)
        all_languages <-
          score_languages detection_languages (len detection_languages)
            detected_language language_probability [] ;;
        (* Sort by confidence *)
        let all_languages := sort_by_confidence_desc all_languages in
        now <- time_time env ;;
        let processing_duration := (now - start_time)%Q in
        audio_duration <-
          int_div (len audio_array) (target_sample_rate self) ;;
        let result :=
          {| det_detected_language := detected_language;
             det_language_confidence := language_probability;
             det_all_languages := all_languages;
             det_supported_languages := detection_languages;
             det_detection_duration := processing_duration;
             det_audio_duration := Some audio_duration;
             det_error := None |} in
        logger INFO "Language detection completed" ;;;
        ret result)
       ((* Clean up temporary file *)
        unlink_if_exists temp_path))
    (fun e =>
       logger ERROR "Language detection failed" ;;;
       now <- time_time env ;;
       ret {| det_detected_language := default_language self;
              det_language_confidence := 1 # 2;
              det_all_languages :=
                [{| language := default_language self; confidence := 1 # 2 |}];
              det_supported_languages :=
                (* 'detection_languages' in locals() *)
                if negb (too_small audio_buffer) then detection_languages else keys;
              det_detection_duration := (now - start_time)%Q;
              det_audio_duration := None;
              det_error := Some (exn_str e) |}).

(** [transcribe_buffer] *)
Definition transcribe_buffer (self : WhisperXProcessor) (audio_buffer : list byte)
    (audio_format : pystr) (target_language : option pystr)
  : M TranscriptionResult :=
  start_time <- time_time env ;;
  let language_to_use :=
    match target_language with
    | Some ((_ :: _) as l) => l
    | _ => default_language self
    end in
  try_except
    ((if too_small audio_buffer
      then raise (Exn ValueError (py "Audio buffer is empty or too small"))
      else ret tt) ;;;
     (* Create temporary file for processing *)
     temp_path <- NamedTemporaryFile env (py "." ++ audio_format) ;;
     write_close env temp_path audio_buffer ;;;
     try_finally
       ((* Preprocess audio *)
        audio_array <- _preprocess_audio self temp_path None ;;
        (* Perform transcription with specified language *)
        x <- model_transcribe env audio_array (transcription_options language_to_use) ;;
        let info := snd x in
        (* Extract transcription text *)
        segments <- of_result (fst x) ;;
        let '(transcription_text, total_confidence, segment_count) :=
          fold_left
            (fun '(transcription_text, total_confidence, segment_count) segment =>
               let transcription_text := transcription_text ++ seg_text segment in
               match avg_logprob segment with
               | Some lp =>
                   (* Convert log probability to confidence score *)
                   let confidence := py_min 1 (py_max 0 (np_exp env lp)) in
                   (transcription_text, (total_confidence + confidence)%Q,
                    (segment_count + 1)%Z)
               | None => (transcription_text, total_confidence, segment_count)
               end)
            segments ([], 0%Q, 0%Z) in
        (* Calculate average confidence *)
        let avg_confidence :=
          if (0 <? segment_count)%Z
          then (total_confidence / inject_Z segment_count)%Q else 0%Q in
        (* Clean up transcription *)
        let transcription_text := _clean_transcription transcription_text in
        (* Validate transcription quality *)
        let quality_score :=
          _assess_transcription_quality transcription_text avg_confidence
            (len audio_buffer) in
        now <- time_time env ;;
        let processing_duration := (now - start_time)%Q in
        language <-
          match info_language info with
          | Some l => ret (VStr l)
          | None => getattr self "language"
          end ;;
        audio_duration <-
          int_div (len audio_array) (target_sample_rate self) ;;
        let result :=
          {| tr_text := transcription_text;
             tr_language := language;
             tr_confidence := avg_confidence;
             tr_quality_score := quality_score;
             tr_duration := processing_duration;
             tr_audio_duration := Some audio_duration;
             tr_detected_language_probability :=
               Some match info_language_probability info with
                    | Some p => p
                    | None => 1%Q
                    end;
             tr_model_used := model_size self;
             tr_segments_count := Some segment_count;
             tr_error := None |} in
        logger INFO "Transcription completed" ;;;
        ret result)
       ((* Clean up temporary file *)
        unlink_if_exists temp_path))
    (fun e =>
       logger ERROR "Transcription failed" ;;;
       language <- getattr self "language" ;;
       now <- time_time env ;;
       ret {| tr_text := [];
              tr_language := language;
              tr_confidence := 0;
              tr_quality_score := 0;
              tr_duration := (now - start_time)%Q;
              tr_audio_duration := None;
              tr_detected_language_probability := None;
              tr_model_used := model_size self;
              tr_segments_count := None;
              tr_error := Some (exn_str e) |}).

(** The dictionary that [get_status] returns. *)
Record Status := {
  status_available : bool;
  status_model_size : pystr;
  status_default_language : pystr;
  status_supported_languages : list pystr;
  status_language_names : list (pystr * pystr);
  status_device : pystr;
  status_cuda_available : bool;
  status_target_sample_rate : Z;
  status_language_detection_enabled : bool;
  status_version : pystr;
}.

(** [get_status] *)
Definition get_status (self : WhisperXProcessor) : Status :=
  {| status_available := true;
     status_model_size := model_size self;
     status_default_language := default_language self;
     status_supported_languages := map fst (supported_languages self);
     status_language_names := supported_languages self;
     status_device := device self;
     status_cuda_available := cuda_is_available env;
     status_target_sample_rate := target_sample_rate self;
     status_language_detection_enabled := true;
     status_version := py "2.0.0" |}.


End Methods.
End WhisperX.

(** ** A concrete table of characters

    [Latin] follows CPython for the code points below U+0180 (Basic Latin,
    Latin-1 Supplement, Latin Extended-A); U+039C is the capital of the micro
    sign.  Every other code point is taken as a character without case that
    is not whitespace. *)

Definition in_range (c lo hi : N) : bool := ((lo <=? c) && (c <=? hi))%N.

Definition latin_isspace (c : codepoint) : bool :=
  in_range c 9 13 || in_range c 28 32 || (c =? 133)%N || (c =? 160)%N.

Definition latin_isupper (c : codepoint) : bool :=
  in_range c 65 90 || in_range c 192 214 || in_range c 216 222
  || (in_range c 256 311 && N.even c) || (in_range c 313 328 && N.odd c)
  || (in_range c 330 375 && N.even c) || (c =? 376)%N
  || (in_range c 377 382 && N.odd c) || (c =? 924)%N.

Definition latin_islower (c : codepoint) : bool :=
  in_range c 97 122 || (c =? 170)%N || (c =? 181)%N || (c =? 186)%N
  || in_range c 223 246 || in_range c 248 255
  || (in_range c 256 311 && N.odd c) || (c =? 312)%N
  || (in_range c 313 328 && N.even c) || (c =? 329)%N
  || (in_range c 330 375 && N.odd c)
  || (in_range c 377 382 && N.even c) || (c =? 383)%N.

Definition latin_upper (c : codepoint) : pystr :=
  if in_range c 97 122 then [(c - 32)%N]
  else if (c =? 181)%N then [924%N]
  else if (c =? 223)%N then [83%N; 83%N]
  else if in_range c 224 246 || in_range c 248 254 then [(c - 32)%N]
  else if (c =? 255)%N then [376%N]
  else if (c =? 305)%N then [73%N]
  else if (c =? 329)%N then [700%N; 78%N]
  else if (c =? 383)%N then [83%N]
  else if (in_range c 256 311 && N.odd c) || (in_range c 313 328 && N.even c)
          || (in_range c 330 375 && N.odd c) || (in_range c 377 382 && N.even c)
       then [(c - 1)%N]
  else [c].

Definition latin_lower1 (c : codepoint) : pystr :=
  if in_range c 65 90 || in_range c 192 214 || in_range c 216 222 then [(c + 32)%N]
  else if (c =? 304)%N then [105%N; 775%N]
  else if (c =? 376)%N then [255%N]
  else if (in_range c 256 311 && N.even c) || (in_range c 313 328 && N.odd c)
          || (in_range c 330 375 && N.even c) || (in_range c 377 382 && N.odd c)
       then [(c + 1)%N]
  else [c].

#[export] Instance Latin : Unicode := {
  isspace := latin_isspace;
  isupper := latin_isupper;
  islower := latin_islower;
  upper := latin_upper;
  lower := flat_map latin_lower1;
}.

(** The two laws on [upper] as one test on a code point. *)
Definition latin_law (c : codepoint) : bool :=
  (latin_isspace c || forallb (fun d => negb (latin_isspace d)) (latin_upper c))
  && (latin_isupper c
      || match latin_upper c with
         | d :: _ => latin_isupper d || bool_decide (latin_upper d = [d])
         | [] => false
         end).

(** ** Relations between the world before and after a method *)

(** [m] takes every world to one that is [R]-related to it. *)
Definition keeps (R : World -> World -> Prop) {A} (m : M A) : Prop :=
  forall w, R w (snd (m w)).

(** A call of the model that passes the VAD options. *)
Definition uses_vad (call : list Q * TranscribeOptions) : Prop :=
  opt_vad_filter (snd call) = true
  /\ opt_vad_parameters (snd call)
     = [ ("min_silence_duration_ms"%string, 500%Z);
         ("min_speech_duration_ms"%string, 250%Z) ].

(** The calls of the model made between [w] and [w'] all pass them. *)
Definition calls_extended (w w' : World) : Prop :=
  exists calls, w_calls w' = w_calls w ++ calls /\ Forall uses_vad calls.

(** The list of created temporary files is the same. *)
Definition same_created (w w' : World) : Prop := w_created w' = w_created w.

(** Neither the files nor the list of created temporary files changed. *)
Definition unchanged (w w' : World) : Prop :=
  w_files w' = w_files w /\ w_created w' = w_created w.

(** The temporary files created between [w] and [w'] are gone in [w']. *)
Definition temps_removed (w w' : World) : Prop :=
  exists new,
    w_created w' = w_created w ++ new
    /\ Forall (fun p => w_files w' !! p = None) new.

(** ** What it means for a binary to be available

    The outcome of the provider's check ([--help] or [--version]): the
    binary is unavailable when it is missing, runs into the timeout or ends
    with an exit code other than 0, and available when it ends with 0. *)



(** ** A simulated environment

    [sim s] is an environment for the concrete runs below: the programs of
    [installed s] exist and succeed, every other program is missing;
    [librosa.load] reads one sample from each byte; the model answers with
    one segment and [model_info s]. *)

Record Setup := {
  installed : list pystr;
  disk_full : bool;       (* writing to a temporary file fails *)
  ffmpeg_hangs : bool;    (* ffmpeg starts its output and runs into the timeout *)
  model_info : TranscriptionInfo;
}.

(** The argument that follows the option [flag] on a command line. *)
Fixpoint argument_after (flag : pystr) (cmd : list pystr) : option pystr :=
  match cmd with
  | [] => None
  | a :: cmd' =>
      if pystr_eqb a flag then head cmd' else argument_after flag cmd'
  end.

Definition output_of (cmd : list pystr) : option pystr :=
  match argument_after (py "--output_file") cmd with
  | Some p => Some p
  | None =>
      match argument_after (py "-w") cmd with
      | Some p => Some p
      | None => argument_after (py "-o") cmd
      end
  end.

Definition speech : list byte := [x52; x49; x46; x46].

Definition completed (rc : Z) : CompletedProcess :=
  {| returncode := rc; stdout := []; stderr := [] |}.

Definition sim_run (s : Setup) (cmd : list pystr) (stdin : option pystr)
    (fs : gmap pystr (list byte)) : result CompletedProcess * gmap pystr (list byte) :=
  match cmd with
  | [] => (Raise (Exn FileNotFoundError (py "No such file or directory")), fs)
  | prog :: _ =>
      if negb (existsb (pystr_eqb prog) (installed s)) then
        (Raise (Exn FileNotFoundError (py "No such file or directory")), fs)
      else if pystr_eqb prog (py "ffmpeg") then
        match cmd with
        | [_; _; src; _; dst] =>
            if ffmpeg_hangs s then
              (Raise (Exn TimeoutExpired (py "timed out after 10 seconds")),
               <[dst := [x52]]> fs)
            else
              match fs !! src with
              | Some data => (Return (completed 0), <[dst := data]> fs)
              | None => (Return (completed 1), fs)
              end
        | _ => (Return (completed 1), fs)
        end
      else
        match output_of cmd with
        | Some p => (Return (completed 0), <[p := speech]> fs)
        | None => (Return (completed 0), fs)
        end
  end.

Definition sim (s : Setup) : Env := {|
  run := sim_run s;
  mkstemp := fun suffix _ => Return (py "/tmp/tmp0" ++ suffix);
  write_error := fun _ _ _ =>
    if disk_full s then Some (Exn OSError (py "No space left on device")) else None;
  time_at := fun n => inject_Z (Z.of_nat n);
  librosa_load := fun path _ fs =>
    match fs !! path with
    | Some data => Return (map (fun b => inject_Z (Z.of_N (Byte.to_N b))) data)
    | None => Raise (Exn FileNotFoundError (py "No such file or directory"))
    end;
  sosfilt := fun _ x => Return x;
  np_exp := fun _ => 1%Q;
  cuda_is_available := false;
  WhisperModel := fun _ _ _ => None;
  transcribe := fun _ _ =>
    Return (Return [{| seg_text := py " hej"; avg_logprob := Some 0%Q |}], model_info s);
|}.

Definition swedish_info : TranscriptionInfo :=
  {| info_language := Some (py "sv"); info_language_probability := Some (9 # 10) |}.

(** A model that hears French, a language outside the lists requested in
    the runs below. *)
Definition french_info : TranscriptionInfo :=
  {| info_language := Some (py "fr"); info_language_probability := Some (9 # 10) |}.

Definition french_setup : Setup :=
  {| installed := []; disk_full := false; ffmpeg_hangs := false;
     model_info := french_info |}.

Definition setup (progs : list pystr) : Setup :=
  {| installed := progs; disk_full := false; ffmpeg_hangs := false;
     model_info := swedish_info |}.

Definition empty_world : World :=
  {| w_files := ∅; w_ticks := 0; w_log := []; w_calls := []; w_created := [] |}.

(** A buffer of 2048 bytes. *)
Definition silence : list byte := repeat x00 2048.

(** The processors of the concrete runs. *)
Definition studio_processor : WhisperX.WhisperXProcessor :=
  {| WhisperX.model_size := py "base";
     WhisperX.default_language := py "sv";
     WhisperX.supported_languages :=
       [ (py "sv", py "Swedish"); (py "en", py "English");
         (py "da", py "Danish"); (py "no", py "Norwegian");
         (py "fi", py "Finnish"); (py "de", py "German");
         (py "fr", py "French"); (py "es", py "Spanish");
         (py "it", py "Italian"); (py "nl", py "Dutch") ];
     WhisperX.device := py "cpu";
     WhisperX.target_sample_rate := 16000;
     WhisperX.min_duration := 1 # 2;
     WhisperX.max_duration := 120 |}.

Definition speaker (provider : pystr) : TTS.TTSProcessor :=
  {| TTS.provider := provider; TTS.voice := py "swedish_female";
     TTS.device := py "auto"; TTS.sample_rate := 22050; TTS.channels := 1;
     TTS.bit_depth := 16; TTS.piper_available := None;
     TTS.espeak_available := None; TTS.system_available := None |}.

(** A world whose only file, [path], holds [data]. *)
Definition world_with (path : pystr) (data : list byte) : World :=
  {| w_files := {[ path := data ]}; w_ticks := 0; w_log := []; w_calls := [];
     w_created := [] |}.

(** ** What a method returns and what it raises *)

(** Every value that [m] returns satisfies [P]. *)
Definition returns {A} (P : A -> Prop) (m : M A) : Prop :=
  forall w a w', m w = (Return a, w') -> P a.

(** Every exception that [m] raises satisfies [C]. *)
Definition raises {A} (C : exn -> Prop) (m : M A) : Prop :=
  forall w e w', m w = (Raise e, w') -> C e.

(** [m] raises nothing. *)
Definition never_raises {A} (m : M A) : Prop := raises (fun _ => False) m.

(** [p] is one of the three providers. *)
Definition known_provider (p : pystr) : Prop :=
  p = py "piper" \/ p = py "espeak" \/ p = py "system".

(** The exception of [self.language] in [transcribe_buffer]. *)
Definition no_language_attribute : exn :=
  Exn AttributeError (py "'WhisperXProcessor' object has no attribute 'language'").

(** Between [w] and [w'] the clock was not read and the model was not
    called; [quiet] says in addition that nothing was logged. *)
Definition steady (w w' : World) : Prop :=
  w_ticks w' = w_ticks w /\ w_calls w' = w_calls w.

Definition quiet (w w' : World) : Prop :=
  w_ticks w' = w_ticks w /\ w_calls w' = w_calls w /\ w_log w' = w_log w.

(** [e] was raised by a program that [subprocess.run] started (or could
    not start). *)
Definition raised_by_run (env : Env) (e : exn) : Prop :=
  exists cmd stdin fs fs', run env cmd stdin fs = (Raise e, fs').

(** The exceptions that the construction of a [TTSProcessor] can raise. *)
Definition construction_error (env : Env) (provider : pystr) (e : exn) : Prop :=
  (~ known_provider provider
   /\ e = Exn ValueError (py "Unsupported TTS provider: " ++ provider))
  \/ e = Exn RuntimeError (py "No TTS providers available")
  \/ (raised_by_run env e
      /\ existsb (issubclass (exn_cls e)) TTS.unavailable = false).


(** * Properties *)

(** ** The monad *)

Lemma bind_ret {A B} (a : A) (k : A -> M B) w : bind (ret a) k w = k a w.
Proof. reflexivity. Qed.

Lemma bind_raise {A B} (e : exn) (k : A -> M B) w : bind (raise e) k w = (Raise e, w).
Proof. reflexivity. Qed.

(** A method that returns a value went through each of its steps. *)

Lemma bind_inv {A B} (m : M A) (k : A -> M B) w b w' :
  bind m k w = (Return b, w') ->
  exists a w1, m w = (Return a, w1) /\ k a w1 = (Return b, w').
Proof.
  unfold bind. destruct (m w) as [[a|e] w1]; [eauto|discriminate].
Qed.

Lemma try_except_inv {A} (m : M A) (h : exn -> M A) w a w' :
  try_except m h w = (Return a, w') ->
  m w = (Return a, w')
  \/ exists e w1, m w = (Raise e, w1) /\ h e w1 = (Return a, w').
Proof.
  unfold try_except. destruct (m w) as [[x|e] w1]; intros H; [left; exact H|right; eauto].
Qed.

Lemma try_finally_inv {A} (m : M A) (fin : M unit) w a w' :
  try_finally m fin w = (Return a, w') ->
  exists w1, m w = (Return a, w1) /\ fin w1 = (Return tt, w').
Proof.
  unfold try_finally. destruct (m w) as [r w1].
  destruct (fin w1) as [[[]|e] w2] eqn:Hf; intros H; [|discriminate].
  injection H as -> ->. eauto.
Qed.

Ltac inv_bind H :=
  let a := fresh "a" in let w := fresh "w" in let Ha := fresh "Ha" in
  apply bind_inv in H as (a & w & Ha & H).

(** ** Strings: equality *)

Lemma pystr_eqb_eq (a b : pystr) : pystr_eqb a b = true <-> a = b.
Proof.
  revert b. induction a as [|x a IH]; intros [|y b]; cbn; try easy.
  rewrite andb_true_iff, N.eqb_eq, IH. split.
  - intros [-> ->]. reflexivity.
  - intros H. injection H as -> ->. split; reflexivity.
Qed.

(** ** Strings: [split], [join], [strip] *)

Section StringFacts.
Context {U : Unicode} {L : UnicodeLaws U}.

Lemma split_space c s : isspace c = true -> split (c :: s) = split s.
Proof. intros H. simpl. now rewrite H. Qed.

Lemma split_blank s : forallb isspace s = true -> split s = [].
Proof.
  induction s as [|c s IH]; simpl; [reflexivity|].
  intros [Hc Hs]%andb_prop. rewrite Hc. auto.
Qed.

Lemma split_has_text s : has_text s = true -> split s <> [].
Proof.
  induction s as [|c s IH]; simpl; [discriminate|].
  destruct (isspace c); simpl; [exact IH|].
  intros _. destruct s as [|d s']; [discriminate|].
  destruct (isspace d); [discriminate|].
  destruct (split (d :: s')); discriminate.
Qed.

Lemma has_text_or_blank s : has_text s = false -> forallb isspace s = true.
Proof.
  induction s as [|c s IH]; simpl; [reflexivity|].
  destruct (isspace c); simpl; [exact IH|discriminate].
Qed.

(** A word in front of nothing, or of a whitespace character, is the first
    word that [split] finds. *)
Lemma split_word w rest :
  word w ->
  match rest with [] => True | d :: _ => isspace d = true end ->
  split (w ++ rest) = w :: split rest.
Proof.
  intros [Hne Hw] Hrest. induction w as [|c w IH]; [congruence|].
  inversion Hw as [|? ? Hc Hw']; subst.
  destruct w as [|c2 w'].
  - simpl. rewrite Hc. destruct rest as [|d r]; [reflexivity|].
    rewrite Hrest. reflexivity.
  - assert (IH' : split ((c2 :: w') ++ rest) = (c2 :: w') :: split rest)
      by (apply IH; [discriminate|assumption]).
    inversion Hw' as [|? ? Hc2 _]; subst.
    change (split ((c :: c2 :: w') ++ rest))
      with (if isspace c then split ((c2 :: w') ++ rest)
            else if isspace c2 then [c] :: split ((c2 :: w') ++ rest)
                 else match split ((c2 :: w') ++ rest) with
                      | x :: ws => (c :: x) :: ws
                      | [] => [[c]]
                      end).
    rewrite Hc, Hc2, IH'. reflexivity.
Qed.

Lemma split_words s : Forall word (split s).
Proof.
  induction s as [|c s IH]; simpl; [constructor|].
  destruct (isspace c) eqn:Hc; [exact IH|].
  destruct s as [|d s'].
  - repeat constructor; [discriminate|assumption].
  - destruct (isspace d) eqn:Hd.
    + constructor; [|exact IH]. repeat constructor; [discriminate|assumption].
    + destruct (split (d :: s')) as [|x ws]; inversion IH; subst.
      * repeat constructor; [discriminate|assumption].
      * constructor; [|assumption].
        destruct H1 as [_ Hx]. split; [discriminate|]. constructor; assumption.
Qed.

Lemma join_app_head sep a w wr : join sep ((a ++ w) :: wr) = a ++ join sep (w :: wr).
Proof. simpl. destruct wr; [reflexivity|]. now rewrite <- app_assoc. Qed.

Lemma join_snoc sep ws w a : join sep (ws ++ [w]) ++ a = join sep (ws ++ [w ++ a]).
Proof.
  induction ws as [|x ws IH]; [reflexivity|].
  change (join sep (x :: (ws ++ [w])) ++ a = join sep (x :: (ws ++ [w ++ a]))).
  simpl. destruct ws as [|y ws']; simpl in *.
  - now rewrite <- !app_assoc.
  - rewrite <- IH. now rewrite <- !app_assoc.
Qed.

Lemma split_join ws : Forall word ws -> split (join [SPACE] ws) = ws.
Proof.
  induction 1 as [|w ws Hw Hws IH]; [reflexivity|].
  destruct ws as [|w2 ws'].
  - simpl. rewrite <- (app_nil_r w) at 1. rewrite split_word; auto.
  - change (join [SPACE] (w :: w2 :: ws'))
      with (w ++ SPACE :: join [SPACE] (w2 :: ws')).
    rewrite split_word; auto using isspace_SPACE.
    rewrite split_space by apply isspace_SPACE. now rewrite IH.
Qed.

Lemma join_head w ws :
  Forall word (w :: ws) ->
  exists c r, join [SPACE] (w :: ws) = c :: r /\ isspace c = false.
Proof.
  intros H. inversion H as [|? ? [Hne Hw] _]; subst.
  destruct w as [|c w']; [congruence|]. inversion Hw; subst.
  exists c. simpl. destruct ws; eauto.
Qed.

Lemma join_last w ws :
  Forall word (w :: ws) ->
  exists e, last (join [SPACE] (w :: ws)) = Some e /\ isspace e = false.
Proof.
  revert w. induction ws as [|w2 ws IH]; intros w H.
  - inversion H as [|? ? [Hne Hw] _]; subst. simpl.
    destruct w as [|c w' _] using rev_ind; [congruence|].
    exists c. rewrite last_snoc. split; [reflexivity|].
    apply Forall_app in Hw as [_ Hc]. now inversion Hc.
  - inversion H as [|? ? _ H']; subst.
    destruct (IH w2 H') as (e & He & Hs). exists e. split; [|exact Hs].
    change (join [SPACE] (w :: w2 :: ws))
      with (w ++ SPACE :: join [SPACE] (w2 :: ws)).
    rewrite last_app, last_cons, He. reflexivity.
Qed.

Lemma lstrip_id s :
  match s with [] => True | c :: _ => isspace c = false end -> lstrip s = s.
Proof. destruct s as [|c s]; simpl; [reflexivity|]. now intros ->. Qed.

Lemma strip_id s c r e :
  s = c :: r -> isspace c = false -> last s = Some e -> isspace e = false ->
  strip s = s.
Proof.
  intros Hs Hc He Hse. unfold strip, rstrip.
  rewrite (lstrip_id s) by now rewrite Hs.
  clear Hs. destruct s as [|x s' _] using rev_ind; [reflexivity|].
  rewrite last_snoc in He. injection He as ->.
  rewrite rev_app_distr. simpl. rewrite Hse. simpl.
  now rewrite rev_involutive.
Qed.

Lemma nrw_app w l :
  nospace w -> no_repeated_whitespace l = true ->
  no_repeated_whitespace (w ++ l) = true.
Proof.
  intros Hw Hl. induction Hw as [|c w Hc Hw IH]; [exact Hl|].
  change (no_repeated_whitespace (c :: (w ++ l)) = true).
  simpl. destruct (w ++ l); [reflexivity|].
  rewrite Hc, IH. reflexivity.
Qed.

Lemma nrw_join ws : Forall word ws -> no_repeated_whitespace (join [SPACE] ws) = true.
Proof.
  induction 1 as [|w ws [_ Hw] Hws IH]; [reflexivity|].
  destruct ws as [|w2 ws'].
  - simpl. rewrite <- (app_nil_r w). now apply nrw_app.
  - change (join [SPACE] (w :: w2 :: ws'))
      with (w ++ SPACE :: join [SPACE] (w2 :: ws')).
    apply nrw_app; [assumption|].
    destruct (join_head _ _ Hws) as (d & r & Hj & Hd).
    rewrite Hj in IH |- *.
    change (negb (isspace SPACE && isspace d) && no_repeated_whitespace (d :: r) = true).
    rewrite Hd, IH, andb_false_r. reflexivity.
Qed.

End StringFacts.

(** ** [_clean_transcription] *)

Section CleanFacts.
Context {U : Unicode} {L : UnicodeLaws U}.
Import WhisperX.

Lemma sentence_end_contains e : contains (py ".!?") [e] = true <-> sentence_end e.
Proof.
  unfold sentence_end, DOT, BANG, QUESTION.
  change (contains (py ".!?") [e])
    with (((e =? 46)%N && true || ((e =? 33)%N && true || ((e =? 63)%N && true || false)))).
  rewrite !andb_true_r, orb_false_r, !orb_true_iff, !N.eqb_eq. tauto.
Qed.

Lemma sentence_end_nospace e : sentence_end e -> isspace e = false.
Proof.
  intros [->|[->| ->]];
    [apply isspace_DOT | apply isspace_BANG | apply isspace_QUESTION].
Qed.

Lemma clean_blank text : split text = [] -> _clean_transcription text = [].
Proof.
  intros H. unfold _clean_transcription. destruct text; [reflexivity|].
  rewrite H. reflexivity.
Qed.

(** The last step of the method, on words joined by spaces. *)
Lemma ending_cleaned W c r :
  Forall word W -> join [SPACE] W = c :: r -> isspace c = false ->
  (isupper c = true \/ upper c = [c]) ->
  cleaned (match last (join [SPACE] W) with
           | Some e =>
               if negb (contains (py ".!?") [e])
               then join [SPACE] W ++ py "." else join [SPACE] W
           | None => join [SPACE] W
           end).
Proof.
  intros HW Hj Hc Hset.
  destruct W as [|w ws]; [discriminate|].
  destruct (join_last _ _ HW) as (e & He & _).
  destruct (exists_last (l := w :: ws)) as (W' & wl & E); [discriminate|].
  rewrite E in *. clear E w ws. rewrite He.
  destruct (contains (py ".!?") [e]) eqn:Hend; simpl.
  - exists (W' ++ [wl]), c, r, e. repeat split; auto.
    now apply sentence_end_contains.
  - change (py ".") with [DOT]. rewrite join_snoc.
    exists (W' ++ [wl ++ [DOT]]), c, (r ++ [DOT]), DOT. repeat split.
    + apply Forall_app in HW as [HW' Hwl]. apply Forall_app. split; [assumption|].
      inversion Hwl as [|? ? [Hne Hns] _]; subst. repeat constructor.
      * destruct wl; discriminate.
      * apply Forall_app. split; [assumption|].
        repeat constructor. apply isspace_DOT.
    + rewrite <- join_snoc, Hj. reflexivity.
    + assumption.
    + assumption.
    + rewrite <- join_snoc. apply last_snoc.
    + now left.
Qed.

Lemma clean_cleaned text : split text <> [] -> cleaned (_clean_transcription text).
Proof.
  intros Hne. pose proof (split_words text) as HW.
  destruct text as [|x text]; [now elim Hne|].
  unfold _clean_transcription.
  destruct (split (x :: text)) as [|w wr]; [now elim Hne|]. clear Hne.
  destruct (join_head _ _ HW) as (c & r & Hj & Hc).
  destruct (join_last _ _ HW) as (e & He & Hse).
  rewrite (strip_id _ c r e Hj Hc He Hse). rewrite Hj.
  destruct (isupper c) eqn:Hup; cbn [negb].
  - rewrite <- Hj. apply (ending_cleaned (w :: wr) c r); auto.
  - inversion HW as [|? ? [Hwne Hwns] Hwr]; subst.
    destruct w as [|c0 w']; [congruence|].
    change (c0 :: w') with ([c0] ++ w') in Hj. rewrite join_app_head in Hj.
    remember (join [SPACE] (w' :: wr)) as J eqn:HJ.
    injection Hj as -> <-. subst J.
    destruct (upper c) as [|d u] eqn:Hu; [now apply upper_nonempty in Hu|].
    rewrite <- join_app_head.
    apply (ending_cleaned (((d :: u) ++ w') :: wr) d (u ++ join [SPACE] (w' :: wr))).
    + constructor; [|assumption]. split; [discriminate|].
      inversion Hwns; subst. apply Forall_app. split; [|assumption].
      rewrite <- Hu. now apply upper_nospace.
    + now rewrite join_app_head.
    + pose proof (upper_nospace c Hc) as Hn. rewrite Hu in Hn. now inversion Hn.
    + eapply upper_settled; eassumption.
Qed.

Lemma cleaned_fixed t : cleaned t -> _clean_transcription t = t.
Proof.
  intros (W & c & r & e & HW & Ht & Hc & Hsp & Hset & He & Hend).
  pose proof (sentence_end_nospace e Hend) as Hse.
  apply sentence_end_contains in Hend.
  rewrite Hc in Ht, He |- *. clear Hc t. unfold _clean_transcription.
  replace (split (c :: r)) with W by (now rewrite Ht, split_join).
  rewrite <- Ht.
  rewrite (strip_id (c :: r) c r e eq_refl Hsp He Hse).
  destruct Hset as [Hup | Hfix].
  - rewrite Hup. cbn [negb]. now rewrite He, Hend.
  - rewrite Hfix. change ([c] ++ r) with (c :: r).
    destruct (negb (isupper c)); now rewrite He, Hend.
Qed.

End CleanFacts.

(** ** The table [Latin] obeys the laws *)

Lemma forallb_below (P : N -> bool) (n : nat) :
  forallb P (map N.of_nat (seq 0 n)) = true ->
  forall c, (c < N.of_nat n)%N -> P c = true.
Proof.
  intros H c Hc. rewrite forallb_forall in H. apply H.
  rewrite <- (N2Nat.id c). apply in_map, in_seq. lia.
Qed.

Lemma in_range_above c lo hi : (hi < c)%N -> in_range c lo hi = false.
Proof.
  intros H. unfold in_range. apply andb_false_iff. right. now apply N.leb_gt.
Qed.

Ltac above_table c :=
  repeat rewrite (in_range_above c) by lia;
  repeat match goal with
         | |- context [(c =? ?k)%N] =>
             replace (c =? k)%N with false by (symmetry; apply N.eqb_neq; lia)
         end;
  cbn [andb orb negb].

Lemma latin_isspace_above c : (1024 <= c)%N -> latin_isspace c = false.
Proof. intros H. unfold latin_isspace. above_table c. reflexivity. Qed.

Lemma latin_isupper_above c : (1024 <= c)%N -> latin_isupper c = false.
Proof. intros H. unfold latin_isupper. above_table c. reflexivity. Qed.

Lemma latin_upper_above c : (1024 <= c)%N -> latin_upper c = [c].
Proof. intros H. unfold latin_upper. above_table c. reflexivity. Qed.

Lemma latin_law_holds c : latin_law c = true.
Proof.
  destruct (N.lt_ge_cases c 1024) as [Hlt | Hge].
  - revert c Hlt. apply (forallb_below latin_law 1024). vm_compute. reflexivity.
  - unfold latin_law.
    rewrite latin_upper_above, latin_isspace_above, latin_isupper_above by assumption.
    cbn [orb forallb andb negb]. rewrite latin_isspace_above by assumption.
    rewrite latin_upper_above by assumption.
    rewrite bool_decide_eq_true_2 by reflexivity. reflexivity.
Qed.

#[export] Instance Latin_laws : UnicodeLaws Latin.
Proof.
  split; try reflexivity.
  - intros c. cbn. unfold latin_upper.
    repeat match goal with
           | |- context [if ?b then _ else _] => destruct b
           end; discriminate.
  - intros c Hc. pose proof (latin_law_holds c) as H. unfold latin_law in H.
    apply andb_prop in H as [H _]. cbn in Hc |- *. rewrite Hc in H. cbn in H.
    apply List.Forall_forall. intros d Hd. rewrite forallb_forall in H.
    apply H in Hd. now apply negb_true_iff in Hd.
  - intros c d u Hc Hu. pose proof (latin_law_holds c) as H. unfold latin_law in H.
    apply andb_prop in H as [_ H]. cbn in Hc, Hu |- *. rewrite Hc, Hu in H.
    cbn in H. apply orb_prop in H as [H | H]; [now left|].
    right. now apply bool_decide_eq_true_1 in H.
Qed.

(** ** Numbers *)

Lemma Qltb_lt a b : Qltb a b = true <-> (a < b)%Q.
Proof.
  unfold Qltb. rewrite negb_true_iff, <- not_true_iff_false, Qle_bool_iff.
  split; [apply Qnot_le_lt | apply Qlt_not_le].
Qed.

Lemma Qltb_ge a b : Qltb a b = false <-> (b <= a)%Q.
Proof. unfold Qltb. now rewrite negb_false_iff, Qle_bool_iff. Qed.

Lemma py_min_Qmin a b : (py_min a b == Qmin a b)%Q.
Proof.
  unfold py_min. destruct (Qltb b a) eqn:H.
  - apply Qltb_lt in H. symmetry. apply Q.min_r. now apply Qlt_le_weak.
  - apply Qltb_ge in H. symmetry. now apply Q.min_l.
Qed.

Lemma py_min_range a b : (0 <= a)%Q -> (0 <= b)%Q -> (0 <= py_min a b <= a)%Q.
Proof.
  intros Ha Hb. unfold py_min. destruct (Qltb b a) eqn:H.
  - apply Qltb_lt in H. split; [assumption|now apply Qlt_le_weak].
  - split; [assumption|apply Qle_refl].
Qed.

Lemma py_max_lower a b : (a <= py_max a b)%Q.
Proof.
  unfold py_max. destruct (Qltb a b) eqn:H.
  - apply Qltb_lt in H. now apply Qlt_le_weak.
  - apply Qle_refl.
Qed.

Lemma len_nonneg {A} (l : list A) : (0 <= len l)%Z.
Proof. unfold len. lia. Qed.

(** ** [_assess_transcription_quality] *)

Section QualityFacts.
Context {U : Unicode}.
Import WhisperX.

Lemma below_30_percent wc ex :
  Qltb (inject_Z wc) (inject_Z ex * (3 # 10)) = (10 * wc <? 3 * ex)%Z.
Proof.
  apply eq_true_iff_eq. rewrite Qltb_lt, Z.ltb_lt.
  unfold Qlt. cbn. lia.
Qed.

Lemma quality_code_spec text confidence audio_size :
  (_assess_transcription_quality text confidence audio_size
   == quality_spec text confidence audio_size)%Q.
Proof.
  unfold _assess_transcription_quality, quality_spec.
  destruct text as [|c text]; [reflexivity|].
  rewrite py_min_Qmin. apply Q.min_compat; [reflexivity|].
  fold (words_of (c :: text)) (expected_words_of audio_size)
       (matched_indicators (c :: text)).
  rewrite below_30_percent.
  pose proof (len_nonneg
    (List.filter (fun word => contains (lower (c :: text)) word) swedish_indicators))
    as Hk.
  fold (matched_indicators (c :: text)) in Hk.
  destruct (10 * words_of (c :: text) <? 3 * expected_words_of audio_size)%Z;
    destruct ((5 <=? words_of (c :: text))%Z && (words_of (c :: text) <=? 100)%Z);
    destruct (0 <? matched_indicators (c :: text))%Z eqn:Hpos;
    try ring;
    (apply Z.ltb_ge in Hpos;
     replace (matched_indicators (c :: text)) with 0%Z by lia; ring).
Qed.

End QualityFacts.

(** C3.  For every text and every confidence between 0 and 1 (and every
    audio size, negative ones included), [_assess_transcription_quality]
    returns a value between 0 and 1: exactly 0 for the empty text, and
    otherwise the confidence times 0.7 when the word count is below 30% of
    max(1, audio_size // 10000), times 1.1 when the word count lies between 5
    and 100, times 1 + 0.02 for each matched Swedish indicator, capped at 1. *)
Theorem assess_transcription_quality_spec
    (U : Unicode) (text : pystr) (confidence : Q) (audio_size : Z) :
  (0 <= confidence)%Q -> (confidence <= 1)%Q ->
  let q := WhisperX._assess_transcription_quality text confidence audio_size in
  (text = [] -> q = 0%Q)
  /\ (q == WhisperX.quality_spec text confidence audio_size)%Q
  /\ (0 <= q)%Q /\ (q <= 1)%Q.
Proof.
  intros H0 H1 q. split; [intros ->; reflexivity|].
  split; [apply quality_code_spec|].
  subst q. unfold WhisperX._assess_transcription_quality.
  destruct text as [|c text]; [split; [apply Qle_refl|discriminate]|].
  apply py_min_range; [discriminate|].
  pose proof (len_nonneg
    (List.filter (fun word => contains (lower (c :: text)) word)
       WhisperX.swedish_indicators)) as Hk.
  set (k := len _) in *.
  assert (Hs : (0 <= 1 + inject_Z k * (2 # 100))%Q).
  { apply Qle_trans with 1%Q; [discriminate|].
    rewrite <- (Qplus_0_r 1) at 1. apply Qplus_le_r.
    apply Qmult_le_0_compat; [|discriminate].
    change 0%Q with (inject_Z 0). now rewrite <- Zle_Qle. }
  repeat match goal with
         | |- context [if ?b then _ else _] => destruct b
         end;
    repeat apply Qmult_le_0_compat; try assumption; discriminate.
Qed.

Lemma assess_transcription_quality_spec_witness :
  let text := py "jag och det" in
  let q := WhisperX._assess_transcription_quality text (1 # 2) 5000 in
  (text = [] -> q = 0%Q)
  /\ (q == WhisperX.quality_spec text (1 # 2) 5000)%Q
  /\ (0 <= q)%Q /\ (q <= 1)%Q.
Proof.
  apply (assess_transcription_quality_spec Latin (py "jag och det") (1 # 2) 5000);
    discriminate.
Defined.

(** C10 (amended).  [_clean_transcription] is idempotent.  A text without
    any character that is not whitespace (the empty text included) is mapped
    to the empty string.  For every other text the result begins with a
    character that is not whitespace and that is a capital or has no capital
    of its own ([upper] leaves it as it is), ends with '.', '!' or '?', and
    has no two whitespace characters in a row. *)
Theorem clean_transcription_normal_form
    (U : Unicode) (L : UnicodeLaws U) (text : pystr) :
  WhisperX._clean_transcription (WhisperX._clean_transcription text)
    = WhisperX._clean_transcription text
  /\ (has_text text = false -> WhisperX._clean_transcription text = [])
  /\ (has_text text = true ->
      exists c r e,
        WhisperX._clean_transcription text = c :: r
        /\ isspace c = false
        /\ (isupper c = true \/ upper c = [c])
        /\ last (WhisperX._clean_transcription text) = Some e
        /\ sentence_end e
        /\ isspace e = false
        /\ no_repeated_whitespace (WhisperX._clean_transcription text) = true).
Proof.
  split; [|split].
  - destruct (split text) as [|w ws] eqn:Hs.
    + now rewrite (clean_blank text Hs).
    + apply cleaned_fixed, clean_cleaned. now rewrite Hs.
  - intros H. apply clean_blank, split_blank, has_text_or_blank, H.
  - intros H. apply split_has_text in H.
    destruct (clean_cleaned text H) as (W & c & r & e & HW & Ht & Hc & Hsp & Hset & He & Hend).
    exists c, r, e. repeat split; auto using sentence_end_nospace.
    rewrite Ht. now apply nrw_join.
Qed.

Lemma clean_transcription_normal_form_witness :
  let text := py "  tack  hej " in
  WhisperX._clean_transcription (WhisperX._clean_transcription text)
    = WhisperX._clean_transcription text
  /\ exists c r e,
       WhisperX._clean_transcription text = c :: r
       /\ isspace c = false
       /\ (isupper c = true \/ upper c = [c])
       /\ last (WhisperX._clean_transcription text) = Some e
       /\ sentence_end e
       /\ isspace e = false
       /\ no_repeated_whitespace (WhisperX._clean_transcription text) = true.
Proof.
  intros text.
  destruct (clean_transcription_normal_form Latin Latin_laws text) as (H1 & _ & H3).
  split; [exact H1|]. apply H3. reflexivity.
Defined.

(** C10 as stated fails in two places.  A text of three spaces is not
    empty and consists of whitespace, and its cleaned form is the empty
    string, not ".".  The text made of the one letter U+0138 (kra, a
    lowercase letter without a capital) has a character that is not
    whitespace, and its cleaned form begins with that lowercase letter. *)
Lemma clean_transcription_counterexample :
  (let text := py "   " in
   text <> [] /\ forallb isspace text = true
   /\ WhisperX._clean_transcription text = []
   /\ WhisperX._clean_transcription text <> py ".")
  /\ (let text := [312%N] in
      has_text text = true
      /\ WhisperX._clean_transcription text = [312%N; DOT]
      /\ islower 312%N = true).
Proof.
  split; cbv zeta.
  - repeat split; [discriminate | discriminate].
  - repeat split.
Qed.

(** ** The processors of the concrete runs are constructed ones *)

Example studio_processor_constructed :
  fst (WhisperX.__init__ (sim (setup [])) (py "base") (py "sv") (py "auto") empty_world)
  = Return studio_processor.
Proof. reflexivity. Qed.

Example speaker_constructed :
  fst (TTS.__init__ (sim (setup [py "piper"])) (py "piper") (py "swedish_female")
         (py "auto") empty_world)
  = Return (TTS.set_piper_available (speaker (py "piper"))).
Proof. reflexivity. Qed.

(** ** Validation of the input *)

Section Validation.
Context {U : Unicode}.

Lemma strip_blank s : has_text s = false -> strip s = [].
Proof.
  intros H. apply has_text_or_blank in H.
  assert (Hl : lstrip s = []).
  { induction s as [|c s IH]; [reflexivity|]. simpl in *.
    apply andb_prop in H as [-> Hs]. auto. }
  unfold strip. now rewrite Hl.
Qed.

Lemma too_small_short (b : list byte) : (length b < 1024)%nat -> WhisperX.too_small b = true.
Proof.
  intros H. unfold WhisperX.too_small. apply orb_true_iff. right.
  apply Z.ltb_lt. unfold len. lia.
Qed.

End Validation.

(** C4.  For a text that is empty or has only whitespace, [synthesize]
    raises nothing: it returns a dictionary whose audio data is the empty
    byte string and whose "error" entry is "Text is empty". *)
Theorem synthesize_empty_text
    (U : Unicode) (env : Env) (self : TTS.TTSProcessor)
    (text output_format : pystr) (w : World) :
  has_text text = false ->
  exists r w',
    TTS.synthesize env self text output_format w = (Return r, w')
    /\ TTS.res_audio_data r = []
    /\ TTS.res_error r = Some (py "Text is empty")
    /\ TTS.res_text r = text
    /\ TTS.res_provider r = TTS.provider self
    /\ w_files w' = w_files w.
Proof.
  intros H. unfold TTS.synthesize.
  assert (Hv : match text with [] => true | _ => false end
               || match strip text with [] => true | _ => false end = true).
  { rewrite (strip_blank text H). apply orb_true_r. }
  unfold bind at 1. cbn [time_time]. unfold try_except, bind at 1.
  rewrite Hv. cbn. eauto 10.
Qed.

Lemma synthesize_empty_text_witness :
  exists r w',
    TTS.synthesize (sim (setup [py "piper"]))
      {| TTS.provider := py "piper"; TTS.voice := py "swedish_female";
         TTS.device := py "auto"; TTS.sample_rate := 22050; TTS.channels := 1;
         TTS.bit_depth := 16; TTS.piper_available := Some true;
         TTS.espeak_available := None; TTS.system_available := None |}
      (py "  ") (py "wav") empty_world = (Return r, w')
    /\ TTS.res_audio_data r = []
    /\ TTS.res_error r = Some (py "Text is empty")
    /\ TTS.res_text r = py "  "
    /\ TTS.res_provider r = py "piper"
    /\ w_files w' = w_files empty_world.
Proof.
  apply (synthesize_empty_text Latin). reflexivity.
Defined.

(** C9.  For a buffer of fewer than 1024 bytes (the empty one included),
    [detect_language] raises nothing: it returns the default language with
    confidence 0.5, that language alone in [all_languages] with confidence
    0.5, and an "error" entry. *)
Theorem detect_language_small_buffer
    (U : Unicode) (env : Env) (self : WhisperX.WhisperXProcessor)
    (audio_buffer : list byte) (audio_format : pystr)
    (supported_languages : option (list pystr)) (w : World) :
  (length audio_buffer < 1024)%nat ->
  exists r w',
    WhisperX.detect_language env self audio_buffer audio_format supported_languages w
      = (Return r, w')
    /\ WhisperX.det_detected_language r = WhisperX.default_language self
    /\ WhisperX.det_language_confidence r = 1 # 2
    /\ WhisperX.det_all_languages r
       = [{| WhisperX.language := WhisperX.default_language self;
             WhisperX.confidence := 1 # 2 |}]
    /\ WhisperX.det_error r = Some (py "Audio buffer is empty or too small")
    /\ w_files w' = w_files w.
Proof.
  intros H. apply too_small_short in H. unfold WhisperX.detect_language.
  unfold bind at 1. cbn [time_time]. unfold try_except, bind at 1.
  rewrite H. cbn. eauto 10.
Qed.

Lemma detect_language_small_buffer_witness :
  exists r w',
    WhisperX.detect_language (sim (setup []))
      {| WhisperX.model_size := py "base"; WhisperX.default_language := py "sv";
         WhisperX.supported_languages := [(py "sv", py "Swedish")];
         WhisperX.device := py "cpu"; WhisperX.target_sample_rate := 16000;
         WhisperX.min_duration := 1 # 2; WhisperX.max_duration := 120 |}
      [x52; x49; x46; x46] (py "wav") None empty_world = (Return r, w')
    /\ WhisperX.det_detected_language r = py "sv"
    /\ WhisperX.det_language_confidence r = 1 # 2
    /\ WhisperX.det_all_languages r
       = [{| WhisperX.language := py "sv"; WhisperX.confidence := 1 # 2 |}]
    /\ WhisperX.det_error r = Some (py "Audio buffer is empty or too small")
    /\ w_files w' = w_files empty_world.
Proof.
  apply (detect_language_small_buffer Latin). cbn. lia.
Defined.

(** C8 fails on the code.  For a buffer of fewer than 1024 bytes the
    validation raises ValueError, and the handler that should build the error
    dictionary reads [self.language], an attribute that no instance has:
    [transcribe_buffer] raises AttributeError and returns no dictionary. *)
Theorem transcribe_buffer_small_buffer_raises
    (U : Unicode) (env : Env) (self : WhisperX.WhisperXProcessor)
    (audio_buffer : list byte) (audio_format : pystr)
    (target_language : option pystr) (w : World) :
  (length audio_buffer < 1024)%nat ->
  fst (WhisperX.transcribe_buffer env self audio_buffer audio_format target_language w)
  = Raise (Exn AttributeError (py "'WhisperXProcessor' object has no attribute 'language'")).
Proof.
  intros H. apply too_small_short in H. unfold WhisperX.transcribe_buffer.
  unfold bind at 1. cbn [time_time]. unfold try_except, bind at 1.
  rewrite H. reflexivity.
Qed.

Lemma transcribe_buffer_small_buffer_raises_witness :
  fst (WhisperX.transcribe_buffer (sim (setup []))
         {| WhisperX.model_size := py "base"; WhisperX.default_language := py "sv";
            WhisperX.supported_languages := [(py "sv", py "Swedish")];
            WhisperX.device := py "cpu"; WhisperX.target_sample_rate := 16000;
            WhisperX.min_duration := 1 # 2; WhisperX.max_duration := 120 |}
         [] (py "wav") None empty_world)
  = Raise (Exn AttributeError (py "'WhisperXProcessor' object has no attribute 'language'")).
Proof.
  apply (transcribe_buffer_small_buffer_raises Latin). cbn. lia.
Defined.

(** ** The providers of [TTSProcessor] *)

Section Providers.
Context (env : Env).







End Providers.



(** ** Composition of [keeps] *)

Section Frame.
Context (R1 R2 R3 : World -> World -> Prop).
Context (compose : forall a b c, R1 a b -> R2 b c -> R3 a c).
Context (weaken : forall a b, R1 a b -> R3 a b).

Lemma keeps_bind {A B} (m : M A) (k : A -> M B) :
  keeps R1 m -> (forall a, keeps R2 (k a)) -> keeps R3 (bind m k).
Proof.
  intros Hm Hk w. unfold bind. specialize (Hm w).
  destruct (m w) as [[a|e] w1]; cbn in *; [|now apply weaken].
  eapply compose; [exact Hm|apply Hk].
Qed.

Lemma keeps_try_except {A} (m : M A) (h : exn -> M A) :
  keeps R1 m -> (forall e, keeps R2 (h e)) -> keeps R3 (try_except m h).
Proof.
  intros Hm Hh w. unfold try_except. specialize (Hm w).
  destruct (m w) as [[a|e] w1]; cbn in *; [now apply weaken|].
  eapply compose; [exact Hm|apply Hh].
Qed.

Lemma keeps_try_finally {A} (m : M A) (fin : M unit) :
  keeps R1 m -> keeps R2 fin -> keeps R3 (try_finally m fin).
Proof.
  intros Hm Hf w. unfold try_finally. specialize (Hm w).
  destruct (m w) as [r w1]. specialize (Hf w1).
  destruct (fin w1) as [[u|e] w2]; cbn in *; eapply compose; eassumption.
Qed.

End Frame.

Lemma keeps_ret R {A} (a : A) : (forall w, R w w) -> keeps R (ret a).
Proof. intros Hr w. apply Hr. Qed.

Lemma keeps_raise R {A} (e : exn) : (forall w, R w w) -> keeps R (@raise A e).
Proof. intros Hr w. apply Hr. Qed.

Lemma keeps_of_result R {A} (r : result A) :
  (forall w, R w w) -> keeps R (WhisperX.of_result r).
Proof. intros Hr w. apply Hr. Qed.

(** One step through the body of a method, for a reflexive and transitive
    relation; [prim] settles the operations of the world. *)
Ltac keeps_step refl trans prim :=
  match goal with
  | |- keeps ?R (bind _ _) =>
      apply (keeps_bind R R R trans (fun _ _ H => H)); [ | intro]
  | |- keeps ?R (try_except _ _) =>
      apply (keeps_try_except R R R trans (fun _ _ H => H)); [ | intro]
  | |- keeps ?R (try_finally _ _) =>
      apply (keeps_try_finally R R R trans)
  | |- keeps _ (ret _) => apply keeps_ret; exact refl
  | |- keeps _ (raise _) => apply keeps_raise; exact refl
  | |- keeps _ (WhisperX.of_result _) => apply keeps_of_result; exact refl
  | |- keeps _ (let _ := _ in _) => cbv zeta
  | |- keeps _ (if ?b then _ else _) => destruct b
  | |- keeps _ (match ?x with _ => _ end) => destruct x
  | |- keeps _ (fun w => (_, w)) =>
      let w := fresh "w" in intros w; apply refl
  | |- keeps _ _ => solve [prim]
  end.

(** ** The model is called with the VAD options *)



Lemma calls_extended_same w w' : w_calls w' = w_calls w -> calls_extended w w'.
Proof. intros H. exists []. now rewrite app_nil_r. Qed.

Ltac same_calls :=
  let w := fresh "w" in
  intros w; apply calls_extended_same;
  repeat match goal with
         | |- context [match ?x with _ => _ end] => destruct x
         end; reflexivity.

Section Calls.
Context {U : Unicode} (env : Env).

Lemma calls_logger l msg : keeps calls_extended (logger l msg).
Proof. same_calls. Qed.

Lemma calls_time_time : keeps calls_extended (time_time env).
Proof. same_calls. Qed.

Lemma calls_NamedTemporaryFile suffix : keeps calls_extended (NamedTemporaryFile env suffix).
Proof. unfold NamedTemporaryFile. same_calls. Qed.

Lemma calls_write_close p data : keeps calls_extended (write_close env p data).
Proof. unfold write_close. same_calls. Qed.

Lemma calls_unlink_if_exists p : keeps calls_extended (unlink_if_exists p).
Proof.
  unfold unlink_if_exists, bind, os_path_exists, os_unlink, ret.
  intros w. apply calls_extended_same. cbn.
  destruct (bool_decide _); [|reflexivity]. now destruct (w_files w !! p).
Qed.

Lemma calls_int_div a b : keeps calls_extended (WhisperX.int_div a b).
Proof. unfold WhisperX.int_div, raise, ret. same_calls. Qed.

Lemma calls_float_div a b : keeps calls_extended (WhisperX.float_div a b).
Proof. unfold WhisperX.float_div, raise, ret. same_calls. Qed.

Lemma calls_getattr self name : keeps calls_extended (WhisperX.getattr self name).
Proof. unfold WhisperX.getattr, raise, ret. same_calls. Qed.

Lemma calls_np_max a : keeps calls_extended (WhisperX.np_max a).
Proof. unfold WhisperX.np_max, raise, ret. same_calls. Qed.


End Calls.

Create HintDb calls.
#[local] Hint Resolve calls_logger calls_time_time calls_NamedTemporaryFile
  calls_write_close calls_unlink_if_exists calls_int_div calls_float_div
  calls_getattr calls_np_max : calls.


Section CallsOfMethods.
Context {U : Unicode} (env : Env).




End CallsOfMethods.

(** A run in which the model is called: the one call carries the options. *)
Example model_called_once :
  map snd (w_calls (snd (WhisperX.detect_language (sim (setup [])) studio_processor
                           silence (py "wav") None empty_world)))
  = [WhisperX.detection_options].
Proof. vm_compute. reflexivity. Qed.

(** ** The scores of [detect_language] *)

Section Scores.
Context {U : Unicode} (env : Env).
Import WhisperX.

Lemma score_languages_inv langs n detected p acc w l w' :
  score_languages langs n detected p acc w = (Return l, w') ->
  l = acc ++ map (fun lang =>
                    {| language := lang; confidence := score_spec detected p n lang |})
                 langs.
Proof.
  revert acc w. induction langs as [|lang langs IH]; intros acc w H; cbn [score_languages] in H.
  - injection H as <- _. now rewrite app_nil_r.
  - unfold score_spec at 1. cbn [map].
    destruct (pystr_eqb lang detected).
    + apply IH in H. rewrite H, <- app_assoc. reflexivity.
    + apply bind_inv in H as (q & w1 & Hq & H).
      unfold float_div in Hq. destruct (Qeq_bool _ _); [discriminate|].
      injection Hq as <- _. apply IH in H. rewrite H, <- app_assoc. reflexivity.
Qed.

Lemma insert_desc_perm x l : Permutation (insert_desc x l) (x :: l).
Proof.
  induction l as [|y l IH]; cbn; [reflexivity|].
  destruct (Qltb _ _); [|reflexivity].
  rewrite IH. apply perm_swap.
Qed.

Lemma sort_perm l : Permutation (sort_by_confidence_desc l) l.
Proof.
  induction l as [|x l IH]; cbn; [reflexivity|].
  rewrite insert_desc_perm. now constructor.
Qed.

Lemma insert_desc_sorted x l :
  Sorted confidence_ge l -> Sorted confidence_ge (insert_desc x l).
Proof.
  induction 1 as [|y l Hs IH Hhd]; cbn; [repeat constructor|].
  destruct (Qltb (confidence x) (confidence y)) eqn:Hlt.
  - constructor; [exact IH|].
    apply Qltb_lt in Hlt.
    destruct l as [|z l]; cbn.
    + constructor. unfold confidence_ge. now apply Qlt_le_weak.
    + inversion Hhd; subst. destruct (Qltb (confidence x) (confidence z)).
      * now constructor.
      * constructor. unfold confidence_ge. now apply Qlt_le_weak.
  - apply Qltb_ge in Hlt. constructor; [now constructor|]. now constructor.
Qed.

Lemma sort_sorted l : Sorted confidence_ge (sort_by_confidence_desc l).
Proof.
  induction l as [|x l IH]; cbn; [constructor|]. now apply insert_desc_sorted.
Qed.

End Scores.


(** C2 (amended).  When [detect_language] returns without an "error" entry,
    [all_languages] has one entry for each language of the filtered list
    (its languages are a permutation of that list) and is sorted by
    non-increasing confidence.  The entry of the detected language carries
    the returned "language_confidence" p and every other entry
    max(0.1, (1 - p) / (n - 1)), n being the length of the filtered list.
    The detected language and p are the model's language and probability
    when that language is in the filtered list; when it is not, they are the
    default language and 0.5, and it is this 0.5, not the model's
    probability, that the scores are computed from. *)
Theorem detect_language_scores
    (U : Unicode) (env : Env) (self : WhisperX.WhisperXProcessor)
    (audio_buffer : list byte) (audio_format : pystr)
    (supported_languages : option (list pystr)) (w w' : World)
    (r : WhisperX.DetectionResult) :
  WhisperX.detect_language env self audio_buffer audio_format supported_languages w
    = (Return r, w') ->
  WhisperX.det_error r = None ->
  let langs := WhisperX.detection_languages_of self supported_languages in
  let detected := WhisperX.det_detected_language r in
  let p := WhisperX.det_language_confidence r in
  WhisperX.det_supported_languages r = langs
  /\ Permutation (map WhisperX.language (WhisperX.det_all_languages r)) langs
  /\ Sorted WhisperX.confidence_ge (WhisperX.det_all_languages r)
  /\ Forall (fun e =>
               WhisperX.confidence e
               = WhisperX.score_spec detected p (len langs) (WhisperX.language e))
            (WhisperX.det_all_languages r)
  /\ exists audio segments info,
       transcribe env audio WhisperX.detection_options = Return (segments, info)
       /\ let model_language :=
            match info_language info with
            | Some l => l
            | None => WhisperX.default_language self
            end in
          let model_probability :=
            match info_language_probability info with
            | Some q => q
            | None => 1 # 2
            end in
          if existsb (pystr_eqb model_language) langs
          then detected = model_language /\ p = model_probability
          else detected = WhisperX.default_language self /\ p = 1 # 2.
Proof.
  intros H Herr langs detected p. subst detected p.
  unfold WhisperX.detect_language in H. fold langs in H.
  inv_bind H. apply try_except_inv in H as [H | (e & w1 & _ & H)].
  2:{ cbn in H. injection H as <- _. discriminate Herr. }
  inv_bind H. inv_bind H. inv_bind H.
  apply try_finally_inv in H as (w5 & H & _).
  apply bind_inv in H as (audio & w6 & _ & H).
  apply bind_inv in H as (x & w7 & Hx & H).
  unfold model_transcribe in Hx. injection Hx as Hx _.
  destruct x as [segments info]. cbn [snd] in H.
  apply bind_inv in H as (? & w8 & _ & H).
  apply bind_inv in H as (scores & w9 & Hscores & H).
  apply bind_inv in H as (now & w10 & _ & H).
  apply bind_inv in H as (audio_duration & w11 & _ & H).
  apply bind_inv in H as (? & w12 & _ & H).
  injection H as <- _.
  cbn [WhisperX.det_supported_languages WhisperX.det_all_languages
       WhisperX.det_detected_language WhisperX.det_language_confidence].
  apply score_languages_inv in Hscores. cbn [app] in Hscores. subst scores.
  split; [reflexivity|]. split.
  { rewrite sort_perm, map_map. cbn. now rewrite map_id. }
  split; [apply sort_sorted|]. split.
  { eapply Permutation_Forall; [symmetry; apply sort_perm|].
    apply List.Forall_forall. intros e He.
    apply in_map_iff in He as (lang & <- & _). reflexivity. }
  exists audio, segments, info. split; [exact Hx|].
  cbv zeta. destruct (existsb _ langs); cbn [negb]; split; reflexivity.
Qed.

Lemma detect_language_scores_witness :
  exists r w',
    WhisperX.detect_language (sim (setup [])) studio_processor silence (py "wav")
      (Some [py "en"; py "xx"; py "sv"; py "da"]) empty_world = (Return r, w')
    /\ WhisperX.det_error r = None
    /\ WhisperX.det_supported_languages r = [py "en"; py "sv"; py "da"]
    /\ Permutation (map WhisperX.language (WhisperX.det_all_languages r))
         [py "en"; py "sv"; py "da"]
    /\ Sorted WhisperX.confidence_ge (WhisperX.det_all_languages r)
    /\ Forall (fun e =>
                 WhisperX.confidence e
                 = WhisperX.score_spec (WhisperX.det_detected_language r)
                     (WhisperX.det_language_confidence r) 3 (WhisperX.language e))
              (WhisperX.det_all_languages r)
    /\ WhisperX.det_detected_language r = py "sv"
    /\ WhisperX.det_language_confidence r = 9 # 10.
Proof.
  eexists. eexists. split; [vm_compute; reflexivity|].
  split; [reflexivity|].
  edestruct (detect_language_scores Latin (sim (setup [])) studio_processor silence
               (py "wav") (Some [py "en"; py "xx"; py "sv"; py "da"]) empty_world)
    as (Hl & Hp & Hs & Hf & _); [vm_compute; reflexivity|reflexivity|].
  split; [exact Hl|]. split; [exact Hp|]. split; [exact Hs|]. split; [exact Hf|].
  split; reflexivity.
Defined.

(** C2 as stated fails when the model's language is outside the filtered
    list.  The model hears French with probability 0.9 and the languages
    considered are Swedish and English: the result has no "error", the
    detected language is the default one, Swedish, and both entries of
    [all_languages] carry 0.5.  The entry of the detected language does not
    carry the model's probability 0.9, and the other entry does not carry
    max(0.1, (1 - 0.9) / (2 - 1)) = 0.1. *)
Lemma detect_language_scores_counterexample :
  exists r w',
    WhisperX.detect_language (sim french_setup) studio_processor silence (py "wav")
      (Some [py "sv"; py "en"]) empty_world = (Return r, w')
    /\ WhisperX.det_error r = None
    /\ transcribe (sim french_setup)
         (map (fun _ => 0%Q) silence) WhisperX.detection_options
       = Return (Return [{| seg_text := py " hej"; avg_logprob := Some 0%Q |}],
                 french_info)
    /\ info_language_probability french_info = Some (9 # 10)
    /\ WhisperX.det_detected_language r = py "sv"
    /\ WhisperX.det_all_languages r
       = [ {| WhisperX.language := py "sv"; WhisperX.confidence := 1 # 2 |};
           {| WhisperX.language := py "en"; WhisperX.confidence := 1 # 2 |} ]
    /\ ~ (1 # 2 == 9 # 10)%Q
    /\ ~ (1 # 2 == WhisperX.score_spec (py "sv") (9 # 10) 2 (py "en"))%Q.
Proof.
  eexists. eexists. split; [vm_compute; reflexivity|].
  repeat split; discriminate.
Qed.

(** ** [_preprocess_audio] *)

Lemma slice_to_nil {A} n : slice_to (@nil A) n = [].
Proof. unfold slice_to. destruct (0 <=? n)%Z; apply firstn_nil. Qed.

Lemma duration_below n :
  Qltb (inject_Z n / inject_Z 16000) (1 # 2) = (n <? 8000)%Z.
Proof.
  apply eq_true_iff_eq. rewrite Qltb_lt, Z.ltb_lt. unfold Qlt. cbn. lia.
Qed.

Lemma duration_above m n :
  Qltb (inject_Z m) (inject_Z n / inject_Z 16000) = (m * 16000 <? n)%Z.
Proof.
  apply eq_true_iff_eq. rewrite Qltb_lt, Z.ltb_lt. unfold Qlt. cbn. lia.
Qed.

Section Preprocess.
Context {U : Unicode} (env : Env).
Import WhisperX.

Lemma normalize_audio_empty self w :
  fst (_normalize_audio env self [] w)
  = Raise (Exn ValueError
      (py "zero-size array to reduction operation maximum which has no identity")).
Proof. reflexivity. Qed.

Lemma normalize_audio_nonempty self audio w :
  audio <> [] ->
  (forall sr x y, sosfilt env sr x = Return y -> length y = length x) ->
  exists out, _normalize_audio env self audio w = (Return out, w)
              /\ length out = length audio.
Proof.
  intros Hne Hfilt. unfold _normalize_audio.
  remember (map (fun x => x - np_mean audio)%Q audio) as centred eqn:Hc.
  assert (Hlc : length centred = length audio) by (subst centred; apply List.length_map).
  destruct centred as [|c centred]; [destruct audio; [congruence|discriminate]|].
  cbn [map np_max]. unfold bind at 1. cbn [ret].
  match goal with
  | |- context [if ?b then ?s else ?t] =>
      remember (if b then s else t) as scaled eqn:Hs
  end.
  assert (Hls : length scaled = length audio).
  { rewrite <- Hlc. subst scaled.
    match goal with |- context [if ?b then _ else _] => destruct b end;
      [cbn [length]; now rewrite List.length_map|reflexivity]. }
  unfold bind, try_except, of_result.
  destruct (sosfilt env (target_sample_rate self) scaled) as [y|e] eqn:Hf; cbn.
  - exists y. split; [reflexivity|]. rewrite <- Hls. eapply Hfilt, Hf.
  - exists scaled. split; [reflexivity|exact Hls].
Qed.

Lemma preprocess_audio_empty self path max_duration w :
  target_sample_rate self <> 0%Z ->
  librosa_load env path (target_sample_rate self) (w_files w) = Return [] ->
  fst (_preprocess_audio env self path max_duration w)
  = Raise (Exn ValueError
      (py "zero-size array to reduction operation maximum which has no identity")).
Proof.
  intros Hsr Hload. apply Z.eqb_neq in Hsr.
  unfold _preprocess_audio, try_except, bind at 1. rewrite Hload.
  unfold bind at 1, int_div. rewrite Hsr. cbn [ret].
  unfold bind at 1.
  repeat match goal with
         | |- context [if ?b then _ else _] => destruct b
         end;
    cbn [logger bind ret]; rewrite ?slice_to_nil; reflexivity.
Qed.

Lemma firstn_nonempty {A} (n : nat) (l : list A) :
  (0 < n)%nat -> l <> [] -> firstn n l <> [].
Proof. destruct n, l; cbn; intros; [lia|lia|congruence|discriminate]. Qed.

Lemma preprocess_audio_bounded self path max_duration w audio :
  target_sample_rate self = 16000%Z ->
  min_duration self = 1 # 2 ->
  WhisperX.max_duration self = 120%Q ->
  max_duration = None \/ max_duration = Some 10%Q ->
  librosa_load env path 16000 (w_files w) = Return audio ->
  audio <> [] ->
  (forall sr x y, sosfilt env sr x = Return y -> length y = length x) ->
  let limit := match max_duration with None => 1920000%Z | Some _ => 160000%Z end in
  exists out w',
    _preprocess_audio env self path max_duration w = (Return out, w')
    /\ (len out <= limit)%Z
    /\ ((limit < len audio)%Z -> len out = limit)
    /\ ((len audio <= limit)%Z -> len out = len audio)
    /\ ((len audio < 8000)%Z ->
        w_log w' = w_log w ++ [(WARNING, py "Audio duration is below minimum")]).
Proof.
  intros Hsr Hmin Hmax Hmd Hload Hne Hfilt limit.
  assert (Hmaxdur : match max_duration with
                    | Some d => if Qeq_bool d 0 then 120%Q else d
                    | None => 120%Q
                    end = inject_Z (limit / 16000)).
  { subst limit. destruct Hmd as [-> | ->]; reflexivity. }
  assert (Hlim : limit = 1920000%Z \/ limit = 160000%Z)
    by (subst limit; destruct Hmd as [-> | ->]; auto).
  assert (Hint : py_int (inject_Z (limit / 16000) * inject_Z 16000) = limit)
    by (destruct Hlim as [-> | ->]; reflexivity).
  assert (Hpos : (0 <=? limit)%Z = true)
    by (destruct Hlim as [-> | ->]; reflexivity).
  assert (Hdiv : (limit / 16000 * 16000)%Z = limit)
    by (destruct Hlim as [-> | ->]; reflexivity).
  clearbody limit.
  unfold _preprocess_audio, try_except, bind, int_div, logger, ret, raise.
  rewrite Hsr, Hmin, Hmax, Hload, Hmaxdur. cbn [Z.eqb].
  rewrite duration_below, duration_above, Hint, Hdiv.
  destruct (len audio <? 8000)%Z eqn:Hshort;
    [|destruct (limit <? len audio)%Z eqn:Hlong].
  - apply Z.ltb_lt in Hshort.
    match goal with
    | |- context [_normalize_audio env self audio ?w0] =>
        destruct (normalize_audio_nonempty self audio w0 Hne Hfilt) as (out & -> & Hout)
    end.
    exists out. eexists. split; [reflexivity|].
    unfold len in *. rewrite Hout. cbn [w_log].
    repeat split; try lia; destruct Hlim; lia.
  - apply Z.ltb_ge in Hshort. apply Z.ltb_lt in Hlong.
    assert (Hcut : length (slice_to audio limit) = Z.to_nat limit).
    { unfold slice_to. rewrite Hpos, length_firstn.
      unfold len in Hlong. destruct Hlim; lia. }
    assert (Hne' : slice_to audio limit <> []).
    { unfold slice_to. rewrite Hpos.
      apply firstn_nonempty; [destruct Hlim; lia|assumption]. }
    match goal with
    | |- context [_normalize_audio env self ?a ?w0] =>
        destruct (normalize_audio_nonempty self a w0 Hne' Hfilt) as (out & -> & Hout)
    end.
    exists out. eexists. split; [reflexivity|].
    unfold len in *. rewrite Hout, Hcut.
    repeat split; try lia; destruct Hlim; lia.
  - apply Z.ltb_ge in Hshort. apply Z.ltb_ge in Hlong.
    match goal with
    | |- context [_normalize_audio env self audio ?w0] =>
        destruct (normalize_audio_nonempty self audio w0 Hne Hfilt) as (out & -> & Hout)
    end.
    exists out. eexists. split; [reflexivity|].
    unfold len in *. rewrite Hout.
    repeat split; try lia; destruct Hlim; lia.
Qed.

End Preprocess.

(** C5 fails on the code for an audio file without samples.  [librosa.load]
    answers with an empty array, its duration 0 is below the minimum, and
    [_normalize_audio] then takes the maximum of an empty array:
    [_preprocess_audio] raises ValueError where the claim has the short audio
    processed without an error. *)
Theorem preprocess_audio_empty_raises
    (U : Unicode) (env : Env) (self : WhisperX.WhisperXProcessor)
    (audio_path : pystr) (max_duration : option Q) (w : World) :
  WhisperX.target_sample_rate self <> 0%Z ->
  librosa_load env audio_path (WhisperX.target_sample_rate self) (w_files w) = Return [] ->
  fst (WhisperX._preprocess_audio env self audio_path max_duration w)
  = Raise (Exn ValueError
      (py "zero-size array to reduction operation maximum which has no identity")).
Proof. apply preprocess_audio_empty. Qed.

Lemma preprocess_audio_empty_raises_witness :
  fst (WhisperX._preprocess_audio (sim (setup [])) studio_processor
         (py "/tmp/empty.wav") None (world_with (py "/tmp/empty.wav") []))
  = Raise (Exn ValueError
      (py "zero-size array to reduction operation maximum which has no identity")).
Proof.
  apply (preprocess_audio_empty_raises Latin); [discriminate|reflexivity].
Defined.

(** X18.  For an audio file with at least one sample,
    loaded at 16000 Hz by a processor with the settings of [__init__], and
    with the maximum duration of [transcribe_buffer] (none given: 120 s) or
    of [detect_language] (10 s), [_preprocess_audio] returns an array of at
    most limit = int(max_dur * 16000) samples: exactly limit samples when the
    audio is longer, and as many as the audio has otherwise.  Audio of less
    than half a second (8000 samples) adds one warning to the log, and
    nothing else. *)
Theorem preprocess_audio_length
    (U : Unicode) (env : Env) (self : WhisperX.WhisperXProcessor)
    (audio_path : pystr) (max_duration : option Q) (w : World) (audio : list Q) :
  WhisperX.target_sample_rate self = 16000%Z ->
  WhisperX.min_duration self = 1 # 2 ->
  WhisperX.max_duration self = 120%Q ->
  max_duration = None \/ max_duration = Some 10%Q ->
  librosa_load env audio_path 16000 (w_files w) = Return audio ->
  audio <> [] ->
  (forall sr x y, sosfilt env sr x = Return y -> length y = length x) ->
  let limit := match max_duration with None => 1920000%Z | Some _ => 160000%Z end in
  exists out w',
    WhisperX._preprocess_audio env self audio_path max_duration w = (Return out, w')
    /\ (len out <= limit)%Z
    /\ ((limit < len audio)%Z -> len out = limit)
    /\ ((len audio <= limit)%Z -> len out = len audio)
    /\ ((len audio < 8000)%Z ->
        w_log w' = w_log w ++ [(WARNING, py "Audio duration is below minimum")]).
Proof. apply preprocess_audio_bounded. Qed.

Lemma preprocess_audio_length_witness :
  exists out w',
    WhisperX._preprocess_audio (sim (setup [])) studio_processor
      (py "/tmp/a.wav") (Some 10%Q) (world_with (py "/tmp/a.wav") [x01; x02; x03])
    = (Return out, w')
    /\ (len out <= 160000)%Z
    /\ len out = 3%Z
    /\ w_log w' = [(WARNING, py "Audio duration is below minimum")].
Proof.
  destruct (preprocess_audio_length Latin (sim (setup [])) studio_processor
              (py "/tmp/a.wav") (Some 10%Q) (world_with (py "/tmp/a.wav") [x01; x02; x03])
              [1%Q; 2%Q; 3%Q])
    as (out & w' & Hrun & Hle & _ & Hsame & Hlog); try reflexivity.
  - now right.
  - discriminate.
  - intros sr x y Hxy. cbn in Hxy. now injection Hxy as <-.
  - exists out, w'. repeat split; auto.
    + apply Hsame. vm_compute. discriminate.
    + apply Hlog. vm_compute. reflexivity.
Defined.

(** ** Temporary files *)

(** C7 fails on the code.  (1) The disk is full: [detect_language] creates
    its temporary file, the write fails before the [try ... finally] is
    entered, and the method returns its fallback dictionary while the file
    is still there.  (2) ffmpeg has begun the .wav file when it runs into its
    timeout: [synthesize] with provider "system" returns the AIFF data
    without an error, and the .wav file, which did not exist before, is still
    there. *)
Theorem temporary_files_left_behind :
  (let env := sim {| installed := []; disk_full := true; ffmpeg_hangs := false;
                     model_info := swedish_info |} in
   let run := WhisperX.detect_language env studio_processor silence (py "wav") None
                empty_world in
   (exists r, fst run = Return r
              /\ WhisperX.det_error r = Some (py "No space left on device"))
   /\ w_created (snd run) = [py "/tmp/tmp0.wav"]
   /\ w_files (snd run) !! py "/tmp/tmp0.wav" = Some [])
  /\ (let env := sim {| installed := [py "say"; py "ffmpeg"]; disk_full := false;
                        ffmpeg_hangs := true; model_info := swedish_info |} in
      let run := TTS.synthesize env (speaker (py "system")) (py "Hej") (py "wav")
                   empty_world in
      (exists r, fst run = Return r
                 /\ TTS.res_error r = None /\ TTS.res_audio_data r = speech)
      /\ w_created (snd run) = [py "/tmp/tmp0.aiff"]
      /\ w_files (snd run) !! py "/tmp/tmp0.aiff" = None
      /\ w_files empty_world !! py "/tmp/tmp0.wav" = None
      /\ w_files (snd run) !! py "/tmp/tmp0.wav" = Some [x52]).
Proof.
  split; cbv zeta.
  - split; [eexists; split; vm_compute; reflexivity|].
    split; vm_compute; reflexivity.
  - split; [eexists; repeat split; vm_compute; reflexivity|].
    repeat split; vm_compute; reflexivity.
Qed.

(** ** Temporary files are removed by the [finally] blocks *)

Lemma same_created_refl w : same_created w w.
Proof. reflexivity. Qed.

Lemma same_created_trans a b c : same_created a b -> same_created b c -> same_created a c.
Proof. unfold same_created. congruence. Qed.

Lemma unchanged_refl w : unchanged w w.
Proof. split; reflexivity. Qed.

Lemma unchanged_trans a b c : unchanged a b -> unchanged b c -> unchanged a c.
Proof. unfold unchanged. intros [? ?] [? ?]. split; congruence. Qed.

Lemma unchanged_removed a b : unchanged a b -> temps_removed a b.
Proof. intros [_ H]. exists []. rewrite app_nil_r. split; [exact H|constructor]. Qed.

Lemma unchanged_then_removed a b c : unchanged a b -> temps_removed b c -> temps_removed a c.
Proof. intros [_ H] (new & Hc & Hf). exists new. rewrite Hc, H. now split. Qed.

Lemma removed_then_unchanged a b c : temps_removed a b -> unchanged b c -> temps_removed a c.
Proof.
  intros (new & Hc & Hf) [Hfiles Hcr]. exists new. rewrite Hcr, Hfiles. now split.
Qed.

Ltac same_world :=
  let w := fresh "w" in
  intros w;
  repeat match goal with
         | |- context [match ?x with _ => _ end] => destruct x
         end;
  first [reflexivity | split; reflexivity].

Section Created.
Context {U : Unicode} (env : Env).

Lemma created_logger l msg : keeps same_created (logger l msg).
Proof. same_world. Qed.

Lemma created_time_time : keeps same_created (time_time env).
Proof. same_world. Qed.

Lemma created_subprocess_run cmd stdin : keeps same_created (subprocess_run env cmd stdin).
Proof. unfold subprocess_run. same_world. Qed.

Lemma created_read_file p : keeps same_created (read_file p).
Proof. unfold read_file. same_world. Qed.

Lemma created_os_unlink p : keeps same_created (os_unlink p).
Proof. unfold os_unlink. same_world. Qed.

Lemma created_int_div a b : keeps same_created (WhisperX.int_div a b).
Proof. unfold WhisperX.int_div, raise, ret. same_world. Qed.

Lemma created_float_div a b : keeps same_created (WhisperX.float_div a b).
Proof. unfold WhisperX.float_div, raise, ret. same_world. Qed.

Lemma created_getattr self name : keeps same_created (WhisperX.getattr self name).
Proof. unfold WhisperX.getattr, raise, ret. same_world. Qed.

Lemma created_np_max a : keeps same_created (WhisperX.np_max a).
Proof. unfold WhisperX.np_max, raise, ret. same_world. Qed.

Lemma created_model_transcribe audio options :
  keeps same_created (model_transcribe env audio options).
Proof. same_world. Qed.

Lemma unchanged_logger l msg : keeps unchanged (logger l msg).
Proof. same_world. Qed.

Lemma unchanged_time_time : keeps unchanged (time_time env).
Proof. same_world. Qed.

Lemma unchanged_getattr self name : keeps unchanged (WhisperX.getattr self name).
Proof. unfold WhisperX.getattr, raise, ret. same_world. Qed.

(** The [finally] block never raises and leaves no file at [p]. *)
Lemma unlink_if_exists_removes p w :
  exists w', unlink_if_exists p w = (Return tt, w')
             /\ w_created w' = w_created w /\ w_files w' !! p = None.
Proof.
  unfold unlink_if_exists, bind, os_path_exists, os_unlink, ret.
  destruct (w_files w !! p) as [data|] eqn:Hp.
  - rewrite bool_decide_eq_true_2 by eauto. rewrite Hp.
    eexists. split; [reflexivity|]. split; [reflexivity|]. cbn. apply lookup_delete_eq.
  - rewrite bool_decide_eq_false_2 by (intros [x Hx]; congruence).
    eexists. split; [reflexivity|]. now split.
Qed.

(** [with NamedTemporaryFile(...)] followed by [try: body finally: unlink]. *)
Lemma with_temp_file {A} suffix (body : pystr -> M A) :
  (forall p, keeps same_created (body p)) ->
  keeps temps_removed
    (temp_path <- NamedTemporaryFile env suffix ;;
     try_finally (body temp_path) (unlink_if_exists temp_path)).
Proof.
  intros Hbody w. unfold bind, NamedTemporaryFile.
  destruct (mkstemp env suffix (w_files w)) as [p|e]; cbn [snd];
    [|apply unchanged_removed, unchanged_refl].
  unfold try_finally.
  match goal with
  | |- context [body p ?w1] =>
      pose proof (Hbody p w1) as Hb; destruct (body p w1) as [r w2]
  end.
  destruct (unlink_if_exists_removes p w2) as (w3 & -> & Hc & Hf).
  cbn [snd] in *. exists [p]. unfold same_created in Hb. cbn in Hb.
  rewrite Hc, Hb. split; [reflexivity|]. now constructor.
Qed.

(** The same with the buffer written to the file first, when the write
    succeeds. *)
Lemma with_written_temp_file {A} suffix data (body : pystr -> M A) :
  (forall p d f, write_error env p d f = None) ->
  (forall p, keeps same_created (body p)) ->
  keeps temps_removed
    (temp_path <- NamedTemporaryFile env suffix ;;
     write_close env temp_path data ;;;
     try_finally (body temp_path) (unlink_if_exists temp_path)).
Proof.
  intros Hwrite Hbody w. unfold bind, NamedTemporaryFile, write_close.
  destruct (mkstemp env suffix (w_files w)) as [p|e]; cbn [snd];
    [|apply unchanged_removed, unchanged_refl].
  rewrite Hwrite. unfold try_finally.
  match goal with
  | |- context [body p ?w1] =>
      pose proof (Hbody p w1) as Hb; destruct (body p w1) as [r w2]
  end.
  destruct (unlink_if_exists_removes p w2) as (w3 & -> & Hc & Hf).
  cbn [snd] in *. exists [p]. unfold same_created in Hb. cbn in Hb.
  rewrite Hc, Hb. split; [reflexivity|]. now constructor.
Qed.

End Created.

Create HintDb created.
#[local] Hint Resolve created_logger created_time_time created_subprocess_run
  created_read_file created_os_unlink created_int_div created_float_div
  created_getattr created_np_max created_model_transcribe : created.

Ltac created_step :=
  keeps_step same_created_refl same_created_trans ltac:(auto with created).

Section Removed.
Context {U : Unicode} (env : Env).

Lemma created_normalize_audio self audio :
  keeps same_created (WhisperX._normalize_audio env self audio).
Proof. unfold WhisperX._normalize_audio. repeat created_step. Qed.

Lemma created_preprocess_audio self path max_duration :
  keeps same_created (WhisperX._preprocess_audio env self path max_duration).
Proof.
  unfold WhisperX._preprocess_audio.
  repeat first [apply created_normalize_audio | created_step].
Qed.

Lemma created_score_languages langs n detected p acc :
  keeps same_created (WhisperX.score_languages langs n detected p acc).
Proof.
  revert acc. induction langs as [|lang langs IH]; intros acc;
    cbn [WhisperX.score_languages].
  - created_step.
  - repeat first [apply IH | created_step].
Qed.

Lemma removed_synthesize_with_piper text output_format :
  keeps temps_removed (TTS._synthesize_with_piper env text output_format).
Proof. apply with_temp_file. intros p. repeat created_step. Qed.

Lemma removed_synthesize_with_espeak text output_format :
  keeps temps_removed (TTS._synthesize_with_espeak env text output_format).
Proof. apply with_temp_file. intros p. repeat created_step. Qed.

Lemma removed_synthesize_with_system text output_format :
  keeps temps_removed (TTS._synthesize_with_system env text output_format).
Proof. apply with_temp_file. intros p. repeat created_step. Qed.

End Removed.

(** X9.  Every file that [synthesize] makes with
    [tempfile.NamedTemporaryFile] is gone when it returns; so are the files
    of [detect_language] and of [transcribe_buffer] in an environment where
    writing the buffer to the file succeeds. *)
Theorem temporary_files_removed
    (U : Unicode) (env : Env) (speaker : TTS.TTSProcessor)
    (listener : WhisperX.WhisperXProcessor) (text format : pystr)
    (audio_buffer : list byte) (supported_languages : option (list pystr))
    (target_language : option pystr) (w : World) :
  temps_removed w (snd (TTS.synthesize env speaker text format w))
  /\ ((forall p d f, write_error env p d f = None) ->
      temps_removed w
        (snd (WhisperX.detect_language env listener audio_buffer format
                supported_languages w))
      /\ temps_removed w
           (snd (WhisperX.transcribe_buffer env listener audio_buffer format
                   target_language w))).
Proof.
  split.
  - revert w. change (keeps temps_removed (TTS.synthesize env speaker text format)).
    unfold TTS.synthesize.
    apply (keeps_bind unchanged temps_removed temps_removed
             unchanged_then_removed unchanged_removed);
      [apply unchanged_time_time|intros start_time].
    apply (keeps_try_except temps_removed unchanged temps_removed
             removed_then_unchanged (fun _ _ H => H)).
    + apply (keeps_bind unchanged temps_removed temps_removed
               unchanged_then_removed unchanged_removed).
      { destruct (_ || _); [apply keeps_raise|apply keeps_ret]; exact unchanged_refl. }
      intros _.
      apply (keeps_bind temps_removed unchanged temps_removed
               removed_then_unchanged (fun _ _ H => H)).
      * repeat match goal with
               | |- keeps _ (if ?b then _ else _) => destruct b
               end;
          [ apply removed_synthesize_with_piper
          | apply removed_synthesize_with_espeak
          | apply removed_synthesize_with_system
          | apply keeps_raise; intros w; apply unchanged_removed, unchanged_refl ].
      * intros audio_data.
        repeat keeps_step unchanged_refl unchanged_trans
                 ltac:(first [apply unchanged_time_time | apply unchanged_logger]).
    + intros e.
      repeat keeps_step unchanged_refl unchanged_trans
               ltac:(first [apply unchanged_time_time | apply unchanged_logger]).
  - intros Hwrite. split; revert w.
    1: change (keeps temps_removed
                 (WhisperX.detect_language env listener audio_buffer format
                    supported_languages)).
    2: change (keeps temps_removed
                 (WhisperX.transcribe_buffer env listener audio_buffer format
                    target_language)).
    all: unfold WhisperX.detect_language, WhisperX.transcribe_buffer.
    all:
      (apply (keeps_bind unchanged temps_removed temps_removed
                unchanged_then_removed unchanged_removed);
         [apply unchanged_time_time|intros start_time];
       apply (keeps_try_except temps_removed unchanged temps_removed
                removed_then_unchanged (fun _ _ H => H));
         [ apply (keeps_bind unchanged temps_removed temps_removed
                    unchanged_then_removed unchanged_removed);
             [ destruct (WhisperX.too_small _); [apply keeps_raise|apply keeps_ret];
                 exact unchanged_refl
             | intros _; apply with_written_temp_file; [exact Hwrite|]; intros p;
               repeat first [ apply created_preprocess_audio
                            | apply created_score_languages
                            | created_step ] ]
         | intros e;
           repeat keeps_step unchanged_refl unchanged_trans
                    ltac:(first [ apply unchanged_time_time
                                | apply unchanged_logger
                                | apply unchanged_getattr ]) ]).
Qed.

(** ** Rules for [returns] and [raises] *)

Lemma returns_ret {A} (P : A -> Prop) a : P a -> returns P (ret a).
Proof. intros H w b w' E. injection E as <- _. exact H. Qed.

Lemma returns_raise {A} (P : A -> Prop) e : returns P (raise e).
Proof. intros w b w' E. discriminate E. Qed.

Lemma returns_bind {A B} (Q : A -> Prop) (P : B -> Prop) (m : M A) (k : A -> M B) :
  returns Q m -> (forall a, Q a -> returns P (k a)) -> returns P (bind m k).
Proof.
  intros Hm Hk w b w' E. apply bind_inv in E as (a & w1 & Ha & E).
  eapply Hk; [eapply Hm, Ha|exact E].
Qed.

Lemma returns_any {A} (m : M A) : returns (fun _ => True) m.
Proof. intros w a w' _. exact I. Qed.

Lemma returns_then {A B} (P : B -> Prop) (m : M A) (k : A -> M B) :
  (forall a, returns P (k a)) -> returns P (bind m k).
Proof. intros Hk. apply (returns_bind (fun _ => True)); [apply returns_any|auto]. Qed.

Lemma returns_try_except {A} (P : A -> Prop) (m : M A) (h : exn -> M A) :
  returns P m -> (forall e, returns P (h e)) -> returns P (try_except m h).
Proof.
  intros Hm Hh w a w' E. apply try_except_inv in E as [E | (e & w1 & _ & E)].
  - eapply Hm, E.
  - eapply Hh, E.
Qed.

Lemma returns_try_finally {A} (P : A -> Prop) (m : M A) (fin : M unit) :
  returns P m -> returns P (try_finally m fin).
Proof.
  intros Hm w a w' E. apply try_finally_inv in E as (w1 & E & _). eapply Hm, E.
Qed.

Lemma returns_weaken {A} (P Q : A -> Prop) (m : M A) :
  (forall a, P a -> Q a) -> returns P m -> returns Q m.
Proof. intros H Hm w a w' E. eapply H, Hm, E. Qed.

Lemma raises_ret {A} (C : exn -> Prop) (a : A) : raises C (ret a).
Proof. intros w e w' E. discriminate E. Qed.

Lemma raises_raise {A} (C : exn -> Prop) e : C e -> raises C (@raise A e).
Proof. intros H w e' w' E. injection E as <- _. exact H. Qed.

Lemma raises_bind {A B} (C : exn -> Prop) (m : M A) (k : A -> M B) :
  raises C m -> (forall a, raises C (k a)) -> raises C (bind m k).
Proof.
  intros Hm Hk w e w' E. unfold bind in E.
  destruct (m w) as [[a|e1] w1] eqn:Hmw.
  - eapply Hk, E.
  - injection E as <- _. eapply Hm, Hmw.
Qed.

Lemma raises_try_except {A} (C : exn -> Prop) (m : M A) (h : exn -> M A) :
  (forall e, raises C (h e)) -> raises C (try_except m h).
Proof.
  intros Hh w e w' E. unfold try_except in E.
  destruct (m w) as [[a|e1] w1]; [discriminate|]. eapply Hh, E.
Qed.

Lemma raises_try_finally {A} (C : exn -> Prop) (m : M A) (fin : M unit) :
  raises C m -> raises C fin -> raises C (try_finally m fin).
Proof.
  intros Hm Hf w e w' E. unfold try_finally in E.
  destruct (m w) as [r w1] eqn:Hmw. destruct (fin w1) as [[u|e1] w2] eqn:Hfw.
  - injection E as -> _. eapply Hm, Hmw.
  - injection E as <- _. eapply Hf, Hfw.
Qed.

Lemma raises_quiet {A} (C : exn -> Prop) (m : M A) : never_raises m -> raises C m.
Proof. intros H w e w' E. destruct (H w e w' E). Qed.

Lemma never_raises_total {A} (m : M A) :
  never_raises m -> forall w, exists a w', m w = (Return a, w').
Proof.
  intros H w. destruct (m w) as [[a|e] w'] eqn:E; [eauto|]. destruct (H w e w' E).
Qed.

Lemma never_raises_logger l msg : never_raises (logger l msg).
Proof. intros w e w' E. discriminate E. Qed.

Lemma never_raises_time_time env : never_raises (time_time env).
Proof. intros w e w' E. discriminate E. Qed.

(** One step through a method for [returns]: the steps before the last one
    are passed over, the branches are split. *)
Ltac returns_step :=
  match goal with
  | |- returns _ (bind _ _) => apply returns_then; intro
  | |- returns _ (try_except _ _) => apply returns_try_except; [ | intro]
  | |- returns _ (try_finally _ _) => apply returns_try_finally
  | |- returns _ (raise _) => apply returns_raise
  | |- returns _ (let _ := _ in _) => cbv zeta
  | |- returns _ (if ?b then _ else _) => destruct b eqn:?
  | |- returns _ (match ?x with _ => _ end) => destruct x eqn:?
  end.

(** One step for [never_raises], through operations that raise nothing. *)
Ltac quiet_step :=
  match goal with
  | |- never_raises (bind _ _) => apply raises_bind; [ | intro]
  | |- raises _ (bind _ _) => apply raises_bind; [ | intro]
  | |- never_raises (ret _) => apply raises_ret
  | |- raises _ (ret _) => apply raises_ret
  | |- never_raises (logger _ _) => apply never_raises_logger
  | |- raises _ (logger _ _) => apply raises_quiet, never_raises_logger
  | |- never_raises (time_time _) => apply never_raises_time_time
  | |- raises _ (time_time _) => apply raises_quiet, never_raises_time_time
  end.


(** ** The clock, the log and the model calls of a method *)

Lemma steady_refl w : steady w w.
Proof. split; reflexivity. Qed.

Lemma steady_trans a b c : steady a b -> steady b c -> steady a c.
Proof. unfold steady. intros [? ?] [? ?]. split; congruence. Qed.

Lemma quiet_refl w : quiet w w.
Proof. repeat split; reflexivity. Qed.

Lemma quiet_trans a b c : quiet a b -> quiet b c -> quiet a c.
Proof. unfold quiet. intros (? & ? & ?) (? & ? & ?). repeat split; congruence. Qed.

Lemma quiet_steady a b : quiet a b -> steady a b.
Proof. intros (? & ? & ?). now split. Qed.

(** The operations on files and the pure operations. *)
Ltac frame_prim :=
  let w := fresh "w" in
  intros w;
  unfold NamedTemporaryFile, write_close, subprocess_run, read_file, os_unlink,
    os_path_exists, logger, WhisperX.int_div, WhisperX.float_div, WhisperX.getattr,
    WhisperX.np_max, WhisperX.of_result, raise, ret;
  repeat match goal with
         | |- context [match ?x with _ => _ end] => destruct x
         | |- context [let '(_, _) := ?x in _] => destruct x
         end;
  repeat split; reflexivity.

Ltac steady_step := keeps_step steady_refl steady_trans ltac:(frame_prim).
Ltac quiet_frame_step := keeps_step quiet_refl quiet_trans ltac:(frame_prim).

Section Frames.
Context {U : Unicode} (env : Env).

Lemma quiet_unlink_if_exists p : keeps quiet (unlink_if_exists p).
Proof. unfold unlink_if_exists. repeat quiet_frame_step. Qed.

Lemma quiet_synthesize_with_piper text output_format :
  keeps quiet (TTS._synthesize_with_piper env text output_format).
Proof.
  unfold TTS._synthesize_with_piper.
  repeat first [apply quiet_unlink_if_exists | quiet_frame_step].
Qed.

Lemma quiet_synthesize_with_espeak text output_format :
  keeps quiet (TTS._synthesize_with_espeak env text output_format).
Proof.
  unfold TTS._synthesize_with_espeak.
  repeat first [apply quiet_unlink_if_exists | quiet_frame_step].
Qed.

Lemma quiet_synthesize_with_system text output_format :
  keeps quiet (TTS._synthesize_with_system env text output_format).
Proof.
  unfold TTS._synthesize_with_system.
  repeat first [apply quiet_unlink_if_exists | quiet_frame_step].
Qed.

Lemma steady_unlink_if_exists p : keeps steady (unlink_if_exists p).
Proof. intros w. apply quiet_steady, quiet_unlink_if_exists. Qed.

Lemma steady_normalize_audio self audio :
  keeps steady (WhisperX._normalize_audio env self audio).
Proof. unfold WhisperX._normalize_audio. repeat steady_step. Qed.

Lemma steady_preprocess_audio self path max_duration :
  keeps steady (WhisperX._preprocess_audio env self path max_duration).
Proof.
  unfold WhisperX._preprocess_audio.
  repeat first [apply steady_normalize_audio | steady_step].
Qed.

Lemma steady_score_languages langs n detected p acc :
  keeps steady (WhisperX.score_languages langs n detected p acc).
Proof.
  revert acc. induction langs as [|lang langs IH]; intros acc;
    cbn [WhisperX.score_languages].
  - steady_step.
  - repeat first [apply IH | steady_step].
Qed.

End Frames.

(** The relation that a step, known to end in [w'], keeps. *)
Ltac frame_of H lemma :=
  match type of H with
  | ?m ?w = (_, ?w') =>
      let F := fresh "F" in
      eassert (F : keeps _ m) by (apply lemma);
      unfold keeps in F; specialize (F w); rewrite H in F; cbn [snd] in F
  end.


(** ** The provider of a constructed [TTSProcessor] *)

Section ProviderInvariant.
Context (env : Env).

Lemma initialize_system_returns self :
  returns (fun s => s = TTS.set_system_available self) (TTS._initialize_system env self).
Proof.
  unfold TTS._initialize_system, try_except_in. repeat returns_step.
  now apply returns_ret.
Qed.

Lemma initialize_espeak_returns self :
  returns (fun s => s = TTS.set_espeak_available self
                    \/ s = TTS.set_system_available (TTS.set_provider (py "system") self))
    (TTS._initialize_espeak env self).
Proof.
  unfold TTS._initialize_espeak, try_except_in.
  repeat first
    [ eapply returns_weaken; [|apply initialize_system_returns]; cbv beta; now auto
    | returns_step ].
  apply returns_ret. now left.
Qed.

Lemma initialize_piper_returns self :
  returns (fun s => s = TTS.set_piper_available self
                    \/ s = TTS.set_espeak_available (TTS.set_provider (py "espeak") self)
                    \/ s = TTS.set_system_available
                             (TTS.set_provider (py "system")
                                (TTS.set_provider (py "espeak") self)))
    (TTS._initialize_piper env self).
Proof.
  unfold TTS._initialize_piper, try_except_in.
  repeat first
    [ eapply returns_weaken; [|apply initialize_espeak_returns]; cbv beta;
      intros ? [-> | ->]; now auto
    | returns_step ].
  apply returns_ret. now left.
Qed.

Lemma init_returns provider voice device :
  returns
    (fun self =>
       ((provider = py "piper"
         /\ TTS.provider self = py "piper" /\ TTS.piper_available self = Some true)
        \/ ((provider = py "piper" \/ provider = py "espeak")
            /\ TTS.provider self = py "espeak" /\ TTS.espeak_available self = Some true)
        \/ (known_provider provider
            /\ TTS.provider self = py "system" /\ TTS.system_available self = Some true))
       /\ TTS.voice self = voice /\ TTS.device self = device
       /\ TTS.sample_rate self = 22050%Z /\ TTS.channels self = 1%Z
       /\ TTS.bit_depth self = 16%Z)
    (TTS.__init__ env provider voice device).
Proof.
  unfold TTS.__init__, TTS._initialize_provider. cbv zeta. apply returns_then. intros _.
  cbn [TTS.provider]. unfold known_provider.
  destruct (pystr_eqb provider (py "piper")) eqn:E1;
    [|destruct (pystr_eqb provider (py "espeak")) eqn:E2;
      [|destruct (pystr_eqb provider (py "system")) eqn:E3; [|apply returns_raise]]];
    repeat match goal with
           | H : pystr_eqb _ _ = true |- _ => apply pystr_eqb_eq in H
           end.
  - eapply returns_weaken; [|apply initialize_piper_returns].
    cbv beta. intros s [-> | [-> | ->]]; cbn; auto 10.
  - eapply returns_weaken; [|apply initialize_espeak_returns].
    cbv beta. intros s [-> | ->]; cbn; auto 10.
  - eapply returns_weaken; [|apply initialize_system_returns].
    cbv beta. intros s ->; cbn; auto 10.
Qed.

End ProviderInvariant.

(** X1.  A constructed [TTSProcessor] has a provider whose check has
    passed: its provider is "piper", "espeak" or "system", the matching
    [*_available] attribute is True, and the provider is the requested one
    or one that comes after it in the order piper, espeak, system.  Voice
    and device are the ones given, and the audio settings are 22050 Hz, one
    channel, 16 bits. *)
Theorem constructed_provider_checked
    (env : Env) (provider voice device : pystr) (w w' : World)
    (self : TTS.TTSProcessor) :
  TTS.__init__ env provider voice device w = (Return self, w') ->
  ((provider = py "piper"
    /\ TTS.provider self = py "piper" /\ TTS.piper_available self = Some true)
   \/ ((provider = py "piper" \/ provider = py "espeak")
       /\ TTS.provider self = py "espeak" /\ TTS.espeak_available self = Some true)
   \/ (known_provider provider
       /\ TTS.provider self = py "system" /\ TTS.system_available self = Some true))
  /\ TTS.voice self = voice /\ TTS.device self = device
  /\ TTS.sample_rate self = 22050%Z /\ TTS.channels self = 1%Z
  /\ TTS.bit_depth self = 16%Z.
Proof. apply init_returns. Qed.

Lemma constructed_provider_checked_witness :
  exists self w',
    TTS.__init__ (sim (setup [py "say"])) (py "espeak") (py "swedish_female")
      (py "auto") empty_world = (Return self, w')
    /\ TTS.provider self = py "system"
    /\ TTS.system_available self = Some true.
Proof.
  eexists. eexists. split; [reflexivity|].
  destruct (constructed_provider_checked (sim (setup [py "say"])) (py "espeak")
              (py "swedish_female") (py "auto") empty_world _ _ eq_refl)
    as [[(_ & H & _) | [(_ & H & _) | (_ & H1 & H2)]] _];
    [discriminate H | discriminate H | split; assumption].
Defined.


(** ** The exceptions of the construction of a [TTSProcessor] *)

Lemma raises_try_except_from {A} (C0 C : exn -> Prop) (m : M A) (h : exn -> M A) :
  raises C0 m -> (forall e, C0 e -> raises C (h e)) -> raises C (try_except m h).
Proof.
  intros Hm Hh w e w' E. unfold try_except in E.
  destruct (m w) as [[a|e1] w1] eqn:Hmw; [discriminate|].
  eapply Hh; [eapply Hm, Hmw|exact E].
Qed.

Lemma raises_weaken {A} (C C' : exn -> Prop) (m : M A) :
  (forall e, C e -> C' e) -> raises C m -> raises C' m.
Proof. intros H Hm w e w' E. eapply H, Hm, E. Qed.

Section ConstructionErrors.
Context (env : Env).

Lemma raises_subprocess_run cmd stdin :
  raises (raised_by_run env) (subprocess_run env cmd stdin).
Proof.
  intros w e w' E. unfold subprocess_run in E.
  destruct (run env cmd stdin (w_files w)) as [r f] eqn:Hr.
  injection E as -> _. now exists cmd, stdin, (w_files w), f.
Qed.

(** The exceptions that leave the check of a provider, [fallback] being
    what the except clause does. *)
Lemma raises_check cmd (msg : pystr) (ok : M TTS.TTSProcessor)
    (fallback : exn -> M TTS.TTSProcessor) (C : exn -> Prop) :
  never_raises ok ->
  (forall e, raised_by_run env e ->
             existsb (issubclass (exn_cls e)) TTS.unavailable = false -> C e) ->
  (forall e, raises C (fallback e)) ->
  raises C
    (try_except_in
       (result <- subprocess_run env cmd None ;;
        if (returncode result =? 0)%Z then ok
        else raise (Exn RuntimeError msg))
       TTS.unavailable fallback).
Proof.
  intros Hok Hrun Hfb. unfold try_except_in.
  apply (raises_try_except_from
           (fun e => raised_by_run env e \/ exn_cls e = RuntimeError)).
  - apply raises_bind.
    + eapply raises_weaken; [|apply raises_subprocess_run]. auto.
    + intros result. destruct (returncode result =? 0)%Z.
      * apply raises_quiet, Hok.
      * apply raises_raise. now right.
  - intros e He. destruct (existsb _ _) eqn:Hcls; [apply Hfb|].
    apply raises_raise. destruct He as [He | He]; [now apply Hrun|].
    rewrite He in Hcls. discriminate Hcls.
Qed.

Lemma ok_quiet l msg (self : TTS.TTSProcessor) :
  never_raises (logger l msg ;;; ret self).
Proof. repeat quiet_step. Qed.

Lemma raises_initialize_system provider self :
  raises (construction_error env provider) (TTS._initialize_system env self).
Proof.
  unfold TTS._initialize_system. apply raises_check.
  - apply ok_quiet.
  - intros e H1 H2. right. right. now split.
  - intros e. apply raises_bind; [apply raises_quiet, never_raises_logger|].
    intros _. apply raises_raise. right. now left.
Qed.

Lemma raises_initialize_espeak provider self :
  raises (construction_error env provider) (TTS._initialize_espeak env self).
Proof.
  unfold TTS._initialize_espeak. apply raises_check.
  - apply ok_quiet.
  - intros e H1 H2. right. right. now split.
  - intros e. apply raises_bind; [apply raises_quiet, never_raises_logger|].
    intros _. apply raises_initialize_system.
Qed.

Lemma raises_initialize_piper provider self :
  raises (construction_error env provider) (TTS._initialize_piper env self).
Proof.
  unfold TTS._initialize_piper. apply raises_check.
  - apply ok_quiet.
  - intros e H1 H2. right. right. now split.
  - intros e. apply raises_bind; [apply raises_quiet, never_raises_logger|].
    intros _. apply raises_initialize_espeak.
Qed.

End ConstructionErrors.

(** X2.  The construction of a [TTSProcessor] raises in three cases only.
    A provider name other than "piper", "espeak" and "system" gives the
    ValueError "Unsupported TTS provider: <name>".  When no provider is left
    to fall back to, the RuntimeError "No TTS providers available".  And an
    exception of a provider's check that is neither FileNotFoundError nor
    TimeoutExpired nor RuntimeError (a PermissionError, say) is not caught:
    it ends the construction, without a fallback to the next provider. *)
Theorem construction_errors
    (env : Env) (provider voice device : pystr) (w w' : World) (e : exn) :
  TTS.__init__ env provider voice device w = (Raise e, w') ->
  (~ known_provider provider
   /\ e = Exn ValueError (py "Unsupported TTS provider: " ++ provider))
  \/ e = Exn RuntimeError (py "No TTS providers available")
  \/ (raised_by_run env e
      /\ existsb (issubclass (exn_cls e)) TTS.unavailable = false).
Proof.
  revert w e w'.
  change (raises (construction_error env provider)
            (TTS.__init__ env provider voice device)).
  unfold TTS.__init__, TTS._initialize_provider. cbv zeta.
  apply raises_bind; [apply raises_quiet, never_raises_logger|intros _].
  cbn [TTS.provider].
  destruct (pystr_eqb provider (py "piper")) eqn:E1;
    [apply raises_initialize_piper|].
  destruct (pystr_eqb provider (py "espeak")) eqn:E2;
    [apply raises_initialize_espeak|].
  destruct (pystr_eqb provider (py "system")) eqn:E3;
    [apply raises_initialize_system|].
  apply raises_raise. left. split; [|reflexivity].
  intros [-> | [-> | ->]]; discriminate.
Qed.

Lemma construction_errors_witness :
  (~ known_provider (py "Piper")
   /\ Exn ValueError (py "Unsupported TTS provider: Piper")
      = Exn ValueError (py "Unsupported TTS provider: " ++ py "Piper"))
  \/ Exn ValueError (py "Unsupported TTS provider: Piper")
     = Exn RuntimeError (py "No TTS providers available")
  \/ (raised_by_run (sim (setup []))
        (Exn ValueError (py "Unsupported TTS provider: Piper"))
      /\ existsb (issubclass ValueError) TTS.unavailable = false).
Proof.
  exact (construction_errors (sim (setup [])) (py "Piper") (py "swedish_female")
           (py "auto") empty_world _ _ eq_refl).
Defined.


(** ** [synthesize] always returns *)

Section SynthesizeOutcome.
Context {U : Unicode} (env : Env).

Lemma has_text_strip s : strip s <> [] -> has_text s = true.
Proof.
  intros H. destruct (has_text s) eqn:E; [reflexivity|].
  elim H. now apply strip_blank.
Qed.

Lemma synthesize_quiet self text output_format :
  never_raises (TTS.synthesize env self text output_format).
Proof.
  unfold TTS.synthesize. apply raises_bind; [apply never_raises_time_time|intros t].
  apply raises_try_except. intros e. repeat quiet_step.
Qed.

Lemma synthesize_shape self text output_format :
  returns
    (fun r =>
       (TTS.res_error r = None
        /\ has_text text = true
        /\ known_provider (TTS.provider self)
        /\ TTS.res_text r = TTS._prepare_text_for_swedish (strip text)
        /\ TTS.res_word_count r = Some (len (split (TTS.res_text r)))
        /\ TTS.res_text_length r = Some (len (TTS.res_text r))
        /\ TTS.res_format r = Some output_format
        /\ TTS.res_provider r = TTS.provider self)
       \/ (exists msg, TTS.res_error r = Some msg)
          /\ TTS.res_audio_data r = []
          /\ TTS.res_text r = text
          /\ TTS.res_provider r = TTS.provider self)
    (TTS.synthesize env self text output_format).
Proof.
  unfold TTS.synthesize. apply returns_then. intros start_time.
  apply returns_try_except.
  - apply (returns_bind (fun _ => has_text text = true)).
    + destruct (_ || _) eqn:Hc; [apply returns_raise|].
      intros w a w' _. apply orb_false_iff in Hc as [_ Hc].
      apply has_text_strip. now destruct (strip text).
    + intros _ Ht. cbv zeta.
      apply (returns_bind (fun _ => known_provider (TTS.provider self))).
      * unfold known_provider.
        repeat match goal with
               | |- returns _ (if ?b then _ else _) => destruct b eqn:?
               end;
          try apply returns_raise; intros w a w' _;
          repeat match goal with
                 | H : pystr_eqb _ _ = true |- _ => apply pystr_eqb_eq in H
                 end; auto.
      * intros audio_data Hr. repeat returns_step.
        apply returns_ret. left. repeat split; auto.
  - intros e. repeat returns_step. apply returns_ret. right.
    repeat split; eauto.
Qed.

End SynthesizeOutcome.

(** X3.  [synthesize] raises nothing, whatever the text, the provider and
    the environment: it returns a dictionary.  Either the dictionary has no
    "error" entry, and then the text had a character that is not whitespace,
    the provider is one of the three, and "text" is the prepared text whose
    words and characters "word_count" and "text_length" count; or it has an
    "error" entry, empty audio data and the text as it was given. *)
Theorem synthesize_always_returns
    (U : Unicode) (env : Env) (self : TTS.TTSProcessor)
    (text output_format : pystr) (w : World) :
  exists r w',
    TTS.synthesize env self text output_format w = (Return r, w')
    /\ ((TTS.res_error r = None
         /\ has_text text = true
         /\ known_provider (TTS.provider self)
         /\ TTS.res_text r = TTS._prepare_text_for_swedish (strip text)
         /\ TTS.res_word_count r = Some (len (split (TTS.res_text r)))
         /\ TTS.res_text_length r = Some (len (TTS.res_text r))
         /\ TTS.res_format r = Some output_format
         /\ TTS.res_provider r = TTS.provider self)
        \/ (exists msg, TTS.res_error r = Some msg)
           /\ TTS.res_audio_data r = []
           /\ TTS.res_text r = text
           /\ TTS.res_provider r = TTS.provider self).
Proof.
  destruct (never_raises_total _ (synthesize_quiet env self text output_format) w)
    as (r & w' & E).
  exists r, w'. split; [exact E|]. exact (synthesize_shape env self text output_format w r w' E).
Qed.


Section SynthesizeEffects.
Context {U : Unicode} (env : Env).

Lemma quiet_provider_method self text output_format :
  keeps quiet
    (if pystr_eqb (TTS.provider self) (py "piper") then
       TTS._synthesize_with_piper env text output_format
     else if pystr_eqb (TTS.provider self) (py "espeak") then
       TTS._synthesize_with_espeak env text output_format
     else if pystr_eqb (TTS.provider self) (py "system") then
       TTS._synthesize_with_system env text output_format
     else raise (Exn ValueError (py "Unknown provider: " ++ TTS.provider self))).
Proof.
  repeat match goal with
         | |- keeps _ (if ?b then _ else _) => destruct b
         end;
    [ apply quiet_synthesize_with_piper
    | apply quiet_synthesize_with_espeak
    | apply quiet_synthesize_with_system
    | apply keeps_raise, quiet_refl ].
Qed.

End SynthesizeEffects.

(** X4.  Every call of [synthesize] reads the clock twice, calls no speech
    model and logs one message: "TTS synthesis completed" at level INFO when
    the result has no "error", "TTS synthesis failed" at level ERROR when it
    has one.  The "duration" of the result is the second reading of the
    clock minus the first one: the provider's method reads no clock. *)
Theorem synthesize_effects
    (U : Unicode) (env : Env) (self : TTS.TTSProcessor)
    (text output_format : pystr) (w : World) :
  exists r w',
    TTS.synthesize env self text output_format w = (Return r, w')
    /\ w_ticks w' = S (S (w_ticks w))
    /\ w_calls w' = w_calls w
    /\ TTS.res_duration r
       = (time_at env (S (w_ticks w)) - time_at env (w_ticks w))%Q
    /\ w_log w'
       = w_log w ++ [match TTS.res_error r with
                     | None => (INFO, py "TTS synthesis completed")
                     | Some _ => (ERROR, py "TTS synthesis failed")
                     end].
Proof.
  unfold TTS.synthesize. unfold bind at 1, time_time, try_except.
  unfold bind at 1.
  destruct (_ || _).
  - cbn. eexists. eexists. split; [reflexivity|]. cbn. repeat split.
  - cbn [ret]. cbv zeta. unfold bind at 1.
    match goal with
    | |- context [(if pystr_eqb (TTS.provider self) (py "piper") then ?a else ?b) ?w0] =>
        pose proof (quiet_provider_method env self
                      (TTS._prepare_text_for_swedish (strip text)) output_format w0)
          as F;
        destruct ((if pystr_eqb (TTS.provider self) (py "piper") then a else b) w0)
          as [[audio|e] w2]
    end; cbn [snd] in F; destruct F as (Ft & Fc & Fl); cbn in Ft, Fc, Fl.
    + cbn. eexists. eexists. split; [reflexivity|]. cbn.
      rewrite Ft, Fc, Fl. repeat split.
    + cbn. eexists. eexists. split; [reflexivity|]. cbn.
      rewrite Ft, Fc, Fl. repeat split.
Qed.


(** ** [str.replace] and the prepared text *)

Lemma replace_from_skip (old new s : pystr) (skip : nat) :
  replace_from old new s skip = replace_from old new (skipn skip s) 0.
Proof.
  revert skip. induction s as [|c s IH]; intros [|k]; try reflexivity.
  cbn [replace_from skipn]. apply IH.
Qed.

Lemma startswith_app (s p : pystr) :
  startswith s p = true -> s = p ++ skipn (length p) s.
Proof.
  revert s. induction p as [|x p IH]; intros [|y s] H; try reflexivity;
    try discriminate.
  cbn in H. apply andb_prop in H as [Hx Hp]. apply N.eqb_eq in Hx. subst y.
  cbn. f_equal. now apply IH.
Qed.

(** A replaced occurrence at the head. *)
Lemma replace_head (s old new : pystr) :
  old <> [] -> startswith s old = true ->
  exists rest, s = old ++ rest /\ replace s old new = new ++ replace rest old new.
Proof.
  intros Hold H. exists (skipn (length old) s). split; [now apply startswith_app|].
  destruct s as [|c s]; [destruct old; [congruence|discriminate]|].
  unfold replace. cbn [replace_from]. rewrite H. f_equal.
  rewrite replace_from_skip. destruct old as [|x old]; [congruence|].
  cbn [length skipn]. now replace (S (length old) - 1)%nat with (length old) by lia.
Qed.

Lemma replace_skip (c : codepoint) (s old new : pystr) :
  startswith (c :: s) old = false ->
  replace (c :: s) old new = c :: replace s old new.
Proof. intros H. unfold replace. cbn [replace_from]. now rewrite H. Qed.

Lemma last_or_nil {A} (l : list A) : l = [] \/ exists r y, l = r ++ [y].
Proof.
  destruct l as [|a l]; [now left|right].
  destruct (@exists_last _ (a :: l)) as (r & y & E); [discriminate|]. eauto.
Qed.

(** A replacement whose two strings end with the same character keeps the
    last character of the text. *)
Lemma replace_keeps_last (o n : pystr) (c x : codepoint) (t : pystr) :
  exists t', replace (t ++ [x]) (o ++ [c]) (n ++ [c]) = t' ++ [x].
Proof.
  remember (length t) as k eqn:Hk. revert t Hk.
  induction k as [k IH] using lt_wf_ind. intros t Hk.
  destruct (startswith (t ++ [x]) (o ++ [c])) eqn:Hs.
  - destruct (replace_head (t ++ [x]) (o ++ [c]) (n ++ [c])) as (rest & E & ->);
      [now destruct o|exact Hs|].
    destruct (last_or_nil rest) as [-> | (r & y & ->)].
    + rewrite app_nil_r in E. apply app_inj_tail in E as [_ ->].
      exists n. unfold replace. cbn [replace_from]. now rewrite app_nil_r.
    + rewrite app_assoc in E. apply app_inj_tail in E as [-> ->].
      destruct (IH (length r)) with (t := r) as [t' ->]; [|reflexivity|].
      * subst k. rewrite !length_app. cbn. lia.
      * exists ((n ++ [c]) ++ t'). now rewrite <- !app_assoc.
  - destruct t as [|c0 t].
    + exists []. cbn [app] in *. rewrite replace_skip by exact Hs. reflexivity.
    + cbn [app] in *. rewrite replace_skip by exact Hs.
      destruct (IH (length t)) with (t := t) as [t' ->]; [subst k; cbn; lia|reflexivity|].
      now exists (c0 :: t').
Qed.

Lemma endswith_last (s : pystr) (x : codepoint) :
  endswith s [x] = true -> exists t, s = t ++ [x].
Proof.
  unfold endswith. cbn [rev app]. intros H.
  destruct (rev s) as [|y r] eqn:E; [discriminate|].
  cbn [startswith] in H. apply andb_prop in H as [H _]. apply N.eqb_eq in H. subst y.
  exists (rev r). rewrite <- (rev_involutive s), E. reflexivity.
Qed.

(** The loop over the abbreviations, for any table. *)
Lemma expand_keeps_last (table : list (pystr * pystr)) (t : pystr) (x : codepoint) :
  exists t',
    fold_left
      (fun text '(abbr, full) =>
         let text := replace text (py " " ++ abbr ++ py " ") (py " " ++ full ++ py " ") in
         replace text (py " " ++ abbr ++ py ".") (py " " ++ full ++ py "."))
      table (t ++ [x]) = t' ++ [x].
Proof.
  revert t. induction table as [|[abbr full] table IH]; intros t; [now exists t|].
  cbn [fold_left]. cbv zeta.
  destruct (replace_keeps_last (py " " ++ abbr) (py " " ++ full) SPACE x t) as [t1 E1].
  change (py " " ++ abbr ++ py " ") with ((py " " ++ abbr) ++ [SPACE]).
  change (py " " ++ full ++ py " ") with ((py " " ++ full) ++ [SPACE]).
  rewrite E1.
  destruct (replace_keeps_last (py " " ++ abbr) (py " " ++ full) DOT x t1) as [t2 E2].
  change (py " " ++ abbr ++ py ".") with ((py " " ++ abbr) ++ [DOT]).
  change (py " " ++ full ++ py ".") with ((py " " ++ full) ++ [DOT]).
  rewrite E2. apply IH.
Qed.

(** No occurrence, no change. *)
Lemma replace_without_first (c : codepoint) (old new s : pystr) :
  ~ In c s -> replace s (c :: old) new = s.
Proof.
  induction s as [|d s IH]; intros H; [reflexivity|].
  rewrite replace_skip.
  - f_equal. apply IH. intros Hin. apply H. now right.
  - cbn. destruct (N.eqb_spec c d) as [->|_]; [|reflexivity].
    exfalso. apply H. now left.
Qed.

Lemma expand_without_space (table : list (pystr * pystr)) (s : pystr) :
  ~ In SPACE s ->
  fold_left
    (fun text '(abbr, full) =>
       let text := replace text (py " " ++ abbr ++ py " ") (py " " ++ full ++ py " ") in
       replace text (py " " ++ abbr ++ py ".") (py " " ++ full ++ py "."))
    table s = s.
Proof.
  intros H. induction table as [|[abbr full] table IH]; [reflexivity|].
  cbn [fold_left]. cbv zeta.
  change (py " " ++ abbr ++ py " ") with (SPACE :: abbr ++ py " ").
  change (py " " ++ abbr ++ py ".") with (SPACE :: abbr ++ py ".").
  rewrite (replace_without_first SPACE _ _ s) by exact H.
  rewrite replace_without_first by exact H. exact IH.
Qed.

(** X5.  The text that [_prepare_text_for_swedish] returns always ends
    with a period, an exclamation mark or a question mark: with the mark the
    given text ends with, if it ends with one of the three, and with an
    added period otherwise.  Expanding the abbreviations never removes or
    changes that last character. *)
Theorem prepared_text_ends_sentence (text : pystr) :
  exists t c,
    TTS._prepare_text_for_swedish text = t ++ [c]
    /\ sentence_end c
    /\ (forall s d, text = s ++ [d] -> sentence_end d -> c = d)
    /\ ((forall s d, text = s ++ [d] -> ~ sentence_end d) -> c = DOT).
Proof.
  assert (Hend : forall x, sentence_end x ->
            endswith text [x] = true ->
            exists t, TTS._prepare_text_for_swedish text = t ++ [x]).
  { intros x Hx E. unfold TTS._prepare_text_for_swedish.
    replace (negb _) with false
      by (symmetry; apply negb_false_iff;
          destruct Hx as [-> | [-> | ->]];
          change (py ".") with [DOT]; change (py "!") with [BANG];
          change (py "?") with [QUESTION]; rewrite E;
          rewrite ?orb_true_r; reflexivity).
    apply endswith_last in E as [t0 ->].
    destruct (expand_keeps_last TTS.replacements t0 x) as [t' E]. now exists t'. }
  assert (Hsame : forall x, endswith text [x] = true ->
            forall s d, text = s ++ [d] -> x = d).
  { intros x E s d ->. apply endswith_last in E as [t0 E].
    now apply app_inj_tail in E as [_ <-]. }
  destruct (endswith text [DOT]) eqn:E1;
    [|destruct (endswith text [BANG]) eqn:E2;
      [|destruct (endswith text [QUESTION]) eqn:E3]].
  1-3: match goal with
       | H : endswith _ [?x] = true |- _ =>
           destruct (Hend x) as [t E]; [unfold sentence_end; auto|exact H|];
           exists t, x; split; [exact E|]; split; [unfold sentence_end; auto|];
           split; [intros s d Hs _; exact (Hsame x H s d Hs)|];
           intros Hn; destruct (endswith_last _ _ H) as [t0 Ht];
           exfalso; apply (Hn t0 x Ht); unfold sentence_end; auto
       end.
  destruct (expand_keeps_last TTS.replacements text DOT) as [t' E].
  exists t', DOT. split.
  { unfold TTS._prepare_text_for_swedish.
    change (py ".") with [DOT]. change (py "!") with [BANG].
    change (py "?") with [QUESTION]. rewrite E1, E2, E3. exact E. }
  split; [unfold sentence_end; auto|]. split; [|reflexivity].
  intros s d -> [-> | [-> | ->]]; exfalso.
  - unfold endswith in E1. rewrite rev_app_distr in E1. cbn in E1.
    destruct (rev s); discriminate E1.
  - unfold endswith in E2. rewrite rev_app_distr in E2. cbn in E2.
    destruct (rev s); discriminate E2.
  - unfold endswith in E3. rewrite rev_app_distr in E3. cbn in E3.
    destruct (rev s); discriminate E3.
Qed.

(** X6.  A text without a space character comes back from
    [_prepare_text_for_swedish] unchanged when it ends with '.', '!' or '?',
    and with one period added when it does not (the empty text included):
    an abbreviation is expanded only after a space, so "5kr" becomes "5kr."
    and a leading "kr" stays as it is. *)
Theorem prepared_text_without_space (text : pystr) :
  ~ In SPACE text ->
  ((exists s d, text = s ++ [d] /\ sentence_end d) ->
   TTS._prepare_text_for_swedish text = text)
  /\ ((forall s d, text = s ++ [d] -> ~ sentence_end d) ->
      TTS._prepare_text_for_swedish text = text ++ py ".").
Proof.
  intros H.
  assert (Hdot : ~ In SPACE (text ++ py ".")).
  { rewrite in_app_iff. intros [Hs | [Hd | []]]; [now apply H|discriminate Hd]. }
  assert (Hends : endswith text [DOT] || endswith text [BANG]
                  || endswith text [QUESTION] = true
                  <-> exists s d, text = s ++ [d] /\ sentence_end d).
  { rewrite !orb_true_iff. unfold sentence_end. split.
    - intros [[E | E] | E]; apply endswith_last in E as [s ->]; eauto 6.
    - intros (s & d & -> & Hd). unfold endswith. rewrite rev_app_distr.
      cbn [rev app startswith].
      destruct Hd as [-> | [-> | ->]]; rewrite N.eqb_refl;
        destruct (rev s); auto. }
  unfold TTS._prepare_text_for_swedish.
  change (py ".") with [DOT]. change (py "!") with [BANG].
  change (py "?") with [QUESTION].
  destruct (endswith text [DOT] || endswith text [BANG]
            || endswith text [QUESTION]) eqn:E; cbn [negb]; split.
  - intros _. now apply expand_without_space.
  - intros Hno. destruct (proj1 Hends eq_refl) as (s & d & Hs & Hd).
    elim (Hno s d Hs Hd).
  - intros Hyes. apply (proj2 Hends) in Hyes. discriminate Hyes.
  - intros _. now apply expand_without_space.
Qed.

Lemma prepared_text_without_space_witness :
  TTS._prepare_text_for_swedish (py "5kr") = py "5kr."
  /\ TTS._prepare_text_for_swedish (py "kr!") = py "kr!".
Proof.
  split.
  - apply (prepared_text_without_space (py "5kr")).
    + cbn. intros [H | [H | [H | []]]]; discriminate H.
    + intros s d Hs Hd.
      assert (Hl : last (py "5kr") = Some d) by (rewrite Hs; apply last_snoc).
      cbn in Hl. injection Hl as <-.
      destruct Hd as [Hd | [Hd | Hd]]; discriminate Hd.
  - apply (prepared_text_without_space (py "kr!")).
    + cbn. intros [H | [H | [H | []]]]; discriminate H.
    + exists (py "kr"), BANG. split; [reflexivity|]. right. now left.
Defined.


(** ** The audio data of a synthesis *)

Section SynthesisData.
Context {U : Unicode} (env : Env).

Lemma time_time_inv w t w' :
  time_time env w = (Return t, w') -> w_files w' = w_files w.
Proof. intros E. injection E as _ <-. reflexivity. Qed.

Lemma logger_inv l msg w u w' :
  logger l msg w = (Return u, w') -> w_files w' = w_files w.
Proof. intros E. injection E as _ <-. reflexivity. Qed.

Lemma subprocess_run_inv cmd stdin w proc w' :
  subprocess_run env cmd stdin w = (Return proc, w') ->
  run env cmd stdin (w_files w) = (Return proc, w_files w').
Proof.
  unfold subprocess_run. destruct (run env cmd stdin (w_files w)) as [r f].
  intros E. injection E as -> <-. reflexivity.
Qed.

Lemma read_file_inv p w data w' :
  read_file p w = (Return data, w') -> w' = w /\ w_files w !! p = Some data.
Proof.
  unfold read_file. destruct (w_files w !! p); intros E; [|discriminate].
  injection E as -> <-. now split.
Qed.

Lemma unlink_if_exists_inv p w u w' :
  unlink_if_exists p w = (Return u, w') -> w_files w' = delete p (w_files w).
Proof.
  unfold unlink_if_exists, bind, os_path_exists, os_unlink, ret.
  destruct (w_files w !! p) as [data|] eqn:Hp.
  - rewrite bool_decide_eq_true_2 by eauto. rewrite Hp.
    intros E. injection E as _ <-. reflexivity.
  - rewrite bool_decide_eq_false_2 by (intros [x Hx]; congruence).
    intros E. injection E as _ <-. symmetry. now apply delete_id.
Qed.

(** [with NamedTemporaryFile(...)], then [try: body finally: unlink]. *)
Lemma temp_file_inv {A} suffix (body : pystr -> M A) w (a : A) w' :
  (temp_path <- NamedTemporaryFile env suffix ;;
   try_finally (body temp_path) (unlink_if_exists temp_path)) w = (Return a, w') ->
  exists p w0 w1,
    mkstemp env suffix (w_files w) = Return p
    /\ w_files w0 = <[p := []]> (w_files w)
    /\ body p w0 = (Return a, w1)
    /\ w_files w' = delete p (w_files w1).
Proof.
  intros E. apply bind_inv in E as (p & w0 & Hp & E).
  apply try_finally_inv in E as (w1 & Hb & Hf).
  exists p, w0, w1. unfold NamedTemporaryFile in Hp.
  destruct (mkstemp env suffix (w_files w)) as [q|e]; [|discriminate].
  injection Hp as -> <-. repeat split; [exact Hb|].
  eapply unlink_if_exists_inv, Hf.
Qed.

(** The body shared by [_synthesize_with_piper] and [_synthesize_with_espeak]. *)
Lemma program_output_inv cmd stdin (failed : CompletedProcess -> M (list byte))
    p w data w' :
  (forall proc w0, returncode proc <> 0%Z -> fst (failed proc w0) <> Return data) ->
  (process <- subprocess_run env cmd stdin ;;
   if negb (returncode process =? 0)%Z then failed process
   else audio_data <- read_file p ;; ret audio_data) w = (Return data, w') ->
  exists proc,
    run env cmd stdin (w_files w) = (Return proc, w_files w')
    /\ returncode proc = 0%Z
    /\ w_files w' !! p = Some data.
Proof.
  intros Hfail E. apply bind_inv in E as (proc & w1 & Hrun & E).
  apply subprocess_run_inv in Hrun.
  destruct (returncode proc =? 0)%Z eqn:Hrc; cbn [negb] in E.
  - apply bind_inv in E as (d & w2 & Hread & E). injection E as -> <-.
    apply read_file_inv in Hread as [-> Hp].
    exists proc. split; [exact Hrun|]. split; [now apply Z.eqb_eq|exact Hp].
  - apply Z.eqb_neq in Hrc. elim (Hfail proc w1 Hrc). now rewrite E.
Qed.

(** A result without "error": the steps around the provider's method. *)
Lemma synthesize_success_inv self text output_format w r w' :
  TTS.synthesize env self text output_format w = (Return r, w') ->
  TTS.res_error r = None ->
  exists w1 w2,
    w_files w1 = w_files w /\ w_files w' = w_files w2
    /\ TTS.res_text r = TTS._prepare_text_for_swedish (strip text)
    /\ TTS.res_format r = Some output_format
    /\ (if pystr_eqb (TTS.provider self) (py "piper") then
          TTS._synthesize_with_piper env (TTS.res_text r) output_format
        else if pystr_eqb (TTS.provider self) (py "espeak") then
          TTS._synthesize_with_espeak env (TTS.res_text r) output_format
        else if pystr_eqb (TTS.provider self) (py "system") then
          TTS._synthesize_with_system env (TTS.res_text r) output_format
        else raise (Exn ValueError (py "Unknown provider: " ++ TTS.provider self))) w1
       = (Return (TTS.res_audio_data r), w2).
Proof.
  intros E Herr. unfold TTS.synthesize in E.
  apply bind_inv in E as (t & w0 & Ht & E). apply time_time_inv in Ht.
  apply try_except_inv in E as [E | (e & w1 & _ & E)].
  - apply bind_inv in E as ([] & w1 & Hv & E).
    assert (Hw1 : w1 = w0).
    { destruct (_ || _); [discriminate Hv|]. now injection Hv as <-. }
    subst w1. cbv zeta in E.
    apply bind_inv in E as (audio & w2 & Hs & E).
    apply bind_inv in E as (now & w3 & Hn & E). apply time_time_inv in Hn.
    apply bind_inv in E as ([] & w4 & Hl & E). apply logger_inv in Hl.
    injection E as <- <-. cbn.
    exists w0, w2. repeat split; try congruence. exact Hs.
  - exfalso. apply bind_inv in E as (? & ? & _ & E).
    apply bind_inv in E as (? & ? & _ & E). injection E as <- _.
    discriminate Herr.
Qed.

End SynthesisData.

(** X7.  With the provider "piper" or "espeak", a result of [synthesize]
    without "error" carries exactly the bytes that the program left in the
    temporary file: the file was made with the suffix of the format, the
    program (piper with the prepared text on its standard input, espeak
    with the prepared text as last argument) ended with exit code 0, the
    "audio_data" are the content of the file after the run, and the file is
    deleted when [synthesize] returns. *)
Theorem synthesize_audio_is_program_output
    (U : Unicode) (env : Env) (self : TTS.TTSProcessor)
    (text output_format : pystr) (w w' : World) (r : TTS.SynthesisResult) :
  TTS.provider self = py "piper" \/ TTS.provider self = py "espeak" ->
  TTS.synthesize env self text output_format w = (Return r, w') ->
  TTS.res_error r = None ->
  exists p proc fs,
    mkstemp env (py "." ++ output_format) (w_files w) = Return p
    /\ (if pystr_eqb (TTS.provider self) (py "piper")
        then run env [py "piper"; py "--model"; py "sv_SE-nst-medium";
                      py "--output_file"; p]
                 (Some (TTS._prepare_text_for_swedish (strip text)))
                 (<[p := []]> (w_files w))
        else run env [py "espeak"; py "-v"; py "sv"; py "-s"; py "160";
                      py "-p"; py "50"; py "-a"; py "100"; py "-w"; p;
                      TTS._prepare_text_for_swedish (strip text)]
                 None (<[p := []]> (w_files w)))
       = (Return proc, fs)
    /\ returncode proc = 0%Z
    /\ fs !! p = Some (TTS.res_audio_data r)
    /\ w_files w' = delete p fs.
Proof.
  intros Hp E Herr.
  destruct (synthesize_success_inv env self text output_format w r w' E Herr)
    as (w1 & w2 & Hw1 & Hw2 & Htext & _ & Hs).
  rewrite Htext in Hs.
  destruct Hp as [Hp | Hp]; rewrite Hp in Hs |- *.
  - change (pystr_eqb (py "piper") (py "piper")) with true in Hs |- *.
    cbv iota in Hs |- *.
    apply temp_file_inv in Hs as (p & w3 & w4 & Hmk & Hf & Hbody & Hdel).
    cbv zeta in Hbody.
    eapply (program_output_inv env _ _
              (fun process =>
                 raise (Exn RuntimeError (py "Piper TTS failed: " ++ stderr process))))
      in Hbody; [|discriminate].
    destruct Hbody as (proc & Hrun & Hrc & Hdata).
    exists p, proc, (w_files w4). rewrite Hf, Hw1 in Hrun. rewrite Hw1 in Hmk.
    repeat split; try assumption. congruence.
  - change (pystr_eqb (py "espeak") (py "piper")) with false in Hs |- *.
    change (pystr_eqb (py "espeak") (py "espeak")) with true in Hs.
    cbv iota in Hs |- *.
    apply temp_file_inv in Hs as (p & w3 & w4 & Hmk & Hf & Hbody & Hdel).
    cbv zeta in Hbody.
    eapply (program_output_inv env _ _
              (fun process =>
                 raise (Exn RuntimeError (py "eSpeak TTS failed: " ++ stderr process))))
      in Hbody; [|discriminate].
    destruct Hbody as (proc & Hrun & Hrc & Hdata).
    exists p, proc, (w_files w4). rewrite Hf, Hw1 in Hrun. rewrite Hw1 in Hmk.
    repeat split; try assumption. congruence.
Qed.

Lemma synthesize_audio_is_program_output_witness :
  exists r w',
    TTS.synthesize (sim (setup [py "piper"])) (speaker (py "piper")) (py "hej")
      (py "wav") empty_world = (Return r, w')
    /\ exists p proc fs,
         mkstemp (sim (setup [py "piper"])) (py ".wav") ∅ = Return p
         /\ returncode proc = 0%Z
         /\ fs !! p = Some (TTS.res_audio_data r)
         /\ w_files w' = delete p fs.
Proof.
  eexists. eexists. split; [vm_compute; reflexivity|].
  edestruct (synthesize_audio_is_program_output Latin (sim (setup [py "piper"]))
               (speaker (py "piper")) (py "hej") (py "wav") empty_world)
    as (p & proc & fs & Hmk & Hrun & Hrc & Hdata & Hdel);
    [now left|vm_compute; reflexivity|reflexivity|].
  exists p, proc, fs. repeat split; assumption.
Defined.


(** X8.  With the provider "system" and the format "wav", a result of
    [synthesize] without "error" comes from a run of [say] that ended with
    exit code 0, and its "format" is "wav".  Its "audio_data" are the content
    of the converted file when ffmpeg returned (with any exit code) and the
    file exists; the converted file is then deleted.  In every other case,
    ffmpeg missing or timing out or leaving no file, they are the AIFF data
    that [say] wrote, and what ffmpeg left on the disk stays there. *)
Theorem synthesize_system_wav
    (U : Unicode) (env : Env) (self : TTS.TTSProcessor)
    (text : pystr) (w w' : World) (r : TTS.SynthesisResult) :
  TTS.provider self = py "system" ->
  TTS.synthesize env self text (py "wav") w = (Return r, w') ->
  TTS.res_error r = None ->
  exists p proc fs,
    mkstemp env (py ".aiff") (w_files w) = Return p
    /\ run env [py "say"; py "-v"; py "Alva"; py "-o"; p;
                py "--data-format=LEI16@22050";
                TTS._prepare_text_for_swedish (strip text)]
           None (<[p := []]> (w_files w))
       = (Return proc, fs)
    /\ returncode proc = 0%Z
    /\ TTS.res_format r = Some (py "wav")
    /\ let wav_path := replace p (py ".aiff") (py ".wav") in
       match run env [py "ffmpeg"; py "-i"; p; py "-y"; wav_path] None fs with
       | (Return _, fs') =>
           match fs' !! wav_path with
           | Some data =>
               TTS.res_audio_data r = data
               /\ w_files w' = delete p (delete wav_path fs')
           | None =>
               fs' !! p = Some (TTS.res_audio_data r)
               /\ w_files w' = delete p fs'
           end
       | (Raise _, fs') =>
           fs' !! p = Some (TTS.res_audio_data r)
           /\ w_files w' = delete p fs'
       end.
Proof.
  intros Hp E Herr.
  destruct (synthesize_success_inv env self text (py "wav") w r w' E Herr)
    as (w1 & w2 & Hw1 & Hw2 & Htext & Hfmt & Hs).
  rewrite Htext, Hp in Hs.
  change (pystr_eqb (py "system") (py "piper")) with false in Hs.
  change (pystr_eqb (py "system") (py "espeak")) with false in Hs.
  change (pystr_eqb (py "system") (py "system")) with true in Hs.
  cbv iota in Hs.
  apply temp_file_inv in Hs as (p & w3 & w4 & Hmk & Hf & Hbody & Hdel).
  cbv zeta in Hbody.
  apply bind_inv in Hbody as (proc & w5 & Hrun & Hbody).
  apply subprocess_run_inv in Hrun.
  destruct (returncode proc =? 0)%Z eqn:Hrc; [|discriminate Hbody].
  cbn [negb] in Hbody.
  apply bind_inv in Hbody as (audio & w6 & Hconv & Hbody).
  injection Hbody as -> ->.
  change (pystr_eqb (py "wav") (py "wav")) with true in Hconv. cbv iota in Hconv.
  exists p, proc, (w_files w5).
  rewrite Hf, Hw1 in Hrun. rewrite Hw1 in Hmk.
  split; [exact Hmk|]. split; [exact Hrun|]. split; [now apply Z.eqb_eq|].
  split; [exact Hfmt|]. cbv zeta.
  rewrite Hw2, Hdel. clear - Hconv.
  unfold try_except, bind, subprocess_run, read_file, os_unlink, ret in Hconv.
  destruct (run env _ None (w_files w5)) as [[pr|e] fs'].
  - cbn [w_files set_files] in Hconv.
    destruct (fs' !! replace p (py ".aiff") (py ".wav")) as [data|] eqn:Hwav.
    + cbn [w_files set_files] in Hconv. rewrite Hwav in Hconv.
      injection Hconv as <- <-. now split.
    + cbn [w_files set_files] in Hconv.
      destruct (fs' !! p) as [aiff|]; [|discriminate Hconv].
      injection Hconv as <- <-. now split.
  - cbn [w_files set_files] in Hconv.
    destruct (fs' !! p) as [aiff|]; [|discriminate Hconv].
    injection Hconv as <- <-. now split.
Qed.

Lemma synthesize_system_wav_witness :
  exists r w',
    TTS.synthesize (sim (setup [py "say"])) (speaker (py "system")) (py "hej")
      (py "wav") empty_world = (Return r, w')
    /\ TTS.res_audio_data r = speech
    /\ TTS.res_format r = Some (py "wav")
    /\ exists p proc fs,
         run (sim (setup [py "say"]))
           [py "say"; py "-v"; py "Alva"; py "-o"; p;
            py "--data-format=LEI16@22050"; py "hej."]
           None (<[p := []]> ∅) = (Return proc, fs)
         /\ fs !! p = Some speech.
Proof.
  eexists. eexists. split; [vm_compute; reflexivity|].
  split; [reflexivity|].
  edestruct (synthesize_system_wav Latin (sim (setup [py "say"]))
               (speaker (py "system")) (py "hej") empty_world)
    as (p & proc & fs & Hmk & Hrun & Hrc & Hfmt & Hconv);
    [reflexivity|vm_compute; reflexivity|reflexivity|].
  split; [exact Hfmt|]. exists p, proc, fs. split; [exact Hrun|].
  injection Hmk as <-. injection Hrun as _ <-. reflexivity.
Defined.

Lemma temporary_files_removed_witness :
  temps_removed empty_world
    (snd (WhisperX.detect_language (sim (setup [])) studio_processor silence
            (py "wav") None empty_world))
  /\ temps_removed empty_world
       (snd (WhisperX.transcribe_buffer (sim (setup [])) studio_processor silence
               (py "wav") None empty_world)).
Proof.
  apply (temporary_files_removed Latin (sim (setup [])) (speaker (py "piper"))
           studio_processor (py "hej") (py "wav") silence None None empty_world).
  intros p d f. reflexivity.
Defined.


(** ** What [detect_language] returns *)

Section DetectOutcome.
Context {U : Unicode} (env : Env).
Import WhisperX.

Lemma existsb_eqb_In (x : pystr) (l : list pystr) :
  existsb (pystr_eqb x) l = true -> In x l.
Proof.
  intros H. apply existsb_exists in H as (y & Hy & E).
  apply pystr_eqb_eq in E. now subst.
Qed.

Lemma In_existsb_eqb (x : pystr) (l : list pystr) :
  In x l -> existsb (pystr_eqb x) l = true.
Proof.
  intros H. apply existsb_exists. exists x. split; [exact H|].
  now apply pystr_eqb_eq.
Qed.

Lemma detection_languages_supported self supported_languages :
  incl (detection_languages_of self supported_languages)
       (map fst (WhisperX.supported_languages self)).
Proof.
  unfold detection_languages_of.
  destruct supported_languages as [[|l langs]|]; try apply incl_refl.
  intros x Hx. apply filter_In in Hx as [_ Hx]. now apply existsb_eqb_In.
Qed.

Lemma detect_language_quiet self audio_buffer audio_format supported_languages :
  never_raises (detect_language env self audio_buffer audio_format supported_languages).
Proof.
  unfold detect_language. apply raises_bind; [apply never_raises_time_time|intros t].
  cbv zeta. apply raises_try_except. intros e. repeat quiet_step.
Qed.

Lemma detect_language_shape self audio_buffer audio_format supported_languages :
  returns
    (fun r =>
       incl (det_supported_languages r) (map fst (WhisperX.supported_languages self))
       /\ (In (det_detected_language r) (det_supported_languages r)
           \/ det_detected_language r = default_language self
              /\ det_language_confidence r = 1 # 2)
       /\ ((det_error r = None
            /\ too_small audio_buffer = false
            /\ det_supported_languages r
               = detection_languages_of self supported_languages
            /\ exists d, det_audio_duration r = Some d)
           \/ ((exists msg, det_error r = Some msg)
               /\ det_detected_language r = default_language self
               /\ det_language_confidence r = 1 # 2
               /\ det_all_languages r
                  = [{| language := default_language self; confidence := 1 # 2 |}]
               /\ det_audio_duration r = None)))
    (detect_language env self audio_buffer audio_format supported_languages).
Proof.
  unfold detect_language. apply returns_then. intros start_time. cbv zeta.
  apply returns_try_except.
  - apply (returns_bind (fun _ => too_small audio_buffer = false)).
    + destruct (too_small audio_buffer); [apply returns_raise|now apply returns_ret].
    + intros _ Hbig. do 2 (apply returns_then; intro).
      apply returns_try_finally. do 2 (apply returns_then; intro).
      destruct (negb (existsb _ _)) eqn:Hu;
        repeat (apply returns_then; intro); apply returns_ret; cbn;
        (split; [apply detection_languages_supported|]);
        (split; [|left; eauto]).
      * right. now split.
      * left. apply negb_false_iff in Hu. now apply existsb_eqb_In.
  - intros e. repeat returns_step. apply returns_ret. cbn.
    split; [destruct (too_small audio_buffer); cbn [negb];
            [apply incl_refl|apply detection_languages_supported]|].
    split; [right; now split|]. right. repeat split; eauto.
Qed.

(** With one language to choose from, the loop over the languages ends
    without error only for that language. *)
Lemma score_single l detected p :
  returns
    (fun all => l = detected /\ all = [{| language := l; confidence := p |}])
    (score_languages [l] (len [l]) detected p []).
Proof.
  cbn [score_languages]. destruct (pystr_eqb l detected) eqn:E.
  - apply pystr_eqb_eq in E. apply returns_ret. now split.
  - apply (returns_bind (fun _ => False)); [|intros _ []].
    unfold float_div. change (Qeq_bool (inject_Z (len [l] - 1)) 0) with true.
    apply returns_raise.
Qed.

Lemma model_transcribe_returns audio options :
  returns (fun x => transcribe env audio options = Return x)
    (model_transcribe env audio options).
Proof. intros w x w' E. injection E as E _. exact E. Qed.

Lemma detect_language_single self audio_buffer audio_format supported_languages l :
  detection_languages_of self supported_languages = [l] ->
  returns
    (fun r =>
       det_error r = None ->
       det_detected_language r = l
       /\ det_all_languages r
          = [{| language := l; confidence := det_language_confidence r |}]
       /\ exists audio x,
            transcribe env audio detection_options = Return x
            /\ (info_language (snd x) = Some l \/ default_language self = l))
    (detect_language env self audio_buffer audio_format supported_languages).
Proof.
  intros Hl. unfold detect_language. apply returns_then. intros start_time.
  cbv zeta. rewrite Hl. apply returns_try_except.
  - do 3 (apply returns_then; intro). apply returns_try_finally.
    apply returns_then. intros audio.
    eapply returns_bind; [apply model_transcribe_returns|].
    cbv beta. intros x Hx. apply returns_then. intros _.
    eapply returns_bind; [apply score_single|].
    cbv beta. intros all [Hd ->]. repeat (apply returns_then; intro).
    apply returns_ret. intros _. split; [symmetry; exact Hd|].
    split; [reflexivity|]. exists audio, x. split; [exact Hx|].
    destruct (negb _) eqn:Hu in Hd; [now right|].
    apply negb_false_iff in Hu. destruct (info_language (snd x)) as [l'|];
      [left; now rewrite Hd|now right].
  - intros e. repeat returns_step; apply returns_ret; cbn; discriminate.
Qed.

Lemma detect_language_none self audio_buffer audio_format supported_languages :
  detection_languages_of self supported_languages = [] ->
  returns
    (fun r =>
       det_detected_language r = default_language self
       /\ det_language_confidence r = 1 # 2
       /\ (det_error r = None ->
           det_all_languages r = [] /\ det_supported_languages r = []))
    (detect_language env self audio_buffer audio_format supported_languages).
Proof.
  intros Hl. unfold detect_language. apply returns_then. intros start_time.
  cbv zeta. rewrite Hl. apply returns_try_except.
  - do 3 (apply returns_then; intro). apply returns_try_finally.
    do 3 (apply returns_then; intro). cbn [existsb negb score_languages].
    apply (returns_bind (fun all => all = [])); [now apply returns_ret|].
    intros all ->. repeat (apply returns_then; intro).
    apply returns_ret. cbn. auto.
  - intros e. repeat returns_step; apply returns_ret; cbn;
      (split; [reflexivity|]); (split; [reflexivity|]); discriminate.
Qed.

Lemma no_supported_language self langs :
  langs <> [] ->
  (forall l, In l langs -> ~ In l (map fst (WhisperX.supported_languages self))) ->
  detection_languages_of self (Some langs) = [].
Proof.
  intros Hne Hno. unfold detection_languages_of.
  destruct langs as [|l0 langs]; [congruence|].
  remember (l0 :: langs) as ls eqn:E. clear E Hne.
  induction ls as [|x ls IH]; [reflexivity|]. cbn [List.filter].
  destruct (existsb _ _) eqn:Ex.
  - apply existsb_eqb_In in Ex. elim (Hno x); [now left|exact Ex].
  - apply IH. intros l Hin. apply Hno. now right.
Qed.

End DetectOutcome.

(** X10.  [detect_language] raises nothing, whatever the buffer, the
    requested languages and the environment: it returns a dictionary.  Its
    "supported_languages" are keys of [self.supported_languages], and its
    "detected_language" is one of them or the default language with
    confidence 0.5.  With an "error" entry the dictionary is the fallback
    (default language, 0.5, the default language as only entry of
    "all_languages", no "audio_duration"); without one the buffer had at
    least 1024 bytes and "audio_duration" is present. *)
Theorem detect_language_always_returns
    (U : Unicode) (env : Env) (self : WhisperX.WhisperXProcessor)
    (audio_buffer : list byte) (audio_format : pystr)
    (supported_languages : option (list pystr)) (w : World) :
  exists r w',
    WhisperX.detect_language env self audio_buffer audio_format supported_languages w
    = (Return r, w')
    /\ incl (WhisperX.det_supported_languages r)
            (map fst (WhisperX.supported_languages self))
    /\ (In (WhisperX.det_detected_language r) (WhisperX.det_supported_languages r)
        \/ WhisperX.det_detected_language r = WhisperX.default_language self
           /\ WhisperX.det_language_confidence r = 1 # 2)
    /\ ((WhisperX.det_error r = None
         /\ WhisperX.too_small audio_buffer = false
         /\ WhisperX.det_supported_languages r
            = WhisperX.detection_languages_of self supported_languages
         /\ exists d, WhisperX.det_audio_duration r = Some d)
        \/ ((exists msg, WhisperX.det_error r = Some msg)
            /\ WhisperX.det_detected_language r = WhisperX.default_language self
            /\ WhisperX.det_language_confidence r = 1 # 2
            /\ WhisperX.det_all_languages r
               = [{| WhisperX.language := WhisperX.default_language self;
                     WhisperX.confidence := 1 # 2 |}]
            /\ WhisperX.det_audio_duration r = None)).
Proof.
  destruct (never_raises_total _
              (detect_language_quiet env self audio_buffer audio_format
                 supported_languages) w) as (r & w' & E).
  exists r, w'. split; [exact E|].
  exact (detect_language_shape env self audio_buffer audio_format
           supported_languages w r w' E).
Qed.

(** X11.  When exactly one language l is left to choose from (one requested
    language that is supported), a result of [detect_language] without
    "error" names l, with "all_languages" holding the single entry of l, and
    it comes from a model that reported l or from a processor whose default
    language is l.  So when the default language is another one and the
    model never reports l, every result carries an "error". *)
Theorem detect_language_single_candidate
    (U : Unicode) (env : Env) (self : WhisperX.WhisperXProcessor)
    (audio_buffer : list byte) (audio_format : pystr)
    (supported_languages : option (list pystr)) (l : pystr)
    (w w' : World) (r : WhisperX.DetectionResult) :
  WhisperX.detection_languages_of self supported_languages = [l] ->
  WhisperX.detect_language env self audio_buffer audio_format supported_languages w
  = (Return r, w') ->
  (WhisperX.det_error r = None ->
   WhisperX.det_detected_language r = l
   /\ WhisperX.det_all_languages r
      = [{| WhisperX.language := l;
            WhisperX.confidence := WhisperX.det_language_confidence r |}]
   /\ exists audio x,
        transcribe env audio WhisperX.detection_options = Return x
        /\ (info_language (snd x) = Some l
            \/ WhisperX.default_language self = l))
  /\ (WhisperX.default_language self <> l ->
      (forall audio x,
          transcribe env audio WhisperX.detection_options = Return x ->
          info_language (snd x) <> Some l) ->
      exists msg, WhisperX.det_error r = Some msg).
Proof.
  intros Hl E.
  pose proof (detect_language_single env self _ _ _ l Hl w r w' E) as H.
  cbv beta in H. split; [exact H|].
  intros Hdef Hmodel. destruct (WhisperX.det_error r) as [msg|]; [eauto|].
  destruct (H eq_refl) as (_ & _ & audio & x & Hx & [Hm | Hd]).
  - elim (Hmodel audio x Hx Hm).
  - elim (Hdef Hd).
Qed.

(** X12.  When languages are requested and none of them is a key of
    [self.supported_languages], every result of [detect_language] names the
    default language with confidence 0.5, whatever the model detects; a
    result without "error" has empty "all_languages" and
    "supported_languages" lists. *)
Theorem detect_language_no_candidate
    (U : Unicode) (env : Env) (self : WhisperX.WhisperXProcessor)
    (audio_buffer : list byte) (audio_format : pystr)
    (langs : list pystr) (w w' : World) (r : WhisperX.DetectionResult) :
  langs <> [] ->
  (forall l, In l langs ->
             ~ In l (map fst (WhisperX.supported_languages self))) ->
  WhisperX.detect_language env self audio_buffer audio_format (Some langs) w
  = (Return r, w') ->
  WhisperX.det_detected_language r = WhisperX.default_language self
  /\ WhisperX.det_language_confidence r = 1 # 2
  /\ (WhisperX.det_error r = None ->
      WhisperX.det_all_languages r = [] /\ WhisperX.det_supported_languages r = []).
Proof.
  intros Hne Hno E.
  exact (detect_language_none env self _ _ _
           (no_supported_language self langs Hne Hno) w r w' E).
Qed.

Lemma detect_language_single_candidate_witness :
  (exists r w',
     WhisperX.detect_language (sim (setup [])) studio_processor silence (py "wav")
       (Some [py "sv"]) empty_world = (Return r, w')
     /\ WhisperX.det_detected_language r = py "sv"
     /\ WhisperX.det_all_languages r
        = [{| WhisperX.language := py "sv";
              WhisperX.confidence := WhisperX.det_language_confidence r |}])
  /\ (exists r w',
        WhisperX.detect_language (sim french_setup) studio_processor silence
          (py "wav") (Some [py "en"]) empty_world = (Return r, w')
        /\ WhisperX.det_error r = Some (py "float division by zero")
        /\ exists msg, WhisperX.det_error r = Some msg).
Proof.
  split.
  - eexists. eexists. split; [vm_compute; reflexivity|].
    edestruct (detect_language_single_candidate Latin (sim (setup []))
                 studio_processor silence (py "wav") (Some [py "sv"]) (py "sv")
                 empty_world) as [(Hd & Ha & _) _];
      [reflexivity|vm_compute; reflexivity|reflexivity|].
    split; [exact Hd|exact Ha].
  - eexists. eexists. split; [vm_compute; reflexivity|].
    split; [reflexivity|].
    edestruct (detect_language_single_candidate Latin (sim french_setup)
                 studio_processor silence (py "wav") (Some [py "en"]) (py "en")
                 empty_world) as [_ Herr];
      [reflexivity|vm_compute; reflexivity|].
    apply Herr.
    + discriminate.
    + intros audio x Hx. cbn in Hx. injection Hx as <-. discriminate.
Defined.

Lemma detect_language_no_candidate_witness :
  exists r w',
    WhisperX.detect_language (sim (setup [])) studio_processor silence (py "wav")
      (Some [py "xx"]) empty_world = (Return r, w')
    /\ WhisperX.det_detected_language r = py "sv"
    /\ WhisperX.det_language_confidence r = 1 # 2
    /\ (WhisperX.det_error r = None ->
        WhisperX.det_all_languages r = [] /\ WhisperX.det_supported_languages r = []).
Proof.
  eexists. eexists. split; [vm_compute; reflexivity|].
  eapply (detect_language_no_candidate Latin (sim (setup [])) studio_processor
            silence (py "wav") [py "xx"] empty_world);
    [discriminate| |vm_compute; reflexivity].
  intros l [<- | []] H. vm_compute in H.
  repeat (destruct H as [H | H]; [discriminate H|]). exact H.
Defined.


(** ** The order and the range of [all_languages] *)

Section AllLanguages.
Context {U : Unicode} (env : Env).
Import WhisperX.

(** The sort is stable: entries of equal confidence keep their order. *)
Lemma insert_desc_stable c x l :
  List.filter (fun e => Qeq_bool (confidence e) c) (insert_desc x l)
  = List.filter (fun e => Qeq_bool (confidence e) c) (x :: l).
Proof.
  induction l as [|y l IH]; [reflexivity|].
  cbn [insert_desc]. destruct (Qltb (confidence x) (confidence y)) eqn:Hlt;
    [|reflexivity].
  apply Qltb_lt in Hlt. cbn [List.filter] in IH |- *. rewrite IH.
  destruct (Qeq_bool (confidence x) c) eqn:Hx; [|reflexivity].
  destruct (Qeq_bool (confidence y) c) eqn:Hy; [|reflexivity].
  apply Qeq_bool_iff in Hx, Hy. rewrite Hx, Hy in Hlt.
  now apply Qlt_irrefl in Hlt.
Qed.

Lemma sort_stable c l :
  List.filter (fun e => Qeq_bool (confidence e) c) (sort_by_confidence_desc l)
  = List.filter (fun e => Qeq_bool (confidence e) c) l.
Proof.
  induction l as [|x l IH]; [reflexivity|].
  cbn [sort_by_confidence_desc fold_right].
  change (fold_right insert_desc [] l) with (sort_by_confidence_desc l).
  rewrite insert_desc_stable. cbn [List.filter]. now rewrite IH.
Qed.

Lemma filter_map_scores (score : pystr -> Q) c langs :
  map language
    (List.filter (fun e => Qeq_bool (confidence e) c)
       (map (fun lang => {| language := lang; confidence := score lang |}) langs))
  = List.filter (fun lang => Qeq_bool (score lang) c) langs.
Proof.
  induction langs as [|l langs IH]; [reflexivity|].
  cbn [map List.filter confidence]. destruct (Qeq_bool (score l) c); cbn [map language];
    now rewrite IH.
Qed.

(** A result without "error" in closed form. *)
Lemma detect_language_success self audio_buffer audio_format supported_languages :
  returns
    (fun r =>
       det_error r = None ->
       det_supported_languages r = detection_languages_of self supported_languages
       /\ det_all_languages r
          = sort_by_confidence_desc
              (map (fun lang =>
                      {| language := lang;
                         confidence :=
                           score_spec (det_detected_language r)
                             (det_language_confidence r)
                             (len (det_supported_languages r)) lang |})
                 (det_supported_languages r)))
    (detect_language env self audio_buffer audio_format supported_languages).
Proof.
  unfold detect_language. apply returns_then. intros start_time. cbv zeta.
  apply returns_try_except.
  - do 3 (apply returns_then; intro). apply returns_try_finally.
    do 3 (apply returns_then; intro).
    eapply returns_bind.
    { intros w l w' H. exact (score_languages_inv _ _ _ _ _ _ _ _ H). }
    cbv beta. intros all ->. repeat (apply returns_then; intro).
    apply returns_ret. intros _. split; reflexivity.
  - intros e. repeat returns_step. apply returns_ret. cbn. discriminate.
Qed.

Lemma score_spec_range detected p n lang :
  (0 <= p <= 1)%Q -> (1 <= n)%Z ->
  (0 <= score_spec detected p n lang <= 1)%Q
  /\ (lang <> detected -> (1 # 10 <= score_spec detected p n lang)%Q).
Proof.
  intros [H0 H1] Hn. unfold score_spec.
  destruct (pystr_eqb lang detected) eqn:E.
  - apply pystr_eqb_eq in E. split; [now split|congruence].
  - split; [|intros _; apply py_max_lower].
    unfold py_max. destruct (Qltb _ _) eqn:Hlt; [|split; discriminate].
    apply Qltb_lt in Hlt. split.
    + eapply Qle_trans; [|apply Qlt_le_weak, Hlt]. discriminate.
    + assert (Hpos : (0 < inject_Z (n - 1))%Q).
      { destruct (Z.eq_dec n 1%Z) as [-> | Hne].
        - exfalso. revert Hlt. unfold Qdiv. cbn [Z.sub Z.add Z.opp Z.pos_sub inject_Z].
          change (/ (0 # 1))%Q with 0%Q. rewrite Qmult_0_r. discriminate.
        - change 0%Q with (inject_Z 0). rewrite <- Zlt_Qlt. lia. }
      apply Qle_shift_div_r; [exact Hpos|]. rewrite Qmult_1_l.
      apply Qle_trans with 1%Q.
      * rewrite <- (Qplus_0_r 1) at 2. unfold Qminus. apply Qplus_le_r.
        apply (Qopp_le_compat 0 p), H0.
      * change 1%Q with (inject_Z 1). rewrite <- Zle_Qle.
        apply Qlt_not_le in Hpos. destruct (Z.le_gt_cases 1%Z (n - 1)%Z); [assumption|].
        elim Hpos. change 0%Q with (inject_Z 0). rewrite <- Zle_Qle. lia.
Qed.

(** In a list sorted by non-increasing confidence no entry has a larger
    confidence than the first one. *)
Lemma sorted_head_max e0 l e :
  Sorted confidence_ge (e0 :: l) -> In e (e0 :: l) ->
  (confidence e <= confidence e0)%Q.
Proof.
  intros Hs Hin. apply Sorted_StronglySorted in Hs.
  - inversion Hs as [|? ? _ Hall]; subst. destruct Hin as [<- | Hin]; [apply Qle_refl|].
    rewrite List.Forall_forall in Hall. exact (Hall e Hin).
  - intros a b c Hab Hbc. unfold confidence_ge in *. eapply Qle_trans; eassumption.
Qed.

End AllLanguages.

(** X13.  In a result of [detect_language] without "error", the entries of
    "all_languages" that have the same confidence stand in the order of the
    list of languages that was used: the sort by confidence is stable.  In
    particular the languages other than the detected one, which all get the
    same confidence, keep the order in which they were requested. *)
Theorem all_languages_ties_in_order
    (U : Unicode) (env : Env) (self : WhisperX.WhisperXProcessor)
    (audio_buffer : list byte) (audio_format : pystr)
    (supported_languages : option (list pystr)) (w w' : World)
    (r : WhisperX.DetectionResult) (c : Q) :
  WhisperX.detect_language env self audio_buffer audio_format supported_languages w
    = (Return r, w') ->
  WhisperX.det_error r = None ->
  map WhisperX.language
    (List.filter (fun e => Qeq_bool (WhisperX.confidence e) c)
       (WhisperX.det_all_languages r))
  = List.filter
      (fun lang =>
         Qeq_bool
           (WhisperX.score_spec (WhisperX.det_detected_language r)
              (WhisperX.det_language_confidence r)
              (len (WhisperX.det_supported_languages r)) lang) c)
      (WhisperX.det_supported_languages r).
Proof.
  intros E Herr.
  destruct (detect_language_success env self audio_buffer audio_format
              supported_languages w r w' E Herr) as [_ ->].
  rewrite sort_stable. apply filter_map_scores.
Qed.

(** X14.  In a result of [detect_language] without "error" whose
    "language_confidence" p lies between 0 and 1, every confidence of
    "all_languages" lies between 0 and 1, and every language other than the
    detected one has at least 0.1.  When the detected language is in the
    list and p is larger than the confidence max(0.1, (1 - p) / (n - 1)) of
    the other languages, the first entry of "all_languages" is the detected
    language; when p is smaller and another language is in the list, the
    first entry is another language. *)
Theorem all_languages_range_and_head
    (U : Unicode) (env : Env) (self : WhisperX.WhisperXProcessor)
    (audio_buffer : list byte) (audio_format : pystr)
    (supported_languages : option (list pystr)) (w w' : World)
    (r : WhisperX.DetectionResult) :
  WhisperX.detect_language env self audio_buffer audio_format supported_languages w
    = (Return r, w') ->
  WhisperX.det_error r = None ->
  (0 <= WhisperX.det_language_confidence r <= 1)%Q ->
  let p := WhisperX.det_language_confidence r in
  let other :=
    py_max (1 # 10)
      ((1 - p) / inject_Z (len (WhisperX.det_supported_languages r) - 1))%Q in
  Forall (fun e =>
            (0 <= WhisperX.confidence e <= 1)%Q
            /\ (WhisperX.language e <> WhisperX.det_detected_language r ->
                (1 # 10 <= WhisperX.confidence e)%Q))
    (WhisperX.det_all_languages r)
  /\ (In (WhisperX.det_detected_language r) (WhisperX.det_supported_languages r) ->
      (other < p)%Q ->
      exists e rest,
        WhisperX.det_all_languages r = e :: rest
        /\ WhisperX.language e = WhisperX.det_detected_language r)
  /\ (forall lang,
        In lang (WhisperX.det_supported_languages r) ->
        lang <> WhisperX.det_detected_language r ->
        (p < other)%Q ->
        exists e rest,
          WhisperX.det_all_languages r = e :: rest
          /\ WhisperX.language e <> WhisperX.det_detected_language r).
Proof.
  intros E Herr Hp p other.
  destruct (detect_language_success env self audio_buffer audio_format
              supported_languages w r w' E Herr) as [_ Hall].
  set (langs := WhisperX.det_supported_languages r) in *.
  set (detected := WhisperX.det_detected_language r) in *.
  set (entries := map _ langs) in Hall.
  assert (Hin : forall e, In e (WhisperX.det_all_languages r) <->
                          exists lang, In lang langs
                            /\ e = {| WhisperX.language := lang;
                                      WhisperX.confidence :=
                                        WhisperX.score_spec detected p (len langs) lang |}).
  { intros e. rewrite Hall. split.
    - intros H. apply (Permutation_in _ (sort_perm entries)) in H.
      apply in_map_iff in H as (lang & <- & Hl). eauto.
    - intros (lang & Hl & ->). apply (Permutation_in _ (Permutation_sym (sort_perm entries))).
      apply in_map_iff. eauto. }
  assert (Hsorted : Sorted WhisperX.confidence_ge (WhisperX.det_all_languages r))
    by (rewrite Hall; apply sort_sorted).
  assert (Hscore : forall lang, lang <> detected ->
            WhisperX.score_spec detected p (len langs) lang = other).
  { intros lang Hne. unfold WhisperX.score_spec.
    destruct (pystr_eqb lang detected) eqn:El; [|reflexivity].
    apply pystr_eqb_eq in El. congruence. }
  assert (Hself : WhisperX.score_spec detected p (len langs) detected = p).
  { unfold WhisperX.score_spec.
    now rewrite (proj2 (pystr_eqb_eq detected detected) eq_refl). }
  split; [|split].
  - apply List.Forall_forall. intros e He. apply Hin in He as (lang & Hl & ->).
    cbn [WhisperX.confidence WhisperX.language].
    apply score_spec_range; [exact Hp|].
    destruct langs; [destruct Hl|]. unfold len. cbn [length]. lia.
  - intros Hd Hlt.
    destruct (WhisperX.det_all_languages r) as [|e rest] eqn:Hr.
    + destruct (proj2 (Hin _) (ex_intro _ detected (conj Hd eq_refl))).
    + exists e, rest. split; [reflexivity|].
      destruct (proj1 (Hin e) (or_introl eq_refl)) as (lang & Hl & He).
      destruct (decide (lang = detected)) as [-> | Hne];
        [now rewrite He|].
      exfalso.
      assert (Hmax : (p <= WhisperX.confidence e)%Q).
      { rewrite <- Hself.
        apply (sorted_head_max e rest
                 {| WhisperX.language := detected;
                    WhisperX.confidence :=
                      WhisperX.score_spec detected p (len langs) detected |} Hsorted).
        apply Hin. eauto. }
      rewrite He in Hmax. cbn [WhisperX.confidence] in Hmax.
      rewrite (Hscore lang Hne) in Hmax.
      now apply (Qlt_not_le _ _ Hlt).
  - intros lang Hl Hne Hlt.
    destruct (WhisperX.det_all_languages r) as [|e rest] eqn:Hr.
    + destruct (proj2 (Hin _) (ex_intro _ lang (conj Hl eq_refl))).
    + exists e, rest. split; [reflexivity|].
      destruct (proj1 (Hin e) (or_introl eq_refl)) as (lang0 & Hl0 & He).
      rewrite He. cbn [WhisperX.language]. intros ->.
      assert (Hmax : (other <= WhisperX.confidence e)%Q).
      { rewrite <- (Hscore lang Hne).
        apply (sorted_head_max e rest
                 {| WhisperX.language := lang;
                    WhisperX.confidence :=
                      WhisperX.score_spec detected p (len langs) lang |} Hsorted).
        apply Hin. eauto. }
      rewrite He in Hmax. cbn [WhisperX.confidence] in Hmax. rewrite Hself in Hmax.
      now apply (Qlt_not_le _ _ Hlt).
Qed.

Lemma all_languages_ties_in_order_witness :
  exists r w',
    WhisperX.detect_language (sim (setup [])) studio_processor silence (py "wav")
      (Some [py "en"; py "xx"; py "sv"; py "da"]) empty_world = (Return r, w')
    /\ map WhisperX.language
         (List.filter (fun e => Qeq_bool (WhisperX.confidence e) (1 # 10))
            (WhisperX.det_all_languages r))
       = [py "en"; py "da"].
Proof.
  eexists. eexists. split; [vm_compute; reflexivity|].
  erewrite (all_languages_ties_in_order Latin (sim (setup [])) studio_processor
              silence (py "wav") (Some [py "en"; py "xx"; py "sv"; py "da"])
              empty_world);
    [|vm_compute; reflexivity|reflexivity].
  vm_compute. reflexivity.
Defined.

Lemma all_languages_range_and_head_witness :
  exists r w',
    WhisperX.detect_language (sim (setup [])) studio_processor silence (py "wav")
      (Some [py "en"; py "xx"; py "sv"; py "da"]) empty_world = (Return r, w')
    /\ exists e rest,
         WhisperX.det_all_languages r = e :: rest
         /\ WhisperX.language e = py "sv".
Proof.
  eexists. eexists. split; [vm_compute; reflexivity|].
  edestruct (all_languages_range_and_head Latin (sim (setup [])) studio_processor
               silence (py "wav") (Some [py "en"; py "xx"; py "sv"; py "da"])
               empty_world)
    as (_ & Hhead & _); [vm_compute; reflexivity|reflexivity| |].
  - split; discriminate.
  - apply Hhead; [vm_compute; auto|reflexivity].
Defined.


(** ** What [transcribe_buffer] returns and raises *)

Section TranscribeOutcome.
Context {U : Unicode} (env : Env).
Import WhisperX.

Lemma getattr_language self : getattr self "language" = raise no_language_attribute.
Proof. reflexivity. Qed.

Lemma transcribe_buffer_raises self audio_buffer audio_format target_language :
  raises (fun e => e = no_language_attribute)
    (transcribe_buffer env self audio_buffer audio_format target_language).
Proof.
  unfold transcribe_buffer.
  apply raises_bind; [apply raises_quiet, never_raises_time_time|intros t].
  cbv zeta. apply raises_try_except. intros e.
  apply raises_bind; [apply raises_quiet, never_raises_logger|intros _].
  rewrite getattr_language. apply raises_bind; [now apply raises_raise|].
  intros a. repeat quiet_step.
Qed.

Lemma transcribe_buffer_no_error self audio_buffer audio_format target_language :
  returns (fun r => tr_error r = None)
    (transcribe_buffer env self audio_buffer audio_format target_language).
Proof.
  unfold transcribe_buffer. apply returns_then. intros start_time. cbv zeta.
  apply returns_try_except.
  - repeat returns_step. now apply returns_ret.
  - intros e. apply returns_then. intros _. rewrite getattr_language.
    intros w r w' E. discriminate E.
Qed.

Lemma quality_range text confidence audio_size :
  (0 <= confidence)%Q ->
  (0 <= _assess_transcription_quality text confidence audio_size <= 1)%Q.
Proof.
  intros H0. unfold _assess_transcription_quality.
  destruct text as [|c text]; [split; [apply Qle_refl|discriminate]|].
  apply py_min_range; [discriminate|].
  pose proof (len_nonneg
    (List.filter (fun word => contains (lower (c :: text)) word)
       swedish_indicators)) as Hk.
  set (k := len _) in *.
  assert (Hs : (0 <= 1 + inject_Z k * (2 # 100))%Q).
  { apply Qle_trans with 1%Q; [discriminate|].
    rewrite <- (Qplus_0_r 1) at 1. apply Qplus_le_r.
    apply Qmult_le_0_compat; [|discriminate].
    change 0%Q with (inject_Z 0). now rewrite <- Zle_Qle. }
  repeat match goal with
         | |- context [if ?b then _ else _] => destruct b
         end;
    repeat apply Qmult_le_0_compat; try assumption; discriminate.
Qed.

(** The loop over the segments: the confidences that are added lie between
    0 and 1, one for each counted segment. *)
Lemma segments_loop segments text0 total0 count0 text total count :
  (0 <= total0)%Q -> (total0 <= inject_Z count0)%Q -> (0 <= count0)%Z ->
  fold_left
    (fun '(transcription_text, total_confidence, segment_count) segment =>
       let transcription_text := transcription_text ++ seg_text segment in
       match avg_logprob segment with
       | Some lp =>
           let confidence := py_min 1 (py_max 0 (np_exp env lp)) in
           (transcription_text, (total_confidence + confidence)%Q,
            (segment_count + 1)%Z)
       | None => (transcription_text, total_confidence, segment_count)
       end)
    segments (text0, total0, count0) = (text, total, count) ->
  (0 <= total)%Q /\ (total <= inject_Z count)%Q /\ (count0 <= count)%Z
  /\ (count = 0%Z -> total = total0).
Proof.
  revert text0 total0 count0.
  induction segments as [|s segments IH]; intros text0 total0 count0 H0 H1 Hc E.
  - cbn in E. injection E as _ <- <-. repeat split; auto. lia.
  - cbn [fold_left] in E. cbv zeta in E.
    destruct (avg_logprob s) as [lp|].
    + apply IH in E as (A & B & C & D); try lia.
      * repeat split; auto; try lia.
      * destruct (py_min_range 1 (py_max 0 (np_exp env lp))) as [P1 P2];
          [discriminate|apply py_max_lower|].
        apply Qle_trans with (0 + 0)%Q; [discriminate|now apply Qplus_le_compat].
      * destruct (py_min_range 1 (py_max 0 (np_exp env lp))) as [P1 P2];
          [discriminate|apply py_max_lower|].
        rewrite inject_Z_plus. now apply Qplus_le_compat.
    + apply IH in E as (A & B & C & D); auto.
Qed.

Lemma average_range total count :
  (0 <= total)%Q -> (total <= inject_Z count)%Q ->
  (0 <= (if (0 <? count)%Z then total / inject_Z count else 0) <= 1)%Q.
Proof.
  intros H0 H1. destruct (0 <? count)%Z eqn:E; [|split; discriminate].
  apply Z.ltb_lt in E.
  assert (Hc : (0 < inject_Z count)%Q)
    by (change 0%Q with (inject_Z 0); now rewrite <- Zlt_Qlt).
  split.
  - apply Qle_shift_div_l; [exact Hc|]. now rewrite Qmult_0_l.
  - apply Qle_shift_div_r; [exact Hc|]. now rewrite Qmult_1_l.
Qed.

Lemma clean_transcription_fixed {L : UnicodeLaws U} text :
  _clean_transcription (_clean_transcription text) = _clean_transcription text.
Proof.
  destruct (split text) as [|w ws] eqn:Hs.
  - now rewrite (clean_blank text Hs).
  - apply cleaned_fixed, clean_cleaned. now rewrite Hs.
Qed.

(** The text that the loop over the segments builds. *)
Lemma segments_text segments text0 total0 count0 text total count :
  fold_left
    (fun '(transcription_text, total_confidence, segment_count) segment =>
       let transcription_text := transcription_text ++ seg_text segment in
       match avg_logprob segment with
       | Some lp =>
           let confidence := py_min 1 (py_max 0 (np_exp env lp)) in
           (transcription_text, (total_confidence + confidence)%Q,
            (segment_count + 1)%Z)
       | None => (transcription_text, total_confidence, segment_count)
       end)
    segments (text0, total0, count0) = (text, total, count) ->
  text = text0 ++ concat (map seg_text segments).
Proof.
  revert text0 total0 count0.
  induction segments as [|s segments IH]; intros text0 total0 count0 E.
  - cbn in E. injection E as <- _ _. now rewrite app_nil_r.
  - cbn [fold_left] in E. cbv zeta in E. cbn [map concat].
    destruct (avg_logprob s); apply IH in E; now rewrite E, <- app_assoc.
Qed.

Lemma of_result_returns {A} (r : result A) :
  returns (fun a => r = Return a) (of_result r).
Proof. intros w a w' E. now injection E as -> _. Qed.

Lemma transcribe_buffer_shape {L : UnicodeLaws U}
    self audio_buffer audio_format target_language :
  returns
    (fun r =>
       tr_error r = None
       /\ too_small audio_buffer = false
       /\ (exists audio segments info l,
             transcribe env audio
               (transcription_options
                  match target_language with
                  | Some ((_ :: _) as l) => l
                  | _ => default_language self
                  end)
             = Return (Return segments, info)
             /\ info_language info = Some l
             /\ tr_language r = VStr l
             /\ tr_text r = _clean_transcription (concat (map seg_text segments)))
       /\ (0 <= tr_confidence r <= 1)%Q
       /\ (0 <= tr_quality_score r <= 1)%Q
       /\ (exists n, tr_segments_count r = Some n /\ (0 <= n)%Z
                     /\ (n = 0%Z -> tr_confidence r = 0%Q))
       /\ _clean_transcription (tr_text r) = tr_text r
       /\ (tr_text r = [] -> tr_quality_score r = 0%Q)
       /\ tr_model_used r = model_size self)
    (transcribe_buffer env self audio_buffer audio_format target_language).
Proof.
  unfold transcribe_buffer. apply returns_then. intros start_time. cbv zeta.
  apply returns_try_except.
  - apply (returns_bind (fun _ => too_small audio_buffer = false)).
    + destruct (too_small audio_buffer); [apply returns_raise|now apply returns_ret].
    + intros _ Hbig. do 2 (apply returns_then; intro).
      apply returns_try_finally. apply returns_then. intros audio.
      eapply returns_bind; [apply model_transcribe_returns|].
      cbv beta. intros [answer info] Hx. cbn [fst snd].
      eapply returns_bind; [apply of_result_returns|].
      cbv beta. intros segments ->.
      match goal with
      | |- context [fold_left ?f ?l ?i] =>
          destruct (fold_left f l i) as [[text total] count] eqn:Hloop
      end.
      pose proof (segments_text _ _ _ _ _ _ _ Hloop) as Htext.
      cbn [app] in Htext.
      apply segments_loop in Hloop as (H0 & H1 & Hc & Hz);
        [|apply Qle_refl|discriminate|lia].
      pose proof (average_range total count H0 H1) as Havg.
      apply returns_then. intros now.
      apply (returns_bind (fun v => exists l, info_language info = Some l
                                              /\ v = VStr l)).
      * destruct (info_language info) as [l|]; [apply returns_ret; eauto|].
        rewrite getattr_language. apply returns_raise.
      * intros language (l & Hinfo & ->). apply returns_then. intros audio_duration.
        apply returns_then. intros _. apply returns_ret. cbn.
        split; [reflexivity|]. split; [exact Hbig|].
        split; [exists audio, segments, info, l; rewrite Htext; auto|].
        split; [exact Havg|].
        split; [apply quality_range, Havg|].
        split; [exists count; repeat split; auto;
                intros ->; reflexivity|].
        split; [apply clean_transcription_fixed|].
        split; [intros ->; reflexivity|reflexivity].
  - intros e. apply returns_then. intros _. rewrite getattr_language.
    intros w r w' E. discriminate E.
Qed.

End TranscribeOutcome.

(** X15.  [transcribe_buffer] never returns its error dictionary.  The only
    exception that leaves it is the AttributeError of [self.language]: the
    handler of every failure inside the try block (a small buffer, a file
    that cannot be written or decoded, a failing model, a model that does
    not report a language) reads that attribute, which no method assigns. *)
Theorem transcribe_buffer_only_attribute_error
    (U : Unicode) (env : Env) (self : WhisperX.WhisperXProcessor)
    (audio_buffer : list byte) (audio_format : pystr)
    (target_language : option pystr) (w : World) :
  match WhisperX.transcribe_buffer env self audio_buffer audio_format
          target_language w with
  | (Return r, _) => WhisperX.tr_error r = None
  | (Raise e, _) => e = no_language_attribute
  end.
Proof.
  destruct (WhisperX.transcribe_buffer env self audio_buffer audio_format
              target_language w) as [[r|e] w'] eqn:E.
  - exact (transcribe_buffer_no_error env self audio_buffer audio_format
             target_language w r w' E).
  - exact (transcribe_buffer_raises env self audio_buffer audio_format
             target_language w e w' E).
Qed.

(** X16.  A dictionary that [transcribe_buffer] returns comes from a buffer
    of at least 1024 bytes and from an answer of the model, asked with the
    target language (the default language when none is given), that reports
    a language: that language is the "language" of the dictionary, and the
    "text" is the cleaned concatenation of the texts of the model's
    segments.  The "confidence" and the "quality_score" lie between 0 and 1
    (whatever the model's log-probabilities are), the confidence is 0 when
    no segment was counted, the "text" is in cleaned form (cleaning it again
    changes nothing), and an empty text has quality 0. *)
Theorem transcribe_buffer_result
    (U : Unicode) (L : UnicodeLaws U) (env : Env)
    (self : WhisperX.WhisperXProcessor) (audio_buffer : list byte)
    (audio_format : pystr) (target_language : option pystr)
    (w w' : World) (r : WhisperX.TranscriptionResult) :
  WhisperX.transcribe_buffer env self audio_buffer audio_format target_language w
  = (Return r, w') ->
  WhisperX.too_small audio_buffer = false
  /\ (exists audio segments info l,
        transcribe env audio
          (WhisperX.transcription_options
             match target_language with
             | Some ((_ :: _) as l) => l
             | _ => WhisperX.default_language self
             end)
        = Return (Return segments, info)
        /\ info_language info = Some l
        /\ WhisperX.tr_language r = WhisperX.VStr l
        /\ WhisperX.tr_text r
           = WhisperX._clean_transcription (concat (map seg_text segments)))
  /\ (0 <= WhisperX.tr_confidence r <= 1)%Q
  /\ (0 <= WhisperX.tr_quality_score r <= 1)%Q
  /\ (exists n, WhisperX.tr_segments_count r = Some n /\ (0 <= n)%Z
                /\ (n = 0%Z -> WhisperX.tr_confidence r = 0%Q))
  /\ WhisperX._clean_transcription (WhisperX.tr_text r) = WhisperX.tr_text r
  /\ (WhisperX.tr_text r = [] -> WhisperX.tr_quality_score r = 0%Q)
  /\ WhisperX.tr_model_used r = WhisperX.model_size self.
Proof.
  intros E.
  destruct (transcribe_buffer_shape env self audio_buffer audio_format
              target_language w r w' E) as (_ & H).
  exact H.
Qed.

Lemma transcribe_buffer_result_witness :
  exists r w',
    WhisperX.transcribe_buffer (sim (setup [])) studio_processor silence (py "wav")
      None empty_world = (Return r, w')
    /\ WhisperX.tr_language r = WhisperX.VStr (py "sv")
    /\ WhisperX.tr_text r = py "Hej."
    /\ (exists audio segments info l,
          transcribe (sim (setup [])) audio (WhisperX.transcription_options (py "sv"))
          = Return (Return segments, info)
          /\ info_language info = Some l
          /\ WhisperX.tr_language r = WhisperX.VStr l
          /\ WhisperX.tr_text r
             = WhisperX._clean_transcription (concat (map seg_text segments)))
    /\ (0 <= WhisperX.tr_confidence r <= 1)%Q
    /\ (0 <= WhisperX.tr_quality_score r <= 1)%Q
    /\ WhisperX._clean_transcription (WhisperX.tr_text r) = WhisperX.tr_text r.
Proof.
  eexists. eexists. split; [vm_compute; reflexivity|].
  split; [reflexivity|]. split; [reflexivity|].
  edestruct (transcribe_buffer_result Latin Latin_laws (sim (setup []))
               studio_processor silence (py "wav") None empty_world)
    as (_ & Hl & Hc & Hq & _ & Ht & _); [vm_compute; reflexivity|].
  split; [exact Hl|]. split; [exact Hc|]. split; [exact Hq|exact Ht].
Defined.


Section ListenerEffects.
Context {U : Unicode} (env : Env).
Import WhisperX.

Lemma steady_validation (audio_buffer : list byte) :
  keeps steady
    (if too_small audio_buffer
     then raise (Exn ValueError (py "Audio buffer is empty or too small"))
     else ret tt).
Proof. repeat steady_step. Qed.

Lemma steady_temp_file suffix : keeps steady (NamedTemporaryFile env suffix).
Proof. frame_prim. Qed.

Lemma steady_write_close p data : keeps steady (write_close env p data).
Proof. frame_prim. Qed.

Lemma steady_logger l msg : keeps steady (logger l msg).
Proof. frame_prim. Qed.

Lemma steady_int_div a b : keeps steady (int_div a b).
Proof. frame_prim. Qed.

Lemma time_time_run w t w' :
  time_time env w = (Return t, w') ->
  t = time_at env (w_ticks w) /\ w_ticks w' = S (w_ticks w)
  /\ w_calls w' = w_calls w.
Proof. intros E. injection E as <- <-. repeat split. Qed.

Lemma model_transcribe_run audio options w x w' :
  model_transcribe env audio options w = (Return x, w') ->
  w_ticks w' = w_ticks w /\ w_calls w' = w_calls w ++ [(audio, options)].
Proof. intros E. injection E as _ <-. split; reflexivity. Qed.

Lemma int_div_run a b w d w' :
  int_div a b w = (Return d, w') -> d = (inject_Z a / inject_Z b)%Q.
Proof.
  unfold int_div. destruct (b =? 0)%Z; intros E; [discriminate|].
  now injection E as <- _.
Qed.

Lemma transcribe_buffer_run self audio_buffer audio_format target_language w r w' :
  transcribe_buffer env self audio_buffer audio_format target_language w
  = (Return r, w') ->
  w_ticks w' = S (S (w_ticks w))
  /\ tr_duration r = (time_at env (S (w_ticks w)) - time_at env (w_ticks w))%Q
  /\ exists audio,
       w_calls w'
       = w_calls w
         ++ [(audio,
              transcription_options
                match target_language with
                | Some ((_ :: _) as l) => l
                | _ => default_language self
                end)]
       /\ tr_audio_duration r
          = Some (inject_Z (len audio) / inject_Z (target_sample_rate self))%Q.
Proof.
  intros E. unfold transcribe_buffer in E.
  apply bind_inv in E as (t & w0 & Ht & E). apply time_time_run in Ht as (-> & Ht & Hc).
  cbv zeta in E. apply try_except_inv in E as [E | (e & w1 & _ & E)].
  2:{ apply bind_inv in E as (? & ? & _ & E). rewrite getattr_language in E.
      discriminate E. }
  apply bind_inv in E as ([] & w1 & H1 & E). frame_of H1 steady_validation.
  apply bind_inv in E as (p & w2 & H2 & E). frame_of H2 steady_temp_file.
  apply bind_inv in E as ([] & w3 & H3 & E). frame_of H3 steady_write_close.
  apply try_finally_inv in E as (w4 & E & H4).
  frame_of H4 steady_unlink_if_exists.
  apply bind_inv in E as (audio & w5 & H5 & E).
  frame_of H5 steady_preprocess_audio.
  apply bind_inv in E as (x & w6 & H6 & E). apply model_transcribe_run in H6 as [H6 H6c].
  apply bind_inv in E as (segments & w7 & H7 & E).
  assert (w7 = w6) by (unfold of_result in H7; congruence). subst w7.
  match type of E with
  | context [fold_left ?f ?l ?i] => destruct (fold_left f l i) as [[text total] count]
  end.
  apply bind_inv in E as (now & w8 & H8 & E). apply time_time_run in H8 as (-> & H8 & H8c).
  apply bind_inv in E as (language & w9 & H9 & E).
  assert (F9 : steady w8 w9).
  { destruct (info_language _).
    - injection H9 as _ <-. apply steady_refl.
    - rewrite getattr_language in H9. discriminate H9. }
  apply bind_inv in E as (d & w10 & H10 & E).
  pose proof (int_div_run _ _ _ _ _ H10) as ->. frame_of H10 steady_int_div.
  apply bind_inv in E as ([] & w11 & H11 & E). frame_of H11 steady_logger.
  injection E as <- <-. cbn [tr_duration tr_audio_duration].
  unfold steady in *.
  repeat match goal with H : _ /\ _ |- _ => destruct H end.
  split; [congruence|]. split; [f_equal; f_equal; congruence|].
  exists audio. split; [congruence|reflexivity].
Qed.

Lemma detect_language_run self audio_buffer audio_format supported_languages w r w' :
  detect_language env self audio_buffer audio_format supported_languages w
  = (Return r, w') ->
  det_error r = None ->
  w_ticks w' = S (S (w_ticks w))
  /\ det_detection_duration r
     = (time_at env (S (w_ticks w)) - time_at env (w_ticks w))%Q
  /\ exists audio,
       w_calls w' = w_calls w ++ [(audio, detection_options)]
       /\ det_audio_duration r
          = Some (inject_Z (len audio) / inject_Z (target_sample_rate self))%Q.
Proof.
  intros E Herr. unfold detect_language in E.
  apply bind_inv in E as (t & w0 & Ht & E). apply time_time_run in Ht as (-> & Ht & Hc).
  cbv zeta in E. apply try_except_inv in E as [E | (e & w1 & _ & E)].
  2:{ apply bind_inv in E as (? & ? & _ & E).
      apply bind_inv in E as (? & ? & _ & E). injection E as <- _.
      discriminate Herr. }
  apply bind_inv in E as ([] & w1 & H1 & E). frame_of H1 steady_validation.
  apply bind_inv in E as (p & w2 & H2 & E). frame_of H2 steady_temp_file.
  apply bind_inv in E as ([] & w3 & H3 & E). frame_of H3 steady_write_close.
  apply try_finally_inv in E as (w4 & E & H4).
  frame_of H4 steady_unlink_if_exists.
  apply bind_inv in E as (audio & w5 & H5 & E).
  frame_of H5 steady_preprocess_audio.
  apply bind_inv in E as (x & w6 & H6 & E). apply model_transcribe_run in H6 as [H6 H6c].
  apply bind_inv in E as ([] & w7 & H7 & E).
  assert (F7 : steady w6 w7).
  { destruct (negb _).
    - frame_of H7 steady_logger. assumption.
    - injection H7 as <-. apply steady_refl. }
  apply bind_inv in E as (all & w8 & H8 & E). frame_of H8 steady_score_languages.
  apply bind_inv in E as (now & w9 & H9 & E). apply time_time_run in H9 as (-> & H9 & H9c).
  apply bind_inv in E as (d & w10 & H10 & E).
  pose proof (int_div_run _ _ _ _ _ H10) as ->. frame_of H10 steady_int_div.
  apply bind_inv in E as ([] & w11 & H11 & E). frame_of H11 steady_logger.
  injection E as <- <-. cbn [det_detection_duration det_audio_duration].
  unfold steady in *.
  repeat match goal with H : _ /\ _ |- _ => destruct H end.
  split; [congruence|]. split; [f_equal; f_equal; congruence|].
  exists audio. split; [congruence|reflexivity].
Qed.

End ListenerEffects.

(** X17.  A call of [transcribe_buffer] that returns, and a call of
    [detect_language] that returns a result without "error", has read the
    clock twice and has called the model exactly once: [transcribe_buffer]
    with the target language (the default language when none, or an empty
    one, is given), beam_size and best_of 5, and [detect_language] without a
    language, beam_size and best_of 1.  The "audio_duration" of the result
    is the number of samples passed to the model divided by the target
    sample rate, and the duration of the result is the second reading of the
    clock minus the first one. *)
Theorem one_model_call
    (U : Unicode) (env : Env) (self : WhisperX.WhisperXProcessor)
    (audio_buffer : list byte) (audio_format : pystr) (w : World) :
  (forall target_language r w',
      WhisperX.transcribe_buffer env self audio_buffer audio_format
        target_language w = (Return r, w') ->
      w_ticks w' = S (S (w_ticks w))
      /\ WhisperX.tr_duration r
         = (time_at env (S (w_ticks w)) - time_at env (w_ticks w))%Q
      /\ exists audio,
           w_calls w'
           = w_calls w
             ++ [(audio,
                  WhisperX.transcription_options
                    match target_language with
                    | Some ((_ :: _) as l) => l
                    | _ => WhisperX.default_language self
                    end)]
           /\ WhisperX.tr_audio_duration r
              = Some (inject_Z (len audio)
                      / inject_Z (WhisperX.target_sample_rate self))%Q)
  /\ (forall supported_languages r w',
         WhisperX.detect_language env self audio_buffer audio_format
           supported_languages w = (Return r, w') ->
         WhisperX.det_error r = None ->
         w_ticks w' = S (S (w_ticks w))
         /\ WhisperX.det_detection_duration r
            = (time_at env (S (w_ticks w)) - time_at env (w_ticks w))%Q
         /\ exists audio,
              w_calls w' = w_calls w ++ [(audio, WhisperX.detection_options)]
              /\ WhisperX.det_audio_duration r
                 = Some (inject_Z (len audio)
                         / inject_Z (WhisperX.target_sample_rate self))%Q).
Proof.
  split.
  - intros target_language r w'. apply transcribe_buffer_run.
  - intros supported_languages r w'. apply detect_language_run.
Qed.

Lemma one_model_call_witness :
  exists r w',
    WhisperX.transcribe_buffer (sim (setup [])) studio_processor silence (py "wav")
      (Some (py "en")) empty_world = (Return r, w')
    /\ exists audio,
         w_calls w' = [(audio, WhisperX.transcription_options (py "en"))].
Proof.
  eexists. eexists. split; [vm_compute; reflexivity|].
  edestruct (proj1 (one_model_call Latin (sim (setup [])) studio_processor silence
                      (py "wav") empty_world) (Some (py "en")))
    as (_ & _ & audio & Hc & _); [vm_compute; reflexivity|].
  exists audio. exact Hc.
Defined.

(** ** The one call of the model, and what it is given *)

Section ModelCalls.
Context {U : Unicode} (env : Env).
Import WhisperX.







End ModelCalls.




(** ** [_normalize_audio] *)

Lemma fold_max_ge (l : list Q) (x : Q) :
  (x <= fold_left (fun m y => if Qltb m y then y else m) l x)%Q
  /\ Forall (fun y => y <= fold_left (fun m y => if Qltb m y then y else m) l x)%Q l.
Proof.
  revert x. induction l as [|y l IH]; intros x; cbn [fold_left].
  - split; [apply Qle_refl|constructor].
  - destruct (Qltb x y) eqn:E.
    + apply Qltb_lt in E. destruct (IH y) as [H1 H2]. split.
      * eapply Qle_trans; [apply Qlt_le_weak, E|exact H1].
      * constructor; assumption.
    + apply Qltb_ge in E. destruct (IH x) as [H1 H2]. split; [exact H1|].
      constructor; [eapply Qle_trans; eassumption|assumption].
Qed.

Lemma fold_max_in (l : list Q) (x : Q) :
  In (fold_left (fun m y => if Qltb m y then y else m) l x) (x :: l).
Proof.
  revert x. induction l as [|y l IH]; intros x; cbn [fold_left]; [now left|].
  destruct (Qltb x y).
  - right. apply IH.
  - destruct (IH x) as [H | H]; [now left|right; now right].
Qed.

(** X19.  For an array with at least one sample [_normalize_audio] does
    not fail.  The array [a] that it hands to the high-pass filter has as
    many samples as the input, every sample in [-1, 1], and a peak of
    exactly 1 unless all its samples are zero.  The result is the output of
    the filter, or [a] itself when the filter raises. *)
Theorem normalize_audio_range
    (env : Env) (self : WhisperX.WhisperXProcessor) (audio : list Q) (w : World) :
  audio <> [] ->
  exists a,
    length a = length audio
    /\ Forall (fun y => Qabs y <= 1)%Q a
    /\ (Forall (fun y => y == 0)%Q a \/ Exists (fun y => Qabs y == 1)%Q a)
    /\ WhisperX._normalize_audio env self audio w
       = (Return match sosfilt env (WhisperX.target_sample_rate self) a with
                 | Return y => y
                 | Raise _ => a
                 end, w).
Proof.
  intros Hne. unfold WhisperX._normalize_audio.
  remember (map (fun x => x - WhisperX.np_mean audio)%Q audio) as centred eqn:Hc.
  assert (Hlc : length centred = length audio) by (subst centred; apply List.length_map).
  clear Hc.
  destruct centred as [|c centred]; [destruct audio; [congruence|discriminate]|].
  remember (c :: centred) as cs eqn:Hcs.
  assert (Hmax : exists m, WhisperX.np_max (map Qabs cs) = ret m
                           /\ Forall (fun y => Qabs y <= m)%Q cs
                           /\ Exists (fun y => Qabs y = m) cs).
  { subst cs. cbn [map WhisperX.np_max]. eexists. split; [reflexivity|]. split.
    - destruct (fold_max_ge (map Qabs centred) (Qabs c)) as [H1 H2].
      constructor; [exact H1|].
      rewrite List.Forall_forall in H2 |- *. intros y Hy. apply H2.
      now apply in_map.
    - pose proof (fold_max_in (map Qabs centred) (Qabs c)) as Hin.
      change (Qabs c :: map Qabs centred) with (map Qabs (c :: centred)) in Hin.
      apply in_map_iff in Hin as (y & Hy & Hin).
      apply List.Exists_exists. now exists y. }
  clear Hcs. destruct Hmax as (m & -> & Hle & Hex).
  unfold bind at 1. cbn [ret].
  destruct (Qltb 0 m) eqn:Hm.
  - apply Qltb_lt in Hm.
    assert (Hm0 : ~ (m == 0)%Q) by (intros E; rewrite E in Hm; now apply Qlt_irrefl in Hm).
    exists (map (fun x => x / m)%Q cs). repeat split.
    + now rewrite List.length_map.
    + rewrite List.Forall_forall in Hle |- *. intros y Hy.
      apply in_map_iff in Hy as (x & <- & Hx). specialize (Hle x Hx).
      unfold Qdiv. rewrite Qabs_Qmult, (Qabs_pos (/ m)).
      * apply Qle_shift_div_r; [exact Hm|]. now rewrite Qmult_1_l.
      * apply Qlt_le_weak, Qinv_lt_0_compat, Hm.
    + right. apply List.Exists_exists in Hex as (x & Hx & Hxm).
      apply List.Exists_exists. exists (x / m)%Q.
      split; [exact (in_map (fun x => x / m)%Q cs x Hx)|].
      unfold Qdiv. rewrite Qabs_Qmult, (Qabs_pos (/ m)), Hxm.
      * field. exact Hm0.
      * apply Qlt_le_weak, Qinv_lt_0_compat, Hm.
    + unfold bind, try_except, WhisperX.of_result.
      destruct (sosfilt env (WhisperX.target_sample_rate self) _); reflexivity.
  - apply Qltb_ge in Hm.
    assert (Hz : Forall (fun y => y == 0)%Q cs).
    { rewrite List.Forall_forall in Hle |- *. intros y Hy. specialize (Hle y Hy).
      assert (H0 : (Qabs y <= 0)%Q) by (eapply Qle_trans; eassumption).
      apply Qabs_Qle_condition in H0 as [H1 H2].
      apply Qle_antisym; [exact H2|exact H1]. }
    exists cs. repeat split.
    + exact Hlc.
    + rewrite List.Forall_forall in Hle |- *. intros y Hy.
      eapply Qle_trans; [apply Hle, Hy|].
      eapply Qle_trans; [exact Hm|]. discriminate.
    + now left.
    + unfold bind, try_except, WhisperX.of_result.
      destruct (sosfilt env (WhisperX.target_sample_rate self) _); reflexivity.
Qed.


Lemma normalize_audio_range_witness :
  exists a,
    length a = 3%nat
    /\ Forall (fun y => Qabs y <= 1)%Q a
    /\ WhisperX._normalize_audio (sim (setup [])) studio_processor [1; 2; 6]%Q empty_world
       = (Return a, empty_world).
Proof.
  destruct (normalize_audio_range (sim (setup [])) studio_processor [1; 2; 6]%Q
              empty_world) as (a & Hl & Hr & _ & Hrun); [discriminate|].
  exists a. split; [exact Hl|]. split; [exact Hr|].
  rewrite Hrun. reflexivity.
Defined.


(** ** The audio duration that is reported *)

Section Durations.
Context {U : Unicode} (env : Env).
Import WhisperX.

Lemma whisperx_init_returns model_size language device :
  returns
    (fun self =>
       WhisperX.model_size self = model_size
       /\ default_language self = language
       /\ map fst (supported_languages self)
          = [py "sv"; py "en"; py "da"; py "no"; py "fi"; py "de"; py "fr";
             py "es"; py "it"; py "nl"]
       /\ WhisperX.device self
          = (if pystr_eqb device (py "auto")
             then (if cuda_is_available env then py "cuda" else py "cpu")
             else device)
       /\ target_sample_rate self = 16000%Z
       /\ min_duration self = 1 # 2
       /\ max_duration self = 120%Q)
    (__init__ env model_size language device).
Proof.
  unfold __init__. cbv zeta. repeat (apply returns_then; intro).
  apply returns_ret. cbn. repeat split.
Qed.

Lemma preprocess_audio_returns self path max_duration :
  target_sample_rate self = 16000%Z ->
  min_duration self = 1 # 2 ->
  WhisperX.max_duration self = 120%Q ->
  max_duration = None \/ max_duration = Some 10%Q ->
  (forall sr x y, sosfilt env sr x = Return y -> length y = length x) ->
  returns
    (fun out =>
       (0 < len out
        <= match max_duration with None => 1920000 | Some _ => 160000 end)%Z)
    (_preprocess_audio env self path max_duration).
Proof.
  intros Hsr Hmin Hmax Hmd Hfilt w out w' E.
  destruct (librosa_load env path 16000 (w_files w)) as [audio|e] eqn:Hload.
  - destruct audio as [|x audio].
    + assert (Hsr' : target_sample_rate self <> 0%Z) by (rewrite Hsr; discriminate).
      rewrite <- Hsr in Hload.
      pose proof (preprocess_audio_empty env self path max_duration w Hsr' Hload) as H.
      rewrite E in H. discriminate H.
    + destruct (preprocess_audio_bounded env self path max_duration w (x :: audio)
                  Hsr Hmin Hmax Hmd Hload ltac:(discriminate) Hfilt)
        as (out' & w'' & E' & Hle & Hlong & Hshort & _).
      rewrite E in E'. injection E' as <- _.
      split; [|exact Hle].
      set (limit := match max_duration with None => _ | Some _ => _ end) in *.
      assert (0 < limit)%Z by (subst limit; destruct max_duration; reflexivity).
      assert (0 < len (x :: audio))%Z by (unfold len; cbn [length]; lia).
      destruct (Z.lt_ge_cases limit (len (x :: audio))) as [Hc | Hc].
      * rewrite (Hlong Hc). assumption.
      * rewrite (Hshort Hc). assumption.
  - exfalso. revert E. unfold _preprocess_audio, try_except, bind at 1.
    rewrite Hsr, Hload. unfold bind, logger, raise. discriminate.
Qed.

Lemma duration_range n limit :
  (0 < n <= limit * 16000)%Z ->
  returns (fun d => 0 < d <= inject_Z limit)%Q (int_div n 16000).
Proof.
  intros [H0 H1]. unfold int_div. cbn [Z.eqb]. apply returns_ret.
  split.
  - apply Qlt_shift_div_l; [reflexivity|]. rewrite Qmult_0_l.
    change 0%Q with (inject_Z 0). now rewrite <- Zlt_Qlt.
  - apply Qle_shift_div_r; [reflexivity|]. rewrite <- inject_Z_mult.
    now rewrite <- Zle_Qle.
Qed.

Lemma transcribe_buffer_duration self audio_buffer audio_format target_language :
  target_sample_rate self = 16000%Z ->
  min_duration self = 1 # 2 ->
  max_duration self = 120%Q ->
  (forall sr x y, sosfilt env sr x = Return y -> length y = length x) ->
  returns
    (fun r => exists d, tr_audio_duration r = Some d /\ (0 < d <= 120)%Q)
    (transcribe_buffer env self audio_buffer audio_format target_language).
Proof.
  intros Hsr Hmin Hmax Hfilt.
  unfold transcribe_buffer. apply returns_then. intros start_time. cbv zeta.
  apply returns_try_except.
  - do 3 (apply returns_then; intro). apply returns_try_finally.
    eapply returns_bind;
      [apply (preprocess_audio_returns self _ None Hsr Hmin Hmax); auto|].
    cbv beta. intros audio_array Hlen. do 2 (apply returns_then; intro).
    match goal with
    | |- context [fold_left ?f ?l ?i] => destruct (fold_left f l i) as [[? ?] ?]
    end.
    do 2 (apply returns_then; intro). rewrite Hsr.
    eapply returns_bind; [apply (duration_range _ 120); lia|].
    cbv beta. intros d Hd. apply returns_then. intros _.
    apply returns_ret. now exists d.
  - intros e. apply returns_then. intros _. rewrite getattr_language.
    intros w r w' E. discriminate E.
Qed.

Lemma detect_language_duration self audio_buffer audio_format supported_languages :
  target_sample_rate self = 16000%Z ->
  min_duration self = 1 # 2 ->
  max_duration self = 120%Q ->
  (forall sr x y, sosfilt env sr x = Return y -> length y = length x) ->
  returns
    (fun r => det_error r = None ->
              exists d, det_audio_duration r = Some d /\ (0 < d <= 10)%Q)
    (detect_language env self audio_buffer audio_format supported_languages).
Proof.
  intros Hsr Hmin Hmax Hfilt.
  unfold detect_language. apply returns_then. intros start_time. cbv zeta.
  apply returns_try_except.
  - do 3 (apply returns_then; intro). apply returns_try_finally.
    eapply returns_bind;
      [apply (preprocess_audio_returns self _ (Some 10%Q) Hsr Hmin Hmax); auto|].
    cbv beta. intros audio_array Hlen. do 4 (apply returns_then; intro).
    rewrite Hsr.
    eapply returns_bind; [apply (duration_range _ 10); lia|].
    cbv beta. intros d Hd. apply returns_then. intros _.
    apply returns_ret. intros _. now exists d.
  - intros e. repeat returns_step. apply returns_ret. cbn. discriminate.
Qed.

End Durations.

(** X20.  For a processor made by [__init__], and a high-pass filter that
    keeps the number of samples, the "audio_duration" that
    [transcribe_buffer] reports is positive and at most 120 seconds, and the
    one that [detect_language] reports (in a result without "error") is
    positive and at most 10 seconds, however long the recording is. *)
Theorem audio_duration_bounded
    (U : Unicode) (env : Env) (model_size language device : pystr)
    (w0 w1 : World) (self : WhisperX.WhisperXProcessor)
    (audio_buffer : list byte) (audio_format : pystr) :
  WhisperX.__init__ env model_size language device w0 = (Return self, w1) ->
  (forall sr x y, sosfilt env sr x = Return y -> length y = length x) ->
  (forall target_language w w' r,
      WhisperX.transcribe_buffer env self audio_buffer audio_format
        target_language w = (Return r, w') ->
      exists d, WhisperX.tr_audio_duration r = Some d /\ (0 < d <= 120)%Q)
  /\ (forall supported_languages w w' r,
         WhisperX.detect_language env self audio_buffer audio_format
           supported_languages w = (Return r, w') ->
         WhisperX.det_error r = None ->
         exists d, WhisperX.det_audio_duration r = Some d /\ (0 < d <= 10)%Q).
Proof.
  intros Hinit Hfilt.
  destruct (whisperx_init_returns env model_size language device w0 self w1 Hinit)
    as (_ & _ & _ & _ & Hsr & Hmin & Hmax).
  split.
  - intros target_language w w' r E.
    exact (transcribe_buffer_duration env self audio_buffer audio_format
             target_language Hsr Hmin Hmax Hfilt w r w' E).
  - intros supported_languages w w' r E.
    exact (detect_language_duration env self audio_buffer audio_format
             supported_languages Hsr Hmin Hmax Hfilt w r w' E).
Qed.

Lemma audio_duration_bounded_witness :
  exists r w',
    WhisperX.transcribe_buffer (sim (setup [])) studio_processor silence (py "wav")
      None empty_world = (Return r, w')
    /\ exists d, WhisperX.tr_audio_duration r = Some d /\ (0 < d <= 120)%Q.
Proof.
  eexists. eexists. split; [vm_compute; reflexivity|].
  edestruct (audio_duration_bounded Latin (sim (setup [])) (py "base") (py "sv")
               (py "auto") empty_world
               (snd (WhisperX.__init__ (sim (setup [])) (py "base") (py "sv")
                       (py "auto") empty_world))
               studio_processor silence (py "wav"))
    as [Ht _]; [reflexivity| |].
  - intros sr x y Hxy. cbn in Hxy. now injection Hxy as <-.
  - eapply (Ht None empty_world). vm_compute. reflexivity.
Defined.


(** ** The words of a cleaned transcription *)

Section CleanWords.
Context {U : Unicode} {L : UnicodeLaws U}.
Import WhisperX.

Lemma word_app w a : word w -> nospace a -> word (w ++ a).
Proof.
  intros [Hne Hw] Ha. split.
  - destruct w; [congruence|discriminate].
  - apply Forall_app. now split.
Qed.

(** The capital letter goes into the first word. *)
Lemma capitalized_words w wr c r :
  Forall word (w :: wr) -> join [SPACE] (w :: wr) = c :: r ->
  exists w', word w' /\ upper c ++ r = join [SPACE] (w' :: wr).
Proof.
  intros HW Hj. inversion HW as [|? ? [Hne Hw] _]; subst.
  destruct w as [|c0 w0]; [congruence|].
  assert (Hc : c0 = c).
  { cbn [join] in Hj. destruct wr; cbn in Hj; now injection Hj. }
  subst c0. inversion Hw as [|? ? Hsp Hw0]; subst.
  exists (upper c ++ w0). split.
  - split; [|apply Forall_app; split; [now apply upper_nospace|exact Hw0]].
    pose proof (upper_nonempty c). destruct (upper c); [congruence|discriminate].
  - change (c :: w0) with ([c] ++ w0) in Hj. rewrite join_app_head in Hj.
    injection Hj as <-. now rewrite join_app_head.
Qed.

(** The period goes into the last word. *)
Lemma ended_words W :
  Forall word W -> W <> [] ->
  exists W', Forall word W' /\ length W' = length W
             /\ join [SPACE] W ++ py "." = join [SPACE] W'.
Proof.
  intros HW Hne. destruct (last_or_nil W) as [-> | (ws & w & ->)]; [congruence|].
  exists (ws ++ [w ++ py "."]). apply Forall_app in HW as [Hws Hw].
  inversion Hw as [|? ? Hw1 _]; subst. split; [|split].
  - apply Forall_app. split; [exact Hws|]. constructor; [|constructor].
    apply word_app; [exact Hw1|]. repeat constructor. apply isspace_DOT.
  - now rewrite !length_app.
  - apply join_snoc.
Qed.

(** The last step of the method, on words joined by spaces. *)
Lemma ending_words W n :
  Forall word W -> length W = n ->
  exists W', Forall word W' /\ length W' = n
             /\ match last (join [SPACE] W) with
                | Some e =>
                    if negb (contains (py ".!?") [e])
                    then join [SPACE] W ++ py "." else join [SPACE] W
                | None => join [SPACE] W
                end = join [SPACE] W'.
Proof.
  intros HW Hn. destruct W as [|w wr]; [now exists []|].
  destruct (last (join [SPACE] (w :: wr))) as [e|]; [|now exists (w :: wr)].
  destruct (negb (contains (py ".!?") [e])); [|now exists (w :: wr)].
  destruct (ended_words (w :: wr) HW) as (W' & H1 & H2 & H3); [discriminate|].
  exists W'. repeat split; [exact H1|congruence|exact H3].
Qed.

Lemma clean_transcription_split text :
  exists W, Forall word W /\ length W = length (split text)
            /\ _clean_transcription text = join [SPACE] W.
Proof.
  pose proof (split_words text) as HW.
  destruct (split text) as [|w wr] eqn:Hs.
  - exists []. rewrite (clean_blank text Hs). repeat split. constructor.
  - destruct text as [|x text]; [discriminate Hs|].
    unfold _clean_transcription. rewrite Hs.
    destruct (join_head _ _ HW) as (c & r & Hj & Hc).
    destruct (join_last _ _ HW) as (e & He & Hse).
    rewrite (strip_id _ c r e Hj Hc He Hse). rewrite Hj.
    destruct (isupper c) eqn:Hup; cbn [negb].
    + rewrite <- Hj. now apply ending_words.
    + destruct (capitalized_words w wr c r HW Hj) as (w' & Hw' & E).
      rewrite E. apply ending_words; [|reflexivity].
      constructor; [exact Hw'|now inversion HW].
Qed.

End CleanWords.

(** X21.  Cleaning a transcription keeps the number of its words: the
    capital letter goes into the first word and the added period into the
    last one, and runs of whitespace become single spaces.  The cleaned text
    is its own words joined by single spaces. *)
Theorem clean_transcription_keeps_words
    (U : Unicode) (L : UnicodeLaws U) (text : pystr) :
  len (split (WhisperX._clean_transcription text)) = len (split text)
  /\ join [SPACE] (split (WhisperX._clean_transcription text))
     = WhisperX._clean_transcription text.
Proof.
  destruct (clean_transcription_split text) as (W & HW & Hlen & ->).
  rewrite (split_join W HW). split; [|reflexivity].
  unfold len. now rewrite Hlen.
Qed.

Lemma clean_transcription_keeps_words_witness :
  len (split (WhisperX._clean_transcription (py "  tack  hej "))) = 2%Z
  /\ join [SPACE] (split (WhisperX._clean_transcription (py "  tack  hej ")))
     = WhisperX._clean_transcription (py "  tack  hej ").
Proof.
  exact (clean_transcription_keeps_words Latin Latin_laws (py "  tack  hej ")).
Defined.


(** ** The quality score as a function of its arguments *)

Section QualityOrder.
Context {U : Unicode}.
Import WhisperX.

Lemma expected_words_mono s1 s2 :
  (s1 <= s2)%Z -> (expected_words_of s1 <= expected_words_of s2)%Z.
Proof.
  intros H. unfold expected_words_of.
  apply Z.max_le_compat_l. apply Z.div_le_mono; [reflexivity|exact H].
Qed.

Lemma quality_spec_mono text c1 c2 s1 s2 :
  (0 <= c1)%Q -> (c1 <= c2)%Q -> (s1 <= s2)%Z ->
  (quality_spec text c1 s2 <= quality_spec text c2 s1)%Q.
Proof.
  intros H0 H12 Hs. unfold quality_spec.
  destruct text as [|x text]; [apply Qle_refl|]. cbv zeta.
  apply Q.min_le_compat_l.
  pose proof (expected_words_mono s1 s2 Hs) as He.
  pose proof (len_nonneg
    (List.filter (fun word => contains (lower (x :: text)) word) swedish_indicators))
    as Hk.
  fold (matched_indicators (x :: text)) in Hk.
  assert (Hsw : (0 <= 1 + (2 # 100) * inject_Z (matched_indicators (x :: text)))%Q).
  { apply Qle_trans with (1 + 0)%Q; [discriminate|]. apply Qplus_le_r.
    apply Qmult_le_0_compat; [discriminate|].
    change 0%Q with (inject_Z 0). now rewrite <- Zle_Qle. }
  apply Qmult_le_compat_r; [|exact Hsw].
  assert (Hb : (0 <= (if (5 <=? words_of (x :: text))%Z
                         && (words_of (x :: text) <=? 100)%Z
                      then 11 # 10 else 1))%Q)
    by (destruct (_ && _); discriminate).
  apply Qmult_le_compat_r; [|exact Hb].
  destruct (10 * words_of (x :: text) <? 3 * expected_words_of s1)%Z eqn:E1.
  - apply Z.ltb_lt in E1.
    replace (10 * words_of (x :: text) <? 3 * expected_words_of s2)%Z with true
      by (symmetry; apply Z.ltb_lt; lia).
    apply Qmult_le_compat_r; [exact H12|discriminate].
  - destruct (10 * words_of (x :: text) <? 3 * expected_words_of s2)%Z.
    + apply Qle_trans with (c1 * 1)%Q.
      * rewrite !(Qmult_comm c1). apply Qmult_le_compat_r; [discriminate|exact H0].
      * apply Qmult_le_compat_r; [exact H12|discriminate].
    + apply Qmult_le_compat_r; [exact H12|discriminate].
Qed.

End QualityOrder.

(** X22.  The quality score does not fall when the confidence rises and
    does not rise when the audio gets larger: for confidences 0 <= c1 <= c2
    and audio sizes s1 <= s2, the score of a text with c1 and s2 is at most
    its score with c2 and s1. *)
Theorem assess_transcription_quality_monotone
    (U : Unicode) (text : pystr) (c1 c2 : Q) (s1 s2 : Z) :
  (0 <= c1)%Q -> (c1 <= c2)%Q -> (s1 <= s2)%Z ->
  (WhisperX._assess_transcription_quality text c1 s2
   <= WhisperX._assess_transcription_quality text c2 s1)%Q.
Proof.
  intros H0 H12 Hs. rewrite !quality_code_spec. now apply quality_spec_mono.
Qed.

Lemma assess_transcription_quality_monotone_witness :
  (WhisperX._assess_transcription_quality (py "jag och det") (1 # 2) 50000
   <= WhisperX._assess_transcription_quality (py "jag och det") (3 # 4) 5000)%Q.
Proof.
  apply (assess_transcription_quality_monotone Latin); [discriminate|discriminate|lia].
Defined.


(** ** The status of a constructed processor *)

Section Status.
Context {U : Unicode} (env : Env).

Lemma detect_language_all_keys self audio_buffer audio_format supported_languages :
  supported_languages = None \/ supported_languages = Some [] ->
  returns
    (fun r => WhisperX.det_supported_languages r
              = map fst (WhisperX.supported_languages self))
    (WhisperX.detect_language env self audio_buffer audio_format supported_languages).
Proof.
  intros Hsl.
  assert (Hk : WhisperX.detection_languages_of self supported_languages
               = map fst (WhisperX.supported_languages self))
    by (destruct Hsl as [-> | ->]; reflexivity).
  unfold WhisperX.detect_language. apply returns_then. intros start_time.
  cbv zeta. rewrite Hk. apply returns_try_except.
  - repeat returns_step. now apply returns_ret.
  - intros e. repeat returns_step. apply returns_ret. cbn.
    now destruct (negb _).
Qed.

End Status.

(** X23.  What [get_status] reports for a constructed processor.  For a
    [TTSProcessor]: a provider among "piper", "espeak" and "system" (the one
    whose check passed, not always the requested one), 22050 Hz and one
    channel, which are the provider, the sample rate and the channels of
    every result of [synthesize] without "error".  For a
    [WhisperXProcessor]: the ten language codes, which are the
    "supported_languages" of every result of [detect_language] when no
    languages are requested; and, for the device "auto", the device "cuda"
    exactly when "cuda_available" is true. *)
Theorem status_of_constructed_processors
    (U : Unicode) (env : Env) :
  (forall provider voice device w w' self,
      TTS.__init__ env provider voice device w = (Return self, w') ->
      known_provider (TTS.status_provider (TTS.get_status self))
      /\ TTS.status_sample_rate (TTS.get_status self) = 22050%Z
      /\ TTS.status_channels (TTS.get_status self) = 1%Z
      /\ forall text output_format w1 w2 r,
           TTS.synthesize env self text output_format w1 = (Return r, w2) ->
           TTS.res_provider r = TTS.status_provider (TTS.get_status self)
           /\ (TTS.res_error r = None ->
               TTS.res_sample_rate r
               = Some (TTS.status_sample_rate (TTS.get_status self))
               /\ TTS.res_channels r
                  = Some (TTS.status_channels (TTS.get_status self))))
  /\ (forall model_size language device w w' self,
         WhisperX.__init__ env model_size language device w = (Return self, w') ->
         WhisperX.status_supported_languages (WhisperX.get_status env self)
         = [py "sv"; py "en"; py "da"; py "no"; py "fi"; py "de"; py "fr";
            py "es"; py "it"; py "nl"]
         /\ (device = py "auto" ->
             WhisperX.status_device (WhisperX.get_status env self)
             = if WhisperX.status_cuda_available (WhisperX.get_status env self)
               then py "cuda" else py "cpu")
         /\ forall audio_buffer audio_format supported_languages w1 w2 r,
              supported_languages = None \/ supported_languages = Some [] ->
              WhisperX.detect_language env self audio_buffer audio_format
                supported_languages w1 = (Return r, w2) ->
              WhisperX.det_supported_languages r
              = WhisperX.status_supported_languages (WhisperX.get_status env self)).
Proof.
  split.
  - intros provider voice device w w' self Hinit.
    destruct (init_returns env provider voice device w self w' Hinit)
      as (Hp & _ & _ & Hsr & Hch & _).
    cbn [TTS.get_status TTS.status_provider TTS.status_sample_rate
         TTS.status_channels].
    split; [|split; [exact Hsr|split; [exact Hch|]]].
    + unfold known_provider.
      destruct Hp as [(_ & -> & _) | [(_ & -> & _) | (_ & -> & _)]]; auto.
    + intros text output_format w1 w2 r E. revert w1 r w2 E.
      change (returns
                (fun r =>
                   TTS.res_provider r = TTS.provider self
                   /\ (TTS.res_error r = None ->
                       TTS.res_sample_rate r = Some (TTS.sample_rate self)
                       /\ TTS.res_channels r = Some (TTS.channels self)))
                (TTS.synthesize env self text output_format)).
      unfold TTS.synthesize. apply returns_then. intros start_time.
      apply returns_try_except.
      * repeat returns_step. apply returns_ret. cbn. auto.
      * intros e. repeat returns_step. apply returns_ret. cbn.
        split; [reflexivity|discriminate].
  - intros model_size language device w w' self Hinit.
    destruct (whisperx_init_returns env model_size language device w self w' Hinit)
      as (_ & _ & Hkeys & Hdev & _).
    cbn [WhisperX.get_status WhisperX.status_supported_languages
         WhisperX.status_device WhisperX.status_cuda_available].
    split; [exact Hkeys|]. split.
    + intros ->. exact Hdev.
    + intros audio_buffer audio_format supported_languages w1 w2 r Hsl E.
      exact (detect_language_all_keys env self audio_buffer audio_format
               supported_languages Hsl w1 r w2 E).
Qed.

Lemma status_of_constructed_processors_witness :
  TTS.status_provider
    (TTS.get_status (TTS.set_piper_available (speaker (py "piper")))) = py "piper"
  /\ known_provider
       (TTS.status_provider
          (TTS.get_status (TTS.set_piper_available (speaker (py "piper")))))
  /\ WhisperX.status_supported_languages
       (WhisperX.get_status (sim (setup [])) studio_processor)
     = [py "sv"; py "en"; py "da"; py "no"; py "fi"; py "de"; py "fr";
        py "es"; py "it"; py "nl"].
Proof.
  destruct (status_of_constructed_processors Latin (sim (setup [py "piper"])))
    as [Htts _].
  destruct (status_of_constructed_processors Latin (sim (setup []))) as [_ Hwx].
  destruct (Htts (py "piper") (py "swedish_female") (py "auto") empty_world _ _
              eq_refl) as (Hk & _).
  destruct (Hwx (py "base") (py "sv") (py "auto") empty_world _ _ eq_refl)
    as (Hl & _).
  split; [reflexivity|]. split; [exact Hk|exact Hl].
Defined.
